(** * RFC 8628 device authorization flow of the SaveContext CLI

    A shallow embedding of [src/server/src/cli/device-flow.ts]
    ([requestDeviceCode], [pollForToken], [sleep], [executeDeviceFlow]) and of
    the part of [src/server/src/utils/config.ts] it calls ([getCloudApiUrl],
    [saveCredentials]), together with the properties of the flow.

    The files the CLI keeps under [~/.savecontext] (the other functions of
    [config.ts]) are embedded in the module [Config] over a model of the
    disk, and the collection and display of the git status in the module
    [Git] over a model of the commands it runs; their properties follow
    those of the flow.

    The program is effectful: it reads the clock, talks to two HTTP endpoints,
    sleeps, calls two caller-supplied callbacks and writes the credentials
    file.  The embedding threads an explicit [World] through a small
    state-and-exception monad.  What the outside does (what the endpoints
    answer, how long things take, whether the file write fails) is an [Env];
    what the program did is recorded in the world's [trace]. *)

From Stdlib Require Import ZArith List String Bool Arith Lia.
From Stdlib Require Import Ascii DecimalString DecimalNat.
Import ListNotations.

Local Open Scope string_scope.
Local Open Scope list_scope.
Local Open Scope Z_scope.

(** ** Values *)

(** A thrown JavaScript value: an [Error] object with its [message], or any
    other value ([error instanceof Error] is false for it). *)
Inductive Exn : Type :=
| ErrorObj (message : string)
| NonError (shown : string).

(** [error instanceof Error ? error.message : 'Unknown error'] *)
Definition message_of (error : Exn) : string :=
  match error with
  | ErrorObj message => message
  | NonError _ => "Unknown error"
  end.

(** JavaScript truthiness of an optional string property: [undefined] and the
    empty string are falsy.  [populated s] is the string when it is truthy. *)
Definition populated (s : option string) : option string :=
  match s with
  | Some EmptyString => None
  | Some v => Some v
  | None => None
  end.

(** Modelled from the spec: the declarations of [../types/index.js] are not
    among the sources; [DeviceCodeResponse] has the fields of the spec's
    DeviceCodeGrant.  [expires_in] and [interval] are JavaScript numbers
    holding whole seconds, taken as integers. *)
Record DeviceCodeResponse : Type := {
  device_code : string;
  user_code : string;
  verification_uri : string;
  expires_in : Z;
  interval : Z
}.

(** Modelled from the spec: the token endpoint's body,
    [{error?, api_key?, key_prefix?, user_id?, email?, provider?}]. *)
Record DeviceTokenResponse : Type := {
  error : option string;
  api_key : option string;
  key_prefix : option string;
  user_id : option string;
  email : option string;
  provider : option string
}.

(** Modelled from the spec: DeviceAuthResult,
    [{success, apiKey?, keyPrefix?, userId?, email?, provider?, error?}]. *)
Record DeviceAuthResult : Type := {
  success : bool;
  apiKey : option string;
  keyPrefix : option string;
  userId : option string;
  res_email : option string;
  res_provider : option string;
  res_error : option string
}.

(** The string [new Date().toISOString()] gives at clock reading [ms]
    (milliseconds since the epoch); the rendering itself is not modelled. *)
Inductive IsoString : Type := toISOString (ms : Z).

(** Modelled from the spec: SaveContextCredentials (the spec's Credential),
    with the fields of the object literal of lines 111-116. *)
Record SaveContextCredentials : Type := {
  cred_apiKey : string;
  cred_email : option string;
  cred_provider : option string;
  createdAt : IsoString
}.

(** What one run of a caller-supplied callback does: the lines it shows on
    the caller's display, the time it takes, and the value it throws, if any. *)
Record CbRun : Type := {
  cb_shows : list string;
  cb_ms : Z;
  cb_raises : option Exn
}.

(** Modelled from the spec: [DeviceFlowOptions], whose declaration is in
    [../types/index.js]; the fields are those line 67 takes apart.
    [onPolling k] is the run of the callback in the cycle that follows [k]
    token requests; [saveCredentials_flag] is the optional [saveCredentials]
    property ([undefined] when [None]). *)
Record DeviceFlowOptions : Type := {
  onCodeReceived : string -> string -> CbRun;
  onPolling : option (nat -> CbRun);
  saveCredentials_flag : option bool
}.

(** A [fetch] response: [response.status], [response.text()] and
    [response.json()] (which rejects on a malformed body). *)
Record Response (J : Type) : Type := {
  status : Z;
  text : string;
  json : Exn + J
}.
Arguments status {J} _.
Arguments text {J} _.
Arguments json {J} _.

(** [response.ok]: the status is in the range 200-299. *)
Definition ok {J : Type} (response : Response J) : bool :=
  (200 <=? status response) && (status response <=? 299).

(** ** The outside world *)

(** What the program did, in order: the code request, the call of
    [onCodeReceived], a [sleep], the call of [onPolling], a token request, a
    call of [saveCredentials].  [at_ms] is the clock when it began. *)
Inductive Event : Type :=
| EvCodeRequest (url : string)
| EvCodeReceived (userCode verificationUri : string)
| EvSleep (at_ms : Z) (seconds : Z)
| EvPolling
| EvPoll (at_ms : Z) (url : string) (deviceCode : string)
| EvSave (at_ms : Z) (credentials : SaveContextCredentials).

(** What the outside does.  [SAVECONTEXT_API_URL] is the environment
    variable of that name.  [fetch] rejects with [inl e] on a transport
    failure.  The code request is answered by [code_fetch] after [code_ms]
    milliseconds; the [k]-th token request (counting from 0) is answered by
    [token_fetch k] after [token_ms k] milliseconds; the wait that precedes
    it, asked for [s] seconds, takes [sleep_ms k s] milliseconds.  Writing the
    credentials file takes [save_ms] milliseconds and throws [e] when
    [save_raises] is [Some e]; the write of [c] that throws leaves
    [save_leaves c old] in a file that held [old]: [old] itself when the
    directory cannot be made or the file cannot be opened, nothing when the
    file was opened, which empties it, and the write then failed. *)
Record Env : Type := {
  SAVECONTEXT_API_URL : option string;
  code_fetch : Exn + Response DeviceCodeResponse;
  code_ms : Z;
  token_fetch : nat -> Exn + Response DeviceTokenResponse;
  token_ms : nat -> Z;
  sleep_ms : nat -> Z -> Z;
  save_raises : option Exn;
  save_leaves :
    SaveContextCredentials -> option SaveContextCredentials ->
    option SaveContextCredentials;
  save_ms : Z
}.

Record World : Type := {
  now : Z;                                  (* [Date.now()], milliseconds *)
  polls : nat;                              (* token requests issued so far *)
  trace : list Event;
  display : list string;                    (* the caller's display *)
  cred_file : option SaveContextCredentials
    (* the credentials credentials.json holds, if it holds any *)
}.

Definition elapsed (ms : Z) (w : World) : World :=
  {| now := now w + ms; polls := polls w; trace := trace w;
     display := display w; cred_file := cred_file w |}.

Definition logged (e : Event) (w : World) : World :=
  {| now := now w; polls := polls w; trace := trace w ++ [e];
     display := display w; cred_file := cred_file w |}.

Definition shown (lines : list string) (w : World) : World :=
  {| now := now w; polls := polls w; trace := trace w;
     display := display w ++ lines; cred_file := cred_file w |}.

Definition polled (w : World) : World :=
  {| now := now w; polls := S (polls w); trace := trace w;
     display := display w; cred_file := cred_file w |}.

Definition written (c : SaveContextCredentials) (w : World) : World :=
  {| now := now w; polls := polls w; trace := trace w;
     display := display w; cred_file := Some c |}.

(** The credentials file left holding [f]. *)
Definition left_holding (f : option SaveContextCredentials) (w : World)
  : World :=
  {| now := now w; polls := polls w; trace := trace w;
     display := display w; cred_file := f |}.

(** ** The monad: state, exceptions, and fuel for the [while] loop

    A computation takes the world and ends by returning a value ([Ret]), by
    throwing ([Throw]; for an [async] function, a rejected promise), or by
    running out of fuel ([OutOfFuel]), and leaves the world it reached. *)

Inductive Outcome (A : Type) : Type :=
| Ret (a : A)
| Throw (e : Exn)
| OutOfFuel.
Arguments Ret {A} a.
Arguments Throw {A} e.
Arguments OutOfFuel {A}.

Definition M (A : Type) : Type := World -> Outcome A * World.

Definition ret {A : Type} (a : A) : M A := fun w => (Ret a, w).

Definition throw {A : Type} (e : Exn) : M A := fun w => (Throw e, w).

Definition bind {A B : Type} (m : M A) (f : A -> M B) : M B :=
  fun w =>
    match m w with
    | (Ret a, w') => f a w'
    | (Throw e, w') => (Throw e, w')
    | (OutOfFuel, w') => (OutOfFuel, w')
    end.

(** [try { m } catch (error) { h error }] *)
Definition try_catch {A : Type} (m : M A) (h : Exn -> M A) : M A :=
  fun w =>
    match m w with
    | (Throw e, w') => h e w'
    | r => r
    end.

Declare Scope flow_scope.
Delimit Scope flow_scope with flow.
Notation "x <- m ;; k" := (bind m (fun x => k))
  (at level 61, m at next level, right associativity) : flow_scope.
Notation "m ;; k" := (bind m (fun _ => k))
  (at level 61, right associativity) : flow_scope.
Local Open Scope flow_scope.

Definition Date_now : M Z := fun w => (Ret (now w), w).

Definition elapse (ms : Z) : M unit := fun w => (Ret tt, elapsed ms w).

Definition emit (e : Event) : M unit := fun w => (Ret tt, logged e w).

(** Calling a callback: it shows its lines, takes its time, and returns or
    throws. *)
Definition call (c : CbRun) : M unit :=
  fun w =>
    let w' := elapsed (cb_ms c) (shown (cb_shows c) w) in
    match cb_raises c with
    | Some e => (Throw e, w')
    | None => (Ret tt, w')
    end.

(** A control-flow signal of the loop body: [continue] with the interval for
    the next cycle (also reached by falling off the end of the body), or
    [return] of a result. *)
Inductive LoopCtl : Type :=
| Continue (interval : Z)
| Return (result : DeviceAuthResult).

Definition failure (msg : string) : DeviceAuthResult :=
  {| success := false; apiKey := None; keyPrefix := None; userId := None;
     res_email := None; res_provider := None; res_error := Some msg |}.

(** ** Comparing runs *)

(** Options with an [onPolling] callback supplied. *)
Definition polling_with (shows_code : string -> string -> CbRun)
  (flag : option bool) (cb : nat -> CbRun) : DeviceFlowOptions :=
  {| onCodeReceived := shows_code; onPolling := Some cb;
     saveCredentials_flag := flag |}.

(** Two worlds that differ at most in what the caller's display shows. *)
Definition same_but_display (w1 w2 : World) : Prop :=
  now w1 = now w2 /\ polls w1 = polls w2 /\ trace w1 = trace w2 /\
  cred_file w1 = cred_file w2.

(** ** Scenarios

    Concrete outsides, options and worlds, used to run the flow. *)

Definition replies_with {J : Type} (code : Z) (body : J) : Exn + Response J :=
  inr {| status := code; text := "(json)"; json := inr body |}.

Definition token_response (code key : option string) : DeviceTokenResponse :=
  {| error := code; api_key := key; key_prefix := None; user_id := None;
     email := None; provider := None |}.

Definition pending_response : DeviceTokenResponse :=
  token_response (Some "authorization_pending") None.

Definition slow_down_response : DeviceTokenResponse :=
  token_response (Some "slow_down") None.

Definition denied_response : DeviceTokenResponse :=
  token_response (Some "access_denied") None.

Definition empty_response : DeviceTokenResponse :=
  token_response None None.

(** The authorized response of the spec's scenario. *)
Definition authorized_response : DeviceTokenResponse :=
  {| error := None; api_key := Some "sk_live_123"; key_prefix := None;
     user_id := None; email := Some "a@b.com"; provider := Some "github" |}.

(** The grant of the spec's scenario, with [expires_in] left open. *)
Definition grant_for (seconds : Z) : DeviceCodeResponse :=
  {| device_code := "d1"; user_code := "ABCD-1234";
     verification_uri := "https://x/verify"; expires_in := seconds;
     interval := 5 |}.

(** An outside that answers the code request with [grant], the token
    requests with [replies] in order and then with [later]; requests take
    100 ms, waits take the time asked for (a timer takes at least 1 ms); a
    save that throws does so before the file is opened and leaves it as it
    was. *)
Definition scripted (grant : Exn + Response DeviceCodeResponse)
  (replies : list (Exn + Response DeviceTokenResponse))
  (later : Exn + Response DeviceTokenResponse) (save : option Exn) : Env :=
  {| SAVECONTEXT_API_URL := None;
     code_fetch := grant;
     code_ms := 100;
     token_fetch := fun k => nth k replies later;
     token_ms := fun _ => 100;
     sleep_ms := fun _ seconds => Z.max 1 (1000 * seconds);
     save_raises := save;
     save_leaves := fun _ old => old;
     save_ms := 2 |}.

(** A callback run that shows [lines], takes [ms] and returns. *)
Definition shows (lines : list string) (ms : Z) : CbRun :=
  {| cb_shows := lines; cb_ms := ms; cb_raises := None |}.

(** Options of a command-line caller: the code and the URI are shown. *)
Definition console (polling : option (nat -> CbRun)) (flag : option bool)
  : DeviceFlowOptions :=
  {| onCodeReceived := fun userCode uri => shows [userCode; uri] 1;
     onPolling := polling;
     saveCredentials_flag := flag |}.

Definition dots : option (nat -> CbRun) := Some (fun _ => shows ["."] 0).

Definition boot : World :=
  {| now := 0; polls := 0; trace := []; display := []; cred_file := None |}.

(** The spec's scenario: pending, pending, authorized; 600 seconds. *)
Definition scenario_env : Env :=
  scripted (replies_with 200 (grant_for 600))
    [replies_with 400 pending_response; replies_with 400 pending_response]
    (replies_with 200 authorized_response) None.

(** The same with a credentials file that cannot be written. *)
Definition readonly_env : Env :=
  scripted (replies_with 200 (grant_for 600))
    [replies_with 400 pending_response; replies_with 400 pending_response]
    (replies_with 200 authorized_response)
    (Some (ErrorObj "EACCES: permission denied, open credentials.json")).

(** The outside [env] with a disk on which a write that throws has emptied
    the file before. *)
Definition emptying (env : Env) : Env :=
  {| SAVECONTEXT_API_URL := SAVECONTEXT_API_URL env;
     code_fetch := code_fetch env;
     code_ms := code_ms env;
     token_fetch := token_fetch env;
     token_ms := token_ms env;
     sleep_ms := sleep_ms env;
     save_raises := save_raises env;
     save_leaves := fun _ _ => None;
     save_ms := save_ms env |}.

(** Authorized at the first token request, and a full disk: the file is
    opened and the write fails. *)
Definition readonly_at_once_env : Env :=
  emptying
    (scripted (replies_with 200 (grant_for 600)) []
       (replies_with 200 authorized_response)
       (Some (ErrorObj "ENOSPC: no space left on device, write"))).

(** A world in which credentials were stored before. *)
Definition logged_in : World :=
  {| now := 0; polls := 0; trace := []; display := [];
     cred_file :=
       Some {| cred_apiKey := "sk_old_456"; cred_email := None;
               cred_provider := None; createdAt := toISOString (-1000) |} |}.

(** An [onPolling] that throws a value that is not an [Error]. *)
Definition grumbling : option (nat -> CbRun) :=
  Some (fun _ => {| cb_shows := ["!"]; cb_ms := 0;
                    cb_raises := Some (NonError "42") |}).

(** Ten seconds to authorize; the user does so during the second wait. *)
Definition late_env : Env :=
  scripted (replies_with 200 (grant_for 10))
    [replies_with 400 pending_response]
    (replies_with 200 authorized_response) None.

(** Ten seconds to authorize; the user never does. *)
Definition idle_env : Env :=
  scripted (replies_with 200 (grant_for 10)) []
    (replies_with 400 pending_response) None.

(** The user denies after one pending response. *)
Definition denying_env : Env :=
  scripted (replies_with 200 (grant_for 600))
    [replies_with 400 pending_response]
    (replies_with 400 denied_response) None.

(** The server asks to slow down, then goes on with pending. *)
Definition busy_env : Env :=
  scripted (replies_with 200 (grant_for 600))
    [replies_with 400 slow_down_response]
    (replies_with 400 pending_response) None.

(** The server answers with an empty body, then authorizes. *)
Definition blank_env : Env :=
  scripted (replies_with 200 (grant_for 600))
    [replies_with 200 empty_response]
    (replies_with 200 authorized_response) None.

(** The device-code endpoint is down. *)
Definition down_env : Env :=
  scripted
    (inr {| status := 503; text := "Service Unavailable";
            json := inl (ErrorObj "Unexpected token S in JSON") |})
    [] (replies_with 400 pending_response) None.

(** A response that carries both an error and a key. *)
Definition confused_response : DeviceTokenResponse :=
  token_response (Some "access_denied") (Some "sk_live_123").

Definition confused_env : Env :=
  scripted (replies_with 200 (grant_for 600)) []
    (replies_with 200 confused_response) None.

(** Pending, then a 500 whose body would parse to the authorized response. *)
Definition failing_env : Env :=
  scripted (replies_with 200 (grant_for 600))
    [replies_with 400 pending_response]
    (inr {| status := 500; text := "Internal Server Error";
            json := inr authorized_response |}) None.


(** * config.ts: what is kept under [~/.savecontext] *)

Module Config.

(** ** JSON values *)

(** What [JSON.parse] returns.  A number is kept as [m] times two to the
    [e], which covers every finite double; the fields of an object are in the
    order of its keys, each key once. *)
#[local] Unset Elimination Schemes.
Inductive Json : Type :=
| JNull
| JBool (b : bool)
| JNum (m e : Z)
| JStr (s : string)
| JArr (items : list Json)
| JObj (fields : list (string * Json)).
#[local] Set Elimination Schemes.

Fixpoint lookup (key : string) (fields : list (string * Json))
  : option Json :=
  match fields with
  | [] => None
  | (k, v) :: rest => if String.eqb k key then Some v else lookup key rest
  end.

(** [v.apiKey] for a [v] that is not [null]: [undefined] ([None]) unless [v]
    is an object with that key (a string, a number, a boolean and an array
    have no such property). *)
Definition apiKey_of (v : Json) : option Json :=
  match v with
  | JObj fields => lookup "apiKey" fields
  | _ => None
  end.

(** [!!x] for a property that may be [undefined] *)
Definition truthy (x : option Json) : bool :=
  match x with
  | None => false
  | Some JNull => false
  | Some (JBool b) => b
  | Some (JNum m _) => negb (m =? 0)
  | Some (JStr s) => negb (String.eqb s EmptyString)
  | Some (JArr _) => true
  | Some (JObj _) => true
  end.

(** A text, known by what [JSON.parse] makes of it: the exception it throws
    or the value it returns. *)
Definition Text : Type := Exn + Json.

(** [JSON.stringify(v, null, 2)] of plain data: a text that parses back to
    [v]. *)
Definition JSON_stringify (v : Json) : Text := inr v.

(** ** The disk *)

Inductive Path : Type := CONFIG_DIR | CONFIG_FILE | CREDENTIALS_FILE.

Record File : Type := {
  data : Text;
  file_mode : Z
}.

(** The directory [~/.savecontext] with its permission bits and its two
    files. *)
Record Dir : Type := {
  dir_mode : Z;
  config_json : option File;
  credentials_json : option File
}.

(** [None]: there is no [~/.savecontext]. *)
Definition Disk : Type := option Dir.

Definition file_at (p : Path) (d : Disk) : option File :=
  match d, p with
  | None, _ => None
  | Some _, CONFIG_DIR => None
  | Some dir, CONFIG_FILE => config_json dir
  | Some dir, CREDENTIALS_FILE => credentials_json dir
  end.

Definition put (p : Path) (f : option File) (dir : Dir) : Dir :=
  match p with
  | CONFIG_DIR => dir
  | CONFIG_FILE =>
      {| dir_mode := dir_mode dir; config_json := f;
         credentials_json := credentials_json dir |}
  | CREDENTIALS_FILE =>
      {| dir_mode := dir_mode dir; config_json := config_json dir;
         credentials_json := f |}
  end.

(** What the file system does to the calls of this module: the process's
    umask, the exception [mkdirSync], [readFileSync] and [unlinkSync] throw,
    if any, and for a [writeFileSync] that throws, the exception together
    with what is left of the file. *)
Record Faults : Type := {
  umask : Z;
  mkdir_raises : option Exn;
  read_raises : Path -> option Exn;
  write_raises : Path -> option (Exn * (option File -> option File));
  unlink_raises : Path -> option Exn
}.

(** Permission bits [mode] under umask [u]. *)
Definition masked (mode u : Z) : Z := Z.land mode (Z.lnot u).

(** The bits of group and others, [0o077]. *)
Definition others : Z := 63.

(** ** Calls that read or change the disk *)

Definition IO (A : Type) : Type := Disk -> (Exn + A) * Disk.

Definition ret {A : Type} (a : A) : IO A := fun d => (inr a, d).

Definition throw {A : Type} (e : Exn) : IO A := fun d => (inl e, d).

Definition bind {A B : Type} (m : IO A) (f : A -> IO B) : IO B :=
  fun d =>
    match m d with
    | (inr a, d') => f a d'
    | (inl e, d') => (inl e, d')
    end.

(** [try { m } catch { h }] *)
Definition try_catch {A : Type} (m : IO A) (h : IO A) : IO A :=
  fun d =>
    match m d with
    | (inl _, d') => h d'
    | r => r
    end.

Declare Scope io_scope.
Delimit Scope io_scope with io.
Notation "x <- m ;; k" := (bind m (fun x => k))
  (at level 61, m at next level, right associativity) : io_scope.
Notation "m ;; k" := (bind m (fun _ => k))
  (at level 61, right associativity) : io_scope.
Local Open Scope io_scope.

Definition ENOENT : Exn := ErrorObj "ENOENT: no such file or directory".

Section Files.

Variable faults : Faults.

(** The text of a timestamp. *)
Variable rendered : IsoString -> string.

Definition existsSync (p : Path) : IO bool :=
  fun d =>
    (inr match p with
         | CONFIG_DIR => match d with Some _ => true | None => false end
         | _ => match file_at p d with Some _ => true | None => false end
         end, d).

(** [mkdirSync(CONFIG_DIR, { recursive: true, mode })] *)
Definition mkdirSync (mode : Z) : IO unit :=
  fun d =>
    match mkdir_raises faults with
    | Some e => (inl e, d)
    | None =>
        match d with
        | Some _ => (inr tt, d)
        | None =>
            (inr tt,
             Some {| dir_mode := masked mode (umask faults);
                     config_json := None; credentials_json := None |})
        end
    end.

(** [readFileSync(p, 'utf-8')] *)
Definition readFileSync (p : Path) : IO Text :=
  fun d =>
    match read_raises faults p with
    | Some e => (inl e, d)
    | None =>
        match file_at p d with
        | Some f => (inr (data f), d)
        | None => (inl ENOENT, d)
        end
    end.

Definition JSON_parse (t : Text) : IO Json :=
  match t with
  | inl e => throw e
  | inr v => ret v
  end.

(** [writeFileSync(p, text, { mode })]: a file that is there keeps its
    permission bits, a new one gets [mode] under the umask. *)
Definition writeFileSync (p : Path) (text : Text) (mode : Z) : IO unit :=
  fun d =>
    match d with
    | None => (inl ENOENT, d)
    | Some dir =>
        match write_raises faults p with
        | Some (e, remains) =>
            (inl e, Some (put p (remains (file_at p d)) dir))
        | None =>
            (inr tt,
             Some (put p
                     (Some {| data := text;
                              file_mode :=
                                match file_at p d with
                                | Some f => file_mode f
                                | None => masked mode (umask faults)
                                end |})
                     dir))
        end
    end.

Definition unlinkSync (p : Path) : IO unit :=
  fun d =>
    match unlink_raises faults p with
    | Some e => (inl e, d)
    | None =>
        match d, file_at p d with
        | Some dir, Some _ => (inr tt, Some (put p None dir))
        | _, _ => (inl ENOENT, d)
        end
    end.

(** ** The functions of config.ts *)

Definition ensureConfigDir : IO unit :=
  there <- existsSync CONFIG_DIR ;;
  if negb there then mkdirSync 448 else ret tt.

(** [{ mode: 'local' }] *)
Definition default_config : Json := JObj [("mode", JStr "local")].

(** The [try] block of the two loaders: [Some v] when it returns [v], [None]
    when it falls through. *)
Definition parsed_file (p : Path) : IO (option Json) :=
  there <- existsSync p ;;
  if there
  then text <- readFileSync p ;;
       v <- JSON_parse text ;;
       ret (Some v)
  else ret None.

Definition loadConfig : IO Json :=
  r <- try_catch (parsed_file CONFIG_FILE) (ret None) ;;
  match r with
  | Some v => ret v
  | None => ret default_config
  end.

Definition saveConfig (config : Json) : IO unit :=
  ensureConfigDir ;;
  writeFileSync CONFIG_FILE (JSON_stringify config) 384.

Definition loadCredentials : IO Json :=
  r <- try_catch (parsed_file CREDENTIALS_FILE) (ret None) ;;
  match r with
  | Some v => ret v
  | None => ret JNull
  end.

Definition field (key : string) (v : option string)
  : list (string * Json) :=
  match v with
  | Some s => [(key, JStr s)]
  | None => []
  end.

(** The credentials as [JSON.stringify] sees them: a property that is
    [undefined] is left out. *)
Definition json_of (c : SaveContextCredentials) : Json :=
  JObj (("apiKey", JStr (cred_apiKey c))
        :: field "email" (cred_email c)
        ++ field "provider" (cred_provider c)
        ++ [("createdAt", JStr (rendered (createdAt c)))]).

Definition saveCredentials (credentials : SaveContextCredentials) : IO unit :=
  ensureConfigDir ;;
  writeFileSync CREDENTIALS_FILE (JSON_stringify (json_of credentials)) 384.

Definition deleteCredentials : IO bool :=
  r <- try_catch
         (there <- existsSync CREDENTIALS_FILE ;;
          if there
          then unlinkSync CREDENTIALS_FILE ;; ret (Some true)
          else ret None)
         (ret None) ;;
  match r with
  | Some b => ret b
  | None => ret false
  end.

(** [creds !== null && !!creds.apiKey] *)
Definition isAuthenticated : IO bool :=
  creds <- loadCredentials ;;
  ret match creds with
      | JNull => false
      | _ => truthy (apiKey_of creds)
      end.

(** [creds?.apiKey ?? null] *)
Definition getApiKey : IO Json :=
  creds <- loadCredentials ;;
  ret match creds with
      | JNull => JNull
      | _ => match apiKey_of creds with
             | None => JNull
             | Some v => v
             end
      end.

(** ** Notions used in the statements *)

(** What a loader gets out of the file at [p]: the value its text parses to,
    when the file is there, can be read and parses. *)
Definition readable (p : Path) (d : Disk) : option Json :=
  match file_at p d, read_raises faults p with
  | Some f, None =>
      match data f with
      | inr v => Some v
      | inl _ => None
      end
  | _, _ => None
  end.

(** Where the directory is after [ensureConfigDir] returned. *)
Definition ensured (d : Disk) : Dir :=
  match d with
  | Some dir => dir
  | None =>
      {| dir_mode := masked 448 (umask faults);
         config_json := None; credentials_json := None |}
  end.

(** The directory is there or can be made, and the file at [p] can be
    written. *)
Definition writable (p : Path) (d : Disk) : Prop :=
  (d = None -> mkdir_raises faults = None) /\ write_raises faults p = None.

End Files.

(** ** A disk that works *)

(** Umask [0o022] and nothing throws. *)
Definition calm : Faults :=
  {| umask := 18;
     mkdir_raises := None;
     read_raises := fun _ => None;
     write_raises := fun _ => None;
     unlink_raises := fun _ => None |}.

Definition stamp (t : IsoString) : string := "2025-01-01T00:00:00.000Z".

Definition sample_credentials : SaveContextCredentials :=
  {| cred_apiKey := "sk_live_123";
     cred_email := Some "a@b.com";
     cred_provider := Some "github";
     createdAt := toISOString 0 |}.

(** ** formatProvider *)

Definition code (c : Ascii.ascii) : nat := Ascii.nat_of_ascii c.

(** [toLowerCase] and [toUpperCase] on a character of ASCII *)
Definition lower_char (c : Ascii.ascii) : Ascii.ascii :=
  if ((65 <=? code c) && (code c <=? 90))%nat
  then Ascii.ascii_of_nat (code c + 32) else c.

Definition upper_char (c : Ascii.ascii) : Ascii.ascii :=
  if ((97 <=? code c) && (code c <=? 122))%nat
  then Ascii.ascii_of_nat (code c - 32) else c.

Fixpoint toLowerCase (s : string) : string :=
  match s with
  | EmptyString => EmptyString
  | String c rest => String (lower_char c) (toLowerCase rest)
  end.

(** The strings on which the two functions above are those of JavaScript:
    every character is below 128. *)
Fixpoint ascii_only (s : string) : bool :=
  match s with
  | EmptyString => true
  | String c rest => (code c <? 128)%nat && ascii_only rest
  end.

Definition formatProvider (provider : option string) : string :=
  match populated provider with
  | None => "Unknown"
  | Some p =>
      if String.eqb (toLowerCase p) "github" then "GitHub"
      else if String.eqb (toLowerCase p) "google" then "Google"
      else match p with
           | String c rest => String (upper_char c) rest
           | EmptyString => EmptyString
           end
  end.

End Config.

(** * Git status: what is collected and how it is shown *)

Module Git.

(** ** Strings

    A character is a code unit below 256. *)

Definition unit_of (c : Ascii.ascii) : nat := Ascii.nat_of_ascii c.

Definition LF : Ascii.ascii := Ascii.ascii_of_nat 10.
Definition TAB : Ascii.ascii := Ascii.ascii_of_nat 9.

(** White space and line terminators, as [trim] and [parseInt] skip them:
    tab, line feed, vertical tab, form feed, carriage return, space and
    no-break space. *)
Definition is_space (c : Ascii.ascii) : bool :=
  let n := unit_of c in
  (((9 <=? n) && (n <=? 13)) || (n =? 32) || (n =? 160))%nat.

Fixpoint trimStart (s : string) : string :=
  match s with
  | EmptyString => EmptyString
  | String c rest => if is_space c then trimStart rest else s
  end.

Fixpoint trimEnd (s : string) : string :=
  match s with
  | EmptyString => EmptyString
  | String c rest =>
      match trimEnd rest with
      | EmptyString => if is_space c then EmptyString else String c EmptyString
      | kept => String c kept
      end
  end.

Definition trim (s : string) : string := trimEnd (trimStart s).

(** [!s.trim()] *)
Definition blank (s : string) : bool := String.eqb (trim s) EmptyString.

Fixpoint take (n : nat) (s : string) : string :=
  match n, s with
  | S n', String c rest => String c (take n' rest)
  | _, _ => EmptyString
  end.

Fixpoint drop (n : nat) (s : string) : string :=
  match n, s with
  | S n', String _ rest => drop n' rest
  | _, _ => s
  end.

(** [s.substring(start, end)], and [s.substring(start)] for [None] *)
Definition substring (start : nat) (end_ : option nat) (s : string)
  : string :=
  match end_ with
  | None => drop start s
  | Some e => drop (Nat.min start e) (take (Nat.max start e) s)
  end.

(** [s.includes(c)] for a string [c] of one character *)
Fixpoint includes (c : Ascii.ascii) (s : string) : bool :=
  match s with
  | EmptyString => false
  | String c' rest => Ascii.eqb c' c || includes c rest
  end.

(** [s.split(sep)] for a separator of one character *)
Fixpoint split (sep : Ascii.ascii) (s : string) : list string :=
  match s with
  | EmptyString => [EmptyString]
  | String c rest =>
      if Ascii.eqb c sep then EmptyString :: split sep rest
      else match split sep rest with
           | first :: others => String c first :: others
           | [] => [String c EmptyString]
           end
  end.

(** [parts.join(sep)] *)
Definition join (sep : string) (parts : list string) : string :=
  String.concat sep parts.

(** ** Numbers *)

(** The decimal numeral of a count. *)
Definition numeral (n : nat) : string :=
  NilEmpty.string_of_uint (Nat.to_uint n).

(** [`${n}`] for an integer [n] *)
Definition Number_toString (n : Z) : string :=
  if n <? 0 then String "-"%char (numeral (Z.to_nat (- n)))
  else numeral (Z.to_nat n).

Definition digit (c : Ascii.ascii) : option Z :=
  let n := unit_of c in
  if ((48 <=? n) && (n <=? 57))%nat then Some (Z.of_nat n - 48) else None.

(** The value of the longest prefix of digits, [None] when there is no
    digit. *)
Fixpoint digits (s : string) (acc : option Z) : option Z :=
  match s with
  | EmptyString => acc
  | String c rest =>
      match digit c with
      | Some v =>
          digits rest
            (Some (10 * match acc with Some a => a | None => 0 end + v))
      | None => acc
      end
  end.

(** [parseInt(x, 10)], [None] for [NaN]; the argument may be [undefined].
    The value is the integer itself (a double is exact up to 2^53). *)
Definition parseInt (x : option string) : option Z :=
  let input := match x with Some s => s | None => "undefined" end in
  match trimStart input with
  | String "-"%char rest => option_map Z.opp (digits rest None)
  | String "+"%char rest => digits rest None
  | s => digits s None
  end.

(** [x || 0] for a number [x] *)
Definition or_zero (x : option Z) : Z :=
  match x with
  | Some n => n
  | None => 0
  end.

(** ** The commands *)

Inductive Command : Type :=
| rev_parse    (* git rev-parse --abbrev-ref HEAD *)
| status       (* git status --porcelain *)
| rev_list     (* git rev-list --left-right --count @{upstream}...HEAD *)
| diff_cached. (* git diff --cached *)

(** What the outside does: the working directory of the process (or what
    [process.cwd()] throws), and for each command run in a directory, its
    standard output or the value the promise is rejected with. *)
Record Repo : Type := {
  process_cwd : Exn + string;
  run : Command -> string -> Exn + string
}.

Record GitStatus : Type := {
  branch : option string;
  modified : list string;
  added : list string;
  deleted : list string;
  untracked : list string;
  ahead : Z;
  behind : Z;
  staged_diff : option string
}.

(** A computation that runs commands: its result or the value it throws, and
    the commands run so far with their directories, oldest first. *)
Definition G (A : Type) : Type :=
  list (Command * string) -> (Exn + A) * list (Command * string).

Definition ret {A : Type} (a : A) : G A := fun t => (inr a, t).

Definition bind {A B : Type} (m : G A) (f : A -> G B) : G B :=
  fun t =>
    match m t with
    | (inr a, t') => f a t'
    | (inl e, t') => (inl e, t')
    end.

(** [try { m } catch { h }] *)
Definition try_catch {A : Type} (m : G A) (h : G A) : G A :=
  fun t =>
    match m t with
    | (inl _, t') => h t'
    | r => r
    end.

Declare Scope git_scope.
Delimit Scope git_scope with git.
Notation "x <- m ;; k" := (bind m (fun x => k))
  (at level 61, m at next level, right associativity) : git_scope.
Notation "m ;; k" := (bind m (fun _ => k))
  (at level 61, right associativity) : git_scope.
Local Open Scope git_scope.

Section Commands.

Variable repo : Repo.

(** [cwd || process.cwd()] *)
Definition directory (cwd : option string) : G string :=
  fun t =>
    match populated cwd with
    | Some dir => (inr dir, t)
    | None => (process_cwd repo, t)
    end.

(** [await execAsync(command, { cwd: dir })], of which the callers take
    [stdout]. *)
Definition execAsync (command : Command) (dir : string) : G string :=
  fun t => (run repo command dir, t ++ [(command, dir)]).

Definition getCurrentBranch (cwd : option string) : G (option string) :=
  try_catch
    (dir <- directory cwd ;;
     stdout <- execAsync rev_parse dir ;;
     ret (populated (Some (trim stdout))))
    (ret None).

(** The four lists while the lines are gone through. *)
Record Files : Type := {
  in_modified : list string;
  in_added : list string;
  in_deleted : list string;
  in_untracked : list string
}.

Definition push (wanted : bool) (file : string) (l : list string)
  : list string :=
  if wanted then l ++ [file] else l.

(** One turn of the loop of lines 68-78. *)
Definition parse_line (lists : Files) (line : string) : Files :=
  if blank line then lists
  else
    let status := substring 0 (Some 2%nat) line in
    let file := substring 3 None line in
    {| in_modified := push (includes "M"%char status) file (in_modified lists);
       in_added := push (includes "A"%char status) file (in_added lists);
       in_deleted := push (includes "D"%char status) file (in_deleted lists);
       in_untracked :=
         push (includes "?"%char status) file (in_untracked lists) |}.

Definition parse_lines (statusOutput : string) : Files :=
  fold_left parse_line (split LF statusOutput)
    {| in_modified := []; in_added := []; in_deleted := [];
       in_untracked := [] |}.

(** Lines 91-93: [(ahead, behind)] from the output of [rev_list]. *)
Definition parse_counts (aheadBehind : string) : Z * Z :=
  let fields := split TAB (trim aheadBehind) in
  let behindStr := nth_error fields 0 in
  let aheadStr := nth_error fields 1 in
  (or_zero (parseInt aheadStr), or_zero (parseInt behindStr)).

Definition MAX_DIFF_SIZE : Z := 50000.

(** Lines 105-112 *)
Definition staged (diff : string) : option string :=
  if blank diff then None
  else if Z.of_nat (String.length diff) >? MAX_DIFF_SIZE
       then Some ("[Diff truncated: "
                  ++ Number_toString (Z.of_nat (String.length diff))
                  ++ " bytes total]" ++ String LF EmptyString
                  ++ substring 0 (Some (Z.to_nat MAX_DIFF_SIZE)) diff)%string
       else Some diff.

Definition getGitStatus (cwd : option string) : G (option GitStatus) :=
  try_catch
    (branch <- getCurrentBranch cwd ;;
     dir <- directory cwd ;;
     statusOutput <- execAsync status dir ;;
     let lists := parse_lines statusOutput in
     counts <- try_catch
                 (dir <- directory cwd ;;
                  aheadBehind <- execAsync rev_list dir ;;
                  ret (parse_counts aheadBehind))
                 (ret (0, 0)) ;;
     staged_diff <- try_catch
                      (dir <- directory cwd ;;
                       diff <- execAsync diff_cached dir ;;
                       ret (staged diff))
                      (ret None) ;;
     ret (Some {| branch := branch;
                  modified := in_modified lists;
                  added := in_added lists;
                  deleted := in_deleted lists;
                  untracked := in_untracked lists;
                  ahead := fst counts;
                  behind := snd counts;
                  staged_diff := staged_diff |}))
    (ret None).

End Commands.

Definition part (wanted : bool) (text : string) (parts : list string)
  : list string :=
  if wanted then parts ++ [text] else parts.

Definition files (label : string) (l : list string) (parts : list string)
  : list string :=
  part (0 <? List.length l)%nat
    (label ++ numeral (List.length l) ++ " files")%string parts.

Definition formatGitStatus (status : GitStatus) : string :=
  let parts := [] in
  let parts :=
    match populated (branch status) with
    | Some b => parts ++ [("Branch: " ++ b)%string]
    | None => parts
    end in
  let parts :=
    part (0 <? ahead status)
      ("Ahead: " ++ Number_toString (ahead status))%string parts in
  let parts :=
    part (0 <? behind status)
      ("Behind: " ++ Number_toString (behind status))%string parts in
  let parts := files "Modified: " (modified status) parts in
  let parts := files "Added: " (added status) parts in
  let parts := files "Deleted: " (deleted status) parts in
  let parts := files "Untracked: " (untracked status) parts in
  match join ", " parts with
  | EmptyString => "Clean working directory"
  | shown => shown
  end.

(** ** Notions used in the statements *)

(** The directory the commands are run in, or what asking for it throws. *)
Definition resolved (repo : Repo) (cwd : option string) : Exn + string :=
  match populated cwd with
  | Some dir => inr dir
  | None => process_cwd repo
  end.

(** The files the loop collects for the letter [c]: of each line that is not
    blank and has [c] among its first two characters, what follows the third
    character. *)
Definition picked (c : Ascii.ascii) (lines : list string) : list string :=
  map (drop 3)
    (filter (fun line => negb (blank line) && includes c (take 2 line))
       lines).

(** The status [getGitStatus] builds when the commands are run in [dir] and
    [status] printed [statusOutput]. *)
Definition collected (repo : Repo) (dir statusOutput : string) : GitStatus :=
  let lists := parse_lines statusOutput in
  let counts :=
    match run repo rev_list dir with
    | inr aheadBehind => parse_counts aheadBehind
    | inl _ => (0, 0)
    end in
  {| branch :=
       match run repo rev_parse dir with
       | inl _ => None
       | inr stdout => populated (Some (trim stdout))
       end;
     modified := in_modified lists;
     added := in_added lists;
     deleted := in_deleted lists;
     untracked := in_untracked lists;
     ahead := fst counts;
     behind := snd counts;
     staged_diff :=
       match run repo diff_cached dir with
       | inr diff => staged diff
       | inl _ => None
       end |}.

Definition is_digit (c : Ascii.ascii) : bool :=
  match digit c with
  | Some _ => true
  | None => false
  end.

Fixpoint every (p : Ascii.ascii -> bool) (s : string) : bool :=
  match s with
  | EmptyString => true
  | String c rest => p c && every p rest
  end.

(** The commands [getGitStatus] runs when it gets as far as [git status]
    and when it gets to its end. *)
Definition first_two (dir : string) : list (Command * string) :=
  [(rev_parse, dir); (status, dir)].

Definition all_four (dir : string) : list (Command * string) :=
  [(rev_parse, dir); (status, dir); (rev_list, dir); (diff_cached, dir)].

(** No part yet, or a first part that does not begin with the [C] of
    [Clean working directory]. *)
Definition well_begun (parts : list string) : Prop :=
  parts = [] \/
  exists c rest others,
    parts = String c rest :: others /\ c <> "C"%char.

(** A line [XY path] of the short format. *)
Record Entry : Type := {
  X : Ascii.ascii;
  Y : Ascii.ascii;
  path : string
}.

Definition line_of (e : Entry) : string :=
  String (X e) (String (Y e) (String " "%char (path e))).

(** The output whose lines are those of the entries, each ended by a line
    feed. *)
Fixpoint output_of (entries : list Entry) : string :=
  match entries with
  | [] => EmptyString
  | e :: rest => (line_of e ++ String LF (output_of rest))%string
  end.

(** The paths of the entries with [c] in one of the two columns. *)
Definition marked (c : Ascii.ascii) (entries : list Entry) : list string :=
  map path
    (filter (fun e => Ascii.eqb (X e) c || Ascii.eqb (Y e) c) entries).

(** ** A working tree *)

Definition space : Ascii.ascii := " "%char.

(** One file changed, one added to the index, one added and then changed,
    one removed, one not tracked. *)
Definition sample_entries : list Entry :=
  [ {| X := space; Y := "M"%char; path := "src/a.ts" |};
    {| X := "A"%char; Y := space; path := "b.ts" |};
    {| X := "A"%char; Y := "M"%char; path := "c.ts" |};
    {| X := "D"%char; Y := space; path := "old.ts" |};
    {| X := "?"%char; Y := "?"%char; path := "notes.txt" |} ].

(** On branch [main], two commits behind and three ahead of its upstream,
    with a short staged diff. *)
Definition sample_repo : Repo :=
  {| process_cwd := inr "/work";
     run := fun command _ =>
       match command with
       | rev_parse => inr ("main" ++ String LF EmptyString)%string
       | status => inr (output_of sample_entries)
       | rev_list =>
           inr ("2" ++ String TAB ("3" ++ String LF EmptyString))%string
       | diff_cached =>
           inr ("diff --git a/b.ts b/b.ts" ++ String LF EmptyString)%string
       end |}.

End Git.

Section Flow.

Variable env : Env.
Variable options : DeviceFlowOptions.

(** ** config.ts *)

Definition CLOUD_API_URL : string := "https://mcp.savecontext.dev".

(** [process.env.SAVECONTEXT_API_URL || CLOUD_API_URL] *)
Definition getCloudApiUrl : string :=
  match populated (SAVECONTEXT_API_URL env) with
  | Some url => url
  | None => CLOUD_API_URL
  end.

(** [saveCredentials]: [ensureConfigDir] and [writeFileSync] either write the
    file or throw ([save_raises]); neither is guarded by a [try].  What a
    write that throws leaves in the file is for the outside to say
    ([save_leaves]): [writeFileSync] empties the file when it opens it, so
    the credentials stored before can be gone. *)
Definition saveCredentials (credentials : SaveContextCredentials) : M unit :=
  t <- Date_now ;;
  emit (EvSave t credentials) ;;
  elapse (save_ms env) ;;
  match save_raises env with
  | Some e =>
      fun w =>
        (Throw e,
         left_holding (save_leaves env credentials (cred_file w)) w)
  | None => fun w => (Ret tt, written credentials w)
  end.

(** ** device-flow.ts *)

Definition DEVICE_CODE_ENDPOINT : string := "/auth/device/code".
Definition DEVICE_TOKEN_ENDPOINT : string := "/auth/device/token".

Definition fetch {J : Type} (reply : Exn + Response J) (ms : Z)
  : M (Response J) :=
  elapse ms ;;
  match reply with
  | inl e => throw e
  | inr response => ret response
  end.

Definition response_json {J : Type} (response : Response J) : M J :=
  match json response with
  | inl e => throw e
  | inr v => ret v
  end.

Definition requestDeviceCode : M DeviceCodeResponse :=
  let baseUrl := getCloudApiUrl in
  emit (EvCodeRequest (baseUrl ++ DEVICE_CODE_ENDPOINT)) ;;
  response <- fetch (code_fetch env) (code_ms env) ;;
  if negb (ok response) then
    throw (ErrorObj ("Failed to request device code: " ++ text response))
  else response_json response.

Definition pollForToken (deviceCode : string) (interval : Z)
  : M DeviceTokenResponse :=
  let baseUrl := getCloudApiUrl in
  t <- Date_now ;;
  emit (EvPoll t (baseUrl ++ DEVICE_TOKEN_ENDPOINT) deviceCode) ;;
  response <- (fun w => fetch (token_fetch env (polls w))
                              (token_ms env (polls w)) (polled w)) ;;
  if ok response || (status response =? 400) then response_json response
  else throw (ErrorObj ("Failed to poll for token: " ++ text response)).

(** [sleep(seconds)]: the timer fires after [sleep_ms] milliseconds. *)
Definition sleep (seconds : Z) : M unit :=
  t <- Date_now ;;
  emit (EvSleep t seconds) ;;
  fun w => (Ret tt, elapsed (sleep_ms env (polls w) seconds) w).

Definition expired_result : DeviceAuthResult :=
  failure "Device code expired. Please try again.".

Definition denied_result : DeviceAuthResult :=
  failure "Authorization denied by user.".

(** [saveCredentials: shouldSave = true] *)
Definition shouldSave : bool :=
  match saveCredentials_flag options with
  | Some b => b
  | None => true
  end.

(** Lines 83-85. *)
Definition notify_polling : M unit :=
  match onPolling options with
  | Some cb => emit EvPolling ;; (fun w => call (cb (polls w)) w)
  | None => ret tt
  end.

(** Lines 89-128 and the fall-through to the end of the loop body: what is
    done with a token response. *)
Definition handle (tokenResponse : DeviceTokenResponse) (interval : Z)
  : M LoopCtl :=
  match populated (error tokenResponse) with
  | Some code =>
      if (code =? "authorization_pending")%string then
        ret (Continue interval)
      else if (code =? "slow_down")%string then
        ret (Continue (interval + 5))
      else if (code =? "expired_token")%string then
        ret (Return expired_result)
      else if (code =? "access_denied")%string then
        ret (Return denied_result)
      else
        ret (Return (failure ("Unknown error: " ++ code)))
  | None =>
      match populated (api_key tokenResponse) with
      | Some key =>
          (if shouldSave then
             t <- Date_now ;;
             saveCredentials
               {| cred_apiKey := key;
                  cred_email := email tokenResponse;
                  cred_provider := provider tokenResponse;
                  createdAt := toISOString t |}
           else ret tt) ;;
          ret (Return
                 {| success := true;
                    apiKey := api_key tokenResponse;
                    keyPrefix := key_prefix tokenResponse;
                    userId := user_id tokenResponse;
                    res_email := email tokenResponse;
                    res_provider := provider tokenResponse;
                    res_error := None |})
      | None => ret (Continue interval)
      end
  end.

(** The body of the [while] loop, lines 81-128. *)
Definition loop_body (codeResponse : DeviceCodeResponse) (interval : Z)
  : M LoopCtl :=
  sleep interval ;;
  notify_polling ;;
  tokenResponse <- pollForToken (device_code codeResponse) interval ;;
  handle tokenResponse interval.

(** [while (Date.now() < expiresAt) { ... }] followed by line 131.  [fuel]
    bounds the number of iterations: a run that would need more ends in
    [OutOfFuel].  The results below hold for every amount of fuel or give
    the amount that is enough. *)
Fixpoint poll_loop (fuel : nat) (codeResponse : DeviceCodeResponse)
  (expiresAt : Z) (interval : Z) : M DeviceAuthResult :=
  match fuel with
  | O => fun w => (OutOfFuel, w)
  | S fuel' =>
      t <- Date_now ;;
      if t <? expiresAt then
        c <- loop_body codeResponse interval ;;
        match c with
        | Continue interval' => poll_loop fuel' codeResponse expiresAt interval'
        | Return result => ret result
        end
      else ret expired_result
  end.

(** The [try] block, lines 70-131. *)
Definition flow_body (fuel : nat) : M DeviceAuthResult :=
  codeResponse <- requestDeviceCode ;;
  emit (EvCodeReceived (user_code codeResponse)
                       (verification_uri codeResponse)) ;;
  call (onCodeReceived options (user_code codeResponse)
                       (verification_uri codeResponse)) ;;
  t <- Date_now ;;
  let expiresAt := t + expires_in codeResponse * 1000 in
  poll_loop fuel codeResponse expiresAt (interval codeResponse).

Definition executeDeviceFlow (fuel : nat) : M DeviceAuthResult :=
  try_catch (flow_body fuel)
            (fun error => ret (failure (message_of error))).

(** ** Worlds reached along the way *)

(** The world after each stage of a run that goes through is written out
    here; the lemmas below relate these worlds to the program. *)

Definition code_url : string := getCloudApiUrl ++ DEVICE_CODE_ENDPOINT.
Definition token_url : string := getCloudApiUrl ++ DEVICE_TOKEN_ENDPOINT.

(** After [call c]. *)
Definition called (c : CbRun) (w : World) : World :=
  elapsed (cb_ms c) (shown (cb_shows c) w).

(** After the code request was answered with grant [g] and [onCodeReceived]
    ran: the world in which line 77 reads the clock. *)
Definition started (g : DeviceCodeResponse) (w : World) : World :=
  called (onCodeReceived options (user_code g) (verification_uri g))
    (logged (EvCodeReceived (user_code g) (verification_uri g))
       (elapsed (code_ms env) (logged (EvCodeRequest code_url) w))).

(** After [sleep(i)]. *)
Definition waited (i : Z) (w : World) : World :=
  elapsed (sleep_ms env (polls w) i) (logged (EvSleep (now w) i) w).

(** After lines 83-85. *)
Definition notified (w : World) : World :=
  match onPolling options with
  | Some cb => called (cb (polls w)) (logged EvPolling w)
  | None => w
  end.

(** After the token request was sent and answered. *)
Definition requested (g : DeviceCodeResponse) (w : World) : World :=
  elapsed (token_ms env (polls w))
    (polled (logged (EvPoll (now w) token_url (device_code g)) w)).

(** After one wait, notification and answered token request. *)
Definition cycled (g : DeviceCodeResponse) (i : Z) (w : World) : World :=
  requested g (notified (waited i w)).

(** After [saveCredentials(c)] was entered (and, with [saved], returned). *)
Definition saving (c : SaveContextCredentials) (w : World) : World :=
  elapsed (save_ms env) (logged (EvSave (now w) c) w).

Definition saved (c : SaveContextCredentials) (w : World) : World :=
  written c (saving c w).

(** After [saveCredentials(c)] threw. *)
Definition save_failed (c : SaveContextCredentials) (w : World) : World :=
  left_holding (save_leaves env c (cred_file w)) (saving c w).

(** The events of lines 83-85. *)
Definition polling_events : list Event :=
  match onPolling options with
  | Some _ => [EvPolling]
  | None => []
  end.

(** ** Conditions on the outside *)

(** The device-code endpoint answers with a 2xx status and a body that parses
    to [g]: [requestDeviceCode] returns [g]. *)
Definition code_granted (g : DeviceCodeResponse) : Prop :=
  exists response,
    code_fetch env = inr response /\ ok response = true /\
    json response = inr g.

(** The device-code request fails: [fetch] rejects, the status is not 2xx,
    or the body does not parse. *)
Definition code_fails (e : Exn) : Prop :=
  code_fetch env = inl e \/
  exists response,
    code_fetch env = inr response /\
    ((ok response = false /\
      e = ErrorObj ("Failed to request device code: " ++ text response)) \/
     (ok response = true /\ json response = inl e)).

(** [requestDeviceCode] returns [g] and [onCodeReceived] returns normally. *)
Definition grants (g : DeviceCodeResponse) : Prop :=
  code_granted g /\
  cb_raises (onCodeReceived options (user_code g) (verification_uri g)) = None.

(** [onPolling], if supplied, returns normally in cycle [k]. *)
Definition polling_returns (k : nat) : Prop :=
  match onPolling options with
  | Some cb => cb_raises (cb k) = None
  | None => True
  end.

(** The [k]-th token request is answered with status 2xx or 400 and a body
    that parses to [r]: [pollForToken] returns [r]. *)
Definition answers (k : nat) (r : DeviceTokenResponse) : Prop :=
  exists response,
    token_fetch env k = inr response /\
    (ok response || (status response =? 400)) = true /\
    json response = inr r.

(** The object literal of lines 120-127. *)
Definition success_result (r : DeviceTokenResponse) : DeviceAuthResult :=
  {| success := true;
     apiKey := api_key r;
     keyPrefix := key_prefix r;
     userId := user_id r;
     res_email := email r;
     res_provider := provider r;
     res_error := None |}.

(** The object literal of lines 111-116, built at clock reading [t]. *)
Definition credentials_of (key : string) (r : DeviceTokenResponse) (t : Z)
  : SaveContextCredentials :=
  {| cred_apiKey := key;
     cred_email := email r;
     cred_provider := provider r;
     createdAt := toISOString t |}.

(** [n] cycles in a row that each passed the deadline check and ended in
    [continue]: from interval and world [s] to interval and world [s']. *)
Inductive cycles_to (g : DeviceCodeResponse) (expiresAt : Z)
  : nat -> Z * World -> Z * World -> Prop :=
| cycles_none s : cycles_to g expiresAt 0 s s
| cycles_more n i w i' w' s :
    now w < expiresAt ->
    loop_body g i w = (Ret (Continue i'), w') ->
    cycles_to g expiresAt n (i', w') s ->
    cycles_to g expiresAt (S n) (i, w) s.

(** ** Notions used in the statements *)

(** The [k]-th token request fails: [fetch] rejects, the status is neither
    2xx nor 400, or the body does not parse. *)
Definition poll_fails (k : nat) (e : Exn) : Prop :=
  token_fetch env k = inl e \/
  exists response,
    token_fetch env k = inr response /\
    (((ok response || (status response =? 400)) = false /\
      e = ErrorObj ("Failed to poll for token: " ++ text response)) \/
     ((ok response || (status response =? 400)) = true /\
      json response = inl e)).

(** Responses after which the loop goes on, with the next interval. *)
Inductive continues (r : DeviceTokenResponse) (i : Z) : Z -> Prop :=
| continues_pending :
    populated (error r) = Some "authorization_pending" -> continues r i i
| continues_slow_down :
    populated (error r) = Some "slow_down" -> continues r i (i + 5)
| continues_empty :
    populated (error r) = None -> populated (api_key r) = None ->
    continues r i i.

(** Responses that end the flow with a failure result. *)
Inductive terminates (r : DeviceTokenResponse) : DeviceAuthResult -> Prop :=
| terminates_expired :
    populated (error r) = Some "expired_token" -> terminates r expired_result
| terminates_denied :
    populated (error r) = Some "access_denied" -> terminates r denied_result
| terminates_unknown code :
    populated (error r) = Some code ->
    code <> "authorization_pending" -> code <> "slow_down" ->
    code <> "expired_token" -> code <> "access_denied" ->
    terminates r (failure ("Unknown error: " ++ code)).

(** Responses with no (truthy) [error] and a populated [api_key]. *)
Definition authorized (r : DeviceTokenResponse) (key : string) : Prop :=
  populated (error r) = None /\ populated (api_key r) = Some key.

(** [loop_run g D i w o w']: started at the loop head in world [w] with
    interval [i], the loop of lines 80-131 ends with outcome [o] in world
    [w']. *)
Inductive loop_run (g : DeviceCodeResponse) (D : Z)
  : Z -> World -> Outcome DeviceAuthResult -> World -> Prop :=
| run_out_of_fuel i w :
    loop_run g D i w OutOfFuel w
| run_deadline i w :
    D <= now w ->
    loop_run g D i w (Ret expired_result) w
| run_callback_raised i w cb e :
    now w < D ->
    onPolling options = Some cb -> cb_raises (cb (polls w)) = Some e ->
    loop_run g D i w (Throw e) (notified (waited i w))
| run_poll_failed i w e :
    now w < D ->
    polling_returns (polls w) -> poll_fails (polls w) e ->
    loop_run g D i w (Throw e) (cycled g i w)
| run_terminated i w r res :
    now w < D ->
    polling_returns (polls w) -> answers (polls w) r ->
    terminates r res ->
    loop_run g D i w (Ret res) (cycled g i w)
| run_authorized i w r key :
    now w < D ->
    polling_returns (polls w) -> answers (polls w) r ->
    authorized r key -> shouldSave = false ->
    loop_run g D i w (Ret (success_result r)) (cycled g i w)
| run_saved i w r key :
    now w < D ->
    polling_returns (polls w) -> answers (polls w) r ->
    authorized r key -> shouldSave = true -> save_raises env = None ->
    loop_run g D i w (Ret (success_result r))
      (saved (credentials_of key r (now (cycled g i w))) (cycled g i w))
| run_save_raised i w r key e :
    now w < D ->
    polling_returns (polls w) -> answers (polls w) r ->
    authorized r key -> shouldSave = true -> save_raises env = Some e ->
    loop_run g D i w (Throw e)
      (save_failed (credentials_of key r (now (cycled g i w)))
         (cycled g i w))
| run_continued i w r i' o w' :
    now w < D ->
    polling_returns (polls w) -> answers (polls w) r ->
    continues r i i' ->
    loop_run g D i' (cycled g i w) o w' ->
    loop_run g D i w o w'.

(** Is the event a token request? *)
Definition is_poll (e : Event) : bool :=
  match e with
  | EvPoll _ _ _ => true
  | _ => false
  end.

(** The [seconds] of the waits in a trace, in order. *)
Fixpoint waits (l : list Event) : list Z :=
  match l with
  | [] => []
  | EvSleep _ seconds :: l' => seconds :: waits l'
  | _ :: l' => waits l'
  end.

(** The calls of [saveCredentials] in a trace, in order. *)
Fixpoint saves (l : list Event) : list (Z * SaveContextCredentials) :=
  match l with
  | [] => []
  | EvSave t c :: l' => (t, c) :: saves l'
  | _ :: l' => saves l'
  end.

(** The calls of [onCodeReceived] in a trace, in order. *)
Fixpoint code_displays (l : list Event) : list (string * string) :=
  match l with
  | [] => []
  | EvCodeReceived u v :: l' => (u, v) :: code_displays l'
  | _ :: l' => code_displays l'
  end.

(** The events of one wait, notification and token request that begin at
    the loop head in world [w]. *)
Definition cycle_events (g : DeviceCodeResponse) (i : Z) (w : World)
  : list Event :=
  EvSleep (now w) i :: polling_events ++
  [EvPoll (now (notified (waited i w))) token_url (device_code g)].

(** The traces the loop can add when it starts with interval [i] and
    deadline [D]: cycles that each begin, before the deadline, with a wait of
    the current interval, followed by the notification and the token request;
    the interval of the next cycle is the same or 5 more; a call of
    [saveCredentials] can only come last. *)
Inductive loop_events (D : Z) : Z -> list Event -> Prop :=
| events_none i :
    loop_events D i []
| events_raised i t :
    t < D ->
    loop_events D i (EvSleep t i :: polling_events)
| events_last i t tp u d tail :
    t < D ->
    tail = [] \/ (exists ts c, tail = [EvSave ts c]) ->
    loop_events D i (EvSleep t i :: polling_events ++ EvPoll tp u d :: tail)
| events_more i i' t tp u d rest :
    t < D ->
    i' = i \/ i' = i + 5 ->
    loop_events D i' rest ->
    loop_events D i (EvSleep t i :: polling_events ++ EvPoll tp u d :: rest).

(** Sequences of waits that start at [i] and go on with the same interval or
    5 more. *)
Inductive waits_from : Z -> list Z -> Prop :=
| waits_nil i : waits_from i []
| waits_cons i i' l :
    i' = i \/ i' = i + 5 -> waits_from i' l -> waits_from i (i :: l).

(** After the one device-code request. *)
Definition code_requested (w : World) : World :=
  elapsed (code_ms env) (logged (EvCodeRequest code_url) w).

(** [expiresAt] of line 77 in a flow started in world [w] and granted [g]. *)
Definition deadline (g : DeviceCodeResponse) (w : World) : Z :=
  now (started g w) + expires_in g * 1000.

(** The time one cycle takes when the token request is answered. *)
Definition cycle_ms (k : nat) (seconds : Z) : Z :=
  sleep_ms env k seconds +
  match onPolling options with
  | Some cb => cb_ms (cb k)
  | None => 0
  end +
  token_ms env k.

(** The world after [n] answered cycles of interval [i]. *)
Fixpoint after_cycles (g : DeviceCodeResponse) (i : Z) (n : nat) (w : World)
  : World :=
  match n with
  | O => w
  | S n' => cycled g i (after_cycles g i n' w)
  end.

(** What a run did to the credential store: nothing, or one call of
    [saveCredentials], made because saving was asked for and the last token
    response was authorized.  [thrown e] is how a value thrown by
    [saveCredentials] shows in the outcome [o]. *)
Definition store_report (thrown : Exn -> Outcome DeviceAuthResult)
  (w : World) (o : Outcome DeviceAuthResult) (w' : World)
  (added : list Event) : Prop :=
  (saves added = [] /\ cred_file w' = cred_file w /\
   forall res, o = Ret res -> success res = true ->
               shouldSave = false /\
               exists key, populated (apiKey res) = Some key) \/
  (shouldSave = true /\
   exists r key t,
     saves added = [(t, credentials_of key r t)] /\
     answers (pred (polls w')) r /\ authorized r key /\
     ((save_raises env = None /\ o = Ret (success_result r) /\
       cred_file w' = Some (credentials_of key r t)) \/
      (exists e, save_raises env = Some e /\ o = thrown e /\
                 cred_file w' =
                 save_leaves env (credentials_of key r t) (cred_file w)))).

(** ** Notions used in the further properties *)






(** Is the answer to the [k]-th token request a [slow_down]? *)
Definition slowed (k : nat) : bool :=
  match token_fetch env k with
  | inr response =>
      match json response with
      | inr r =>
          match populated (error r) with
          | Some code => (code =? "slow_down")%string
          | None => false
          end
      | inl _ => false
      end
  | inl _ => false
  end.

(** The number of [slow_down] answers among the [n] token requests from the
    [p]-th on. *)
Fixpoint slow_downs (p n : nat) : nat :=
  match n with
  | O => O
  | S n' => ((if slowed p then 1 else 0) + slow_downs (S p) n')%nat
  end.


(** ** Unfolding the program *)

Lemma poll_loop_head (fuel : nat) (g : DeviceCodeResponse) (D i : Z)
  (w : World) :
  poll_loop (S fuel) g D i w =
  if now w <? D then
    match loop_body g i w with
    | (Ret (Continue i'), w') => poll_loop fuel g D i' w'
    | (Ret (Return r), w') => (Ret r, w')
    | (Throw e, w') => (Throw e, w')
    | (OutOfFuel, w') => (OutOfFuel, w')
    end
  else (Ret expired_result, w).
Proof.
  simpl. unfold bind at 1. unfold Date_now at 1.
  destruct (now w <? D); [ | reflexivity ].
  unfold bind at 1.
  destruct (loop_body g i w) as [[[i' | r] | e | ] w']; reflexivity.
Qed.

(** A cycle in which the callback returns and the token endpoint answers
    [r] hands [r] to lines 89-128 in the world [cycled g i w]. *)
Lemma loop_body_received (g : DeviceCodeResponse) (i : Z) (w : World)
  (r : DeviceTokenResponse) :
  polling_returns (polls w) -> answers (polls w) r ->
  loop_body g i w = handle r i (cycled g i w).
Proof.
  intros Hcb (response & Hfetch & Hstatus & Hjson).
  unfold polling_returns in Hcb.
  unfold cycled, requested, notified, waited, called, token_url.
  unfold loop_body, pollForToken, notify_polling, sleep, fetch,
    response_json, call, bind, ret, throw, Date_now, emit, elapse.
  destruct (onPolling options) as [cb | ]; simpl.
  - rewrite Hcb. simpl. rewrite Hfetch. rewrite Hstatus, Hjson. reflexivity.
  - rewrite Hfetch. rewrite Hstatus, Hjson. reflexivity.
Qed.

(** The flow up to the loop, when the grant is obtained. *)
Lemma flow_body_started (fuel : nat) (g : DeviceCodeResponse) (w : World) :
  grants g ->
  flow_body fuel w =
  poll_loop fuel g (now (started g w) + expires_in g * 1000) (interval g)
    (started g w).
Proof.
  intros [(response & Hfetch & Hok & Hjson) Hcb].
  unfold started, called, code_url.
  unfold flow_body, requestDeviceCode, fetch, response_json, call, bind,
    ret, throw, Date_now, emit, elapse.
  rewrite Hfetch. simpl. rewrite Hok. simpl. rewrite Hjson, Hcb. reflexivity.
Qed.

(** [n] continuing cycles use up [n] units of fuel. *)
Lemma poll_loop_cycles (g : DeviceCodeResponse) (D : Z) (n : nat)
  (s s' : Z * World) :
  cycles_to g D n s s' ->
  forall fuel,
    poll_loop (n + fuel) g D (fst s) (snd s) =
    poll_loop fuel g D (fst s') (snd s').
Proof.
  induction 1 as [s | n i w i' w' s Hnow Hbody _ IH]; intros fuel.
  - reflexivity.
  - change (S n + fuel)%nat with (S (n + fuel)).
    rewrite poll_loop_head. simpl fst. simpl snd.
    apply Z.ltb_lt in Hnow. rewrite Hnow, Hbody. apply IH.
Qed.

(** A result returned by the [try] block is the result of the flow. *)
Lemma executeDeviceFlow_returns (fuel : nat) (w w' : World)
  (r : DeviceAuthResult) :
  flow_body fuel w = (Ret r, w') ->
  executeDeviceFlow fuel w = (Ret r, w').
Proof.
  intros H. unfold executeDeviceFlow, try_catch. rewrite H. reflexivity.
Qed.

(** A value thrown in the [try] block becomes a failure result. *)
Lemma executeDeviceFlow_catches (fuel : nat) (w w' : World) (e : Exn) :
  flow_body fuel w = (Throw e, w') ->
  executeDeviceFlow fuel w = (Ret (failure (message_of e)), w').
Proof.
  intros H. unfold executeDeviceFlow, try_catch. rewrite H. reflexivity.
Qed.

(** ** The cases of a cycle *)

Lemma handle_continues (r : DeviceTokenResponse) (i i' : Z) (w : World) :
  continues r i i' -> handle r i w = (Ret (Continue i'), w).
Proof.
  intros [H | H | H1 H2]; unfold handle; rewrite ?H, ?H1, ?H2; reflexivity.
Qed.

Lemma handle_terminates (r : DeviceTokenResponse) (i : Z) (w : World)
  (res : DeviceAuthResult) :
  terminates r res -> handle r i w = (Ret (Return res), w).
Proof.
  intros [H | H | code H N1 N2 N3 N4]; unfold handle; rewrite H;
    try reflexivity.
  apply String.eqb_neq in N1, N2, N3, N4.
  rewrite N1, N2, N3, N4. reflexivity.
Qed.

Lemma handle_authorized (r : DeviceTokenResponse) (key : string) (i : Z)
  (w : World) :
  authorized r key ->
  handle r i w =
  if shouldSave then
    match save_raises env with
    | Some e => (Throw e, save_failed (credentials_of key r (now w)) w)
    | None =>
        (Ret (Return (success_result r)),
         saved (credentials_of key r (now w)) w)
    end
  else (Ret (Return (success_result r)), w).
Proof.
  intros [H1 H2]. unfold handle. rewrite H1, H2.
  unfold saved, save_failed, saving, credentials_of, success_result.
  unfold saveCredentials, bind, ret, throw, Date_now, emit, elapse.
  destruct shouldSave; [ | reflexivity ].
  simpl. destruct (save_raises env); reflexivity.
Qed.

(** Every response continues, terminates or authorizes. *)
Lemma response_cases (r : DeviceTokenResponse) (i : Z) :
  (exists i', continues r i i') \/
  (exists res, terminates r res) \/
  (exists key, authorized r key).
Proof.
  destruct (populated (error r)) as [code | ] eqn:He.
  - destruct (String.eqb_spec code "authorization_pending") as [-> | N1].
    { left. exists i. now apply continues_pending. }
    destruct (String.eqb_spec code "slow_down") as [-> | N2].
    { left. exists (i + 5). now apply continues_slow_down. }
    destruct (String.eqb_spec code "expired_token") as [-> | N3].
    { right. left. eexists. now apply terminates_expired. }
    destruct (String.eqb_spec code "access_denied") as [-> | N4].
    { right. left. eexists. now apply terminates_denied. }
    right. left. eexists. now apply (terminates_unknown r code).
  - destruct (populated (api_key r)) as [key | ] eqn:Hk.
    + right. right. exists key. now split.
    + left. exists i. now apply continues_empty.
Qed.

Lemma loop_body_callback_raised (g : DeviceCodeResponse) (i : Z) (w : World)
  (cb : nat -> CbRun) (e : Exn) :
  onPolling options = Some cb -> cb_raises (cb (polls w)) = Some e ->
  loop_body g i w = (Throw e, notified (waited i w)).
Proof.
  intros Hcb He. unfold notified, waited, called.
  unfold loop_body, notify_polling, sleep, call, bind, ret, Date_now, emit.
  rewrite Hcb. simpl. rewrite He. reflexivity.
Qed.

Lemma loop_body_poll_failed (g : DeviceCodeResponse) (i : Z) (w : World)
  (e : Exn) :
  polling_returns (polls w) -> poll_fails (polls w) e ->
  loop_body g i w = (Throw e, cycled g i w).
Proof.
  intros Hcb Hfail. unfold polling_returns in Hcb.
  unfold cycled, requested, notified, waited, called, token_url.
  unfold loop_body, pollForToken, notify_polling, sleep, fetch,
    response_json, call, bind, ret, throw, Date_now, emit, elapse.
  destruct (onPolling options) as [cb | ]; simpl; rewrite ?Hcb; simpl;
    destruct Hfail as [-> | (response & -> & [[-> ->] | [-> ->]])];
    reflexivity.
Qed.

(** What the outside does in a cycle: the callback raises, the token request
    fails, or a response arrives. *)
Lemma cycle_cases (k : nat) :
  (exists cb e, onPolling options = Some cb /\ cb_raises (cb k) = Some e) \/
  (polling_returns k /\
   ((exists e, poll_fails k e) \/ (exists r, answers k r))).
Proof.
  assert (Hpoll : (exists e, poll_fails k e) \/ (exists r, answers k r)).
  { unfold poll_fails, answers.
    destruct (token_fetch env k) as [e | response] eqn:Hf.
    - left. exists e. now left.
    - destruct (ok response || (status response =? 400)) eqn:Hs.
      + destruct (json response) as [e | r] eqn:Hj.
        * left. exists e. right. exists response. split; [ reflexivity | ].
          right. now split.
        * right. exists r, response. now repeat split.
      + left. eexists. right. exists response. split; [ reflexivity | ].
        left. split; [ exact Hs | reflexivity ]. }
  unfold polling_returns.
  destruct (onPolling options) as [cb | ] eqn:Hcb.
  - destruct (cb_raises (cb k)) as [e | ] eqn:He.
    + left. now exists cb, e.
    + right. now split.
  - right. now split.
Qed.

(** ** The runs of the loop, as a relation *)

(** Every run of [poll_loop] is one of these. *)
Lemma poll_loop_run (g : DeviceCodeResponse) (D : Z) (fuel : nat) :
  forall (i : Z) (w : World),
    loop_run g D i w (fst (poll_loop fuel g D i w))
                     (snd (poll_loop fuel g D i w)).
Proof.
  induction fuel as [ | fuel IH]; intros i w.
  - apply run_out_of_fuel.
  - rewrite poll_loop_head.
    destruct (Z.ltb_spec (now w) D) as [Hlt | Hge];
      [ | now apply run_deadline ].
    destruct (cycle_cases (polls w))
      as [(cb & e & Hcb & He) | [Hret [[e Hfail] | [r Hans]]]].
    + rewrite (loop_body_callback_raised g i w cb e Hcb He).
      now apply (run_callback_raised g D i w cb e).
    + rewrite (loop_body_poll_failed g i w e Hret Hfail).
      now apply run_poll_failed.
    + rewrite (loop_body_received g i w r Hret Hans).
      destruct (response_cases r i)
        as [[i' Hc] | [[res Ht] | [key Ha]]].
      * rewrite (handle_continues r i i' _ Hc).
        now apply (run_continued g D i w r i').
      * rewrite (handle_terminates r i _ res Ht).
        now apply (run_terminated g D i w r res).
      * rewrite (handle_authorized r key i _ Ha).
        destruct shouldSave eqn:Hs.
        -- destruct (save_raises env) as [e | ] eqn:Hr.
           ++ now apply (run_save_raised g D i w r key e).
           ++ now apply (run_saved g D i w r key).
        -- now apply (run_authorized g D i w r key).
Qed.

(** ** What a cycle adds to the trace *)

Lemma trace_notified (w : World) :
  trace (notified w) = trace w ++ polling_events.
Proof.
  unfold notified, polling_events.
  destruct (onPolling options); simpl; [ reflexivity | ].
  now rewrite app_nil_r.
Qed.

Lemma trace_waited_notified (i : Z) (w : World) :
  trace (notified (waited i w)) =
  trace w ++ EvSleep (now w) i :: polling_events.
Proof.
  rewrite trace_notified. simpl. now rewrite <- app_assoc.
Qed.

Lemma trace_cycled (g : DeviceCodeResponse) (i : Z) (w : World) :
  trace (cycled g i w) = trace w ++ cycle_events g i w.
Proof.
  unfold cycled, cycle_events. simpl.
  rewrite trace_waited_notified. rewrite <- app_assoc. reflexivity.
Qed.

Lemma polls_notified (w : World) : polls (notified w) = polls w.
Proof. unfold notified. now destruct (onPolling options). Qed.

Lemma polls_cycled (g : DeviceCodeResponse) (i : Z) (w : World) :
  polls (cycled g i w) = S (polls w).
Proof. unfold cycled. simpl. now rewrite polls_notified. Qed.

Lemma cred_file_notified (w : World) : cred_file (notified w) = cred_file w.
Proof. unfold notified. now destruct (onPolling options). Qed.

Lemma cred_file_cycled (g : DeviceCodeResponse) (i : Z) (w : World) :
  cred_file (cycled g i w) = cred_file w.
Proof. unfold cycled. simpl. now rewrite cred_file_notified. Qed.

Lemma cred_file_after_cycles (g : DeviceCodeResponse) (i : Z) (n : nat)
  (w : World) :
  cred_file (after_cycles g i n (started g w)) = cred_file w.
Proof.
  induction n as [ | n IH]; [ reflexivity | ].
  cbn [after_cycles]. now rewrite cred_file_cycled.
Qed.

Lemma waits_app (l1 l2 : list Event) : waits (l1 ++ l2) = waits l1 ++ waits l2.
Proof.
  induction l1 as [ | [ | | | | | ] l1 IH]; simpl; now rewrite ?IH.
Qed.

Lemma saves_app (l1 l2 : list Event) : saves (l1 ++ l2) = saves l1 ++ saves l2.
Proof.
  induction l1 as [ | [ | | | | | ] l1 IH]; simpl; now rewrite ?IH.
Qed.

Lemma code_displays_app (l1 l2 : list Event) :
  code_displays (l1 ++ l2) = code_displays l1 ++ code_displays l2.
Proof.
  induction l1 as [ | [ | | | | | ] l1 IH]; simpl; now rewrite ?IH.
Qed.


Lemma waits_cycle (g : DeviceCodeResponse) (i : Z) (w : World) :
  waits (cycle_events g i w) = [i].
Proof.
  unfold cycle_events, polling_events. now destruct (onPolling options).
Qed.

Lemma saves_cycle (g : DeviceCodeResponse) (i : Z) (w : World) :
  saves (cycle_events g i w) = [].
Proof.
  unfold cycle_events, polling_events. now destruct (onPolling options).
Qed.

Lemma code_displays_cycle (g : DeviceCodeResponse) (i : Z) (w : World) :
  code_displays (cycle_events g i w) = [].
Proof.
  unfold cycle_events, polling_events. now destruct (onPolling options).
Qed.

Lemma polling_events_no_poll :
  forallb (fun e => negb (is_poll e)) polling_events = true.
Proof. unfold polling_events. now destruct (onPolling options). Qed.

(** Where a token request can sit in [l1 ++ a :: l2] when [l1] has none. *)
Lemma split_at_poll (l1 l2 pre post : list Event) (a b : Event) :
  forallb (fun e => negb (is_poll e)) l1 = true -> is_poll b = true ->
  l1 ++ a :: l2 = pre ++ b :: post ->
  (pre = l1 /\ a = b /\ l2 = post) \/
  (exists pre2, pre = l1 ++ a :: pre2 /\ l2 = pre2 ++ b :: post).
Proof.
  revert pre. induction l1 as [ | x l1 IH]; intros pre Hno Hb Heq.
  - destruct pre as [ | p pre]; simpl in Heq; injection Heq as -> Heq.
    + left. now repeat split.
    + right. now exists pre.
  - simpl in Hno. apply andb_prop in Hno as [Hx Hno].
    destruct pre as [ | p pre]; simpl in Heq; injection Heq as -> Heq.
    + rewrite Hb in Hx. discriminate Hx.
    + destruct (IH pre Hno Hb Heq) as [(-> & -> & ->) | (pre2 & -> & ->)].
      * left. now repeat split.
      * right. now exists pre2.
Qed.

(** ** The shape of the loop's trace *)

Lemma cycle_events_then (g : DeviceCodeResponse) (i : Z) (w : World)
  (rest : list Event) :
  cycle_events g i w ++ rest =
  EvSleep (now w) i :: polling_events ++
  EvPoll (now (notified (waited i w))) token_url (device_code g) :: rest.
Proof.
  unfold cycle_events. simpl. now rewrite <- app_assoc.
Qed.

Lemma trace_saving (c : SaveContextCredentials) (w : World) :
  trace (saving c w) = trace w ++ [EvSave (now w) c].
Proof. reflexivity. Qed.

Lemma trace_saved (c : SaveContextCredentials) (w : World) :
  trace (saved c w) = trace w ++ [EvSave (now w) c].
Proof. reflexivity. Qed.

Lemma trace_save_failed (c : SaveContextCredentials) (w : World) :
  trace (save_failed c w) = trace w ++ [EvSave (now w) c].
Proof. reflexivity. Qed.

Lemma continues_step (r : DeviceTokenResponse) (i i' : Z) :
  continues r i i' -> i' = i \/ i' = i + 5.
Proof. intros [ | | ]; auto. Qed.

Lemma loop_run_events (g : DeviceCodeResponse) (D i : Z) (w w' : World)
  (o : Outcome DeviceAuthResult) :
  loop_run g D i w o w' ->
  exists added, trace w' = trace w ++ added /\ loop_events D i added.
Proof.
  induction 1 as
    [ i w | i w _ | i w cb e Hlt _ _ | i w e Hlt _ _ | i w r res Hlt _ _ _
    | i w r key Hlt _ _ _ _ | i w r key Hlt _ _ _ _ _
    | i w r key e Hlt _ _ _ _ _ | i w r i' o w' Hlt _ _ Hc _ IH ].
  - exists []. split; [ now rewrite app_nil_r | constructor ].
  - exists []. split; [ now rewrite app_nil_r | constructor ].
  - exists (EvSleep (now w) i :: polling_events).
    split; [ apply trace_waited_notified | now constructor ].
  - exists (cycle_events g i w ++ []). rewrite app_nil_r at 1.
    split; [ apply trace_cycled | ].
    rewrite cycle_events_then. apply events_last; auto.
  - exists (cycle_events g i w ++ []). rewrite app_nil_r at 1.
    split; [ apply trace_cycled | ].
    rewrite cycle_events_then. apply events_last; auto.
  - exists (cycle_events g i w ++ []). rewrite app_nil_r at 1.
    split; [ apply trace_cycled | ].
    rewrite cycle_events_then. apply events_last; auto.
  - eexists (cycle_events g i w ++ [EvSave _ _]).
    split; [ rewrite trace_saved, trace_cycled; now rewrite <- app_assoc | ].
    rewrite cycle_events_then. apply events_last; eauto.
  - eexists (cycle_events g i w ++ [EvSave _ _]).
    split; [ rewrite trace_save_failed, trace_cycled; now rewrite <- app_assoc | ].
    rewrite cycle_events_then. apply events_last; eauto.
  - destruct IH as (added & Htr & Hev).
    exists (cycle_events g i w ++ added).
    split; [ rewrite Htr, trace_cycled; now rewrite <- app_assoc | ].
    rewrite cycle_events_then.
    apply (events_more D i i'); auto. now apply (continues_step r).
Qed.

Lemma no_poll_no_split (l pre post : list Event) (b : Event) :
  forallb (fun e => negb (is_poll e)) l = true -> is_poll b = true ->
  l <> pre ++ b :: post.
Proof.
  intros Hno Hb ->. rewrite forallb_forall in Hno.
  specialize (Hno b (in_elt b pre post)). rewrite Hb in Hno. discriminate.
Qed.

Lemma wait_and_notification_no_poll (t i : Z) :
  forallb (fun e => negb (is_poll e)) (EvSleep t i :: polling_events) = true.
Proof. simpl. apply polling_events_no_poll. Qed.

(** Every token request comes right after a wait that began before the
    deadline and the notification. *)
Lemma loop_events_polls (D i : Z) (l : list Event) :
  loop_events D i l ->
  forall pre tp u d post,
    l = pre ++ EvPoll tp u d :: post ->
    exists pre' t s, pre = pre' ++ EvSleep t s :: polling_events /\ t < D.
Proof.
  induction 1 as [ i | i t Hlt | i t tp0 u0 d0 tail Hlt Htail
                 | i i' t tp0 u0 d0 rest Hlt Hi _ IH ];
    intros pre tp u d post Heq.
  - now destruct pre.
  - exfalso. revert Heq. apply no_poll_no_split; [ | reflexivity ].
    apply wait_and_notification_no_poll.
  - change (EvSleep t i :: polling_events ++ EvPoll tp0 u0 d0 :: tail)
      with ((EvSleep t i :: polling_events) ++ EvPoll tp0 u0 d0 :: tail)
      in Heq.
    apply split_at_poll in Heq;
      [ | apply wait_and_notification_no_poll | reflexivity ].
    destruct Heq as [(-> & _ & _) | (pre2 & _ & Ht)].
    + now exists [], t, i.
    + exfalso. destruct Htail as [-> | (ts & c & ->)].
      * now destruct pre2.
      * destruct pre2 as [ | p [ | q pre2]]; discriminate Ht.
  - change (EvSleep t i :: polling_events ++ EvPoll tp0 u0 d0 :: rest)
      with ((EvSleep t i :: polling_events) ++ EvPoll tp0 u0 d0 :: rest)
      in Heq.
    apply split_at_poll in Heq;
      [ | apply wait_and_notification_no_poll | reflexivity ].
    destruct Heq as [(-> & _ & _) | (pre2 & -> & Hr)].
    + now exists [], t, i.
    + destruct (IH _ _ _ _ _ Hr) as (pre' & t' & s & -> & Hlt').
      exists ((EvSleep t i :: polling_events) ++ EvPoll tp0 u0 d0 :: pre'),
        t', s.
      split; [ | exact Hlt' ].
      rewrite <- app_assoc. reflexivity.
Qed.

Lemma polling_events_no_sleep (t s : Z) : ~ In (EvSleep t s) polling_events.
Proof.
  unfold polling_events. destruct (onPolling options); simpl;
    intros H; [ destruct H as [H | H]; [ discriminate H | exact H ] | exact H ].
Qed.

(** Every wait begins before the deadline. *)
Lemma loop_events_sleeps (D i : Z) (l : list Event) :
  loop_events D i l ->
  forall t s, In (EvSleep t s) l -> t < D.
Proof.
  induction 1 as [ i | i t Hlt | i t tp0 u0 d0 tail Hlt Htail
                 | i i' t tp0 u0 d0 rest Hlt Hi _ IH ];
    intros t' s' Hin.
  - destruct Hin.
  - destruct Hin as [[= <- <-] | Hin]; [ exact Hlt | ].
    now apply polling_events_no_sleep in Hin.
  - destruct Hin as [[= <- <-] | Hin]; [ exact Hlt | ].
    apply in_app_or in Hin. destruct Hin as [Hin | [Hin | Hin]].
    + now apply polling_events_no_sleep in Hin.
    + discriminate Hin.
    + destruct Htail as [-> | (ts & c & ->)]; [ destruct Hin | ].
      destruct Hin as [Hin | []]. discriminate Hin.
  - destruct Hin as [[= <- <-] | Hin]; [ exact Hlt | ].
    apply in_app_or in Hin. destruct Hin as [Hin | [Hin | Hin]].
    + now apply polling_events_no_sleep in Hin.
    + discriminate Hin.
    + now apply (IH t' s').
Qed.


Lemma waits_polling_events (l : list Event) :
  waits (polling_events ++ l) = waits l.
Proof. unfold polling_events. now destruct (onPolling options). Qed.

Lemma loop_events_waits (D i : Z) (l : list Event) :
  loop_events D i l -> waits_from i (waits l).
Proof.
  induction 1 as [ i | i t Hlt | i t tp0 u0 d0 tail Hlt Htail
                 | i i' t tp0 u0 d0 rest Hlt Hi _ IH ]; simpl.
  - constructor.
  - rewrite <- (app_nil_r polling_events), waits_polling_events. simpl.
    apply (waits_cons i i); [ now left | constructor ].
  - rewrite waits_polling_events. simpl.
    apply (waits_cons i i); [ now left | ].
    destruct Htail as [-> | (ts & c & ->)]; constructor.
  - rewrite waits_polling_events. simpl.
    now apply (waits_cons i i').
Qed.

Lemma waits_from_ge (i : Z) (l : list Z) :
  waits_from i l -> forall s, In s l -> i <= s.
Proof.
  induction 1 as [ i | i i' l Hi _ IH ]; intros s Hin; [ easy | ].
  destruct Hin as [<- | Hin]; [ lia | ].
  specialize (IH s Hin). lia.
Qed.

Lemma waits_from_adjacent (i : Z) (l : list Z) :
  waits_from i l ->
  forall l1 a b l2, l = l1 ++ a :: b :: l2 -> b = a \/ b = a + 5.
Proof.
  induction 1 as [ i | i i' l Hi Hl IH ]; intros l1 a b l2 Heq.
  - now destruct l1.
  - destruct l1 as [ | x l1]; simpl in Heq; injection Heq as -> Heq.
    + subst l. inversion Hl; subst. exact Hi.
    + now apply (IH l1 a b l2).
Qed.

Lemma saves_polling_events (l : list Event) :
  saves (polling_events ++ l) = saves l.
Proof. unfold polling_events. now destruct (onPolling options). Qed.



(** ** The flow around the loop *)

Lemma requestDeviceCode_fails (w : World) (e : Exn) :
  code_fails e -> requestDeviceCode w = (Throw e, code_requested w).
Proof.
  unfold code_requested, code_url.
  unfold requestDeviceCode, fetch, response_json, bind, ret, throw, emit,
    elapse.
  intros [-> | (response & -> & [[Hok ->] | [Hok Hj]])]; simpl;
    rewrite ?Hok, ?Hj; reflexivity.
Qed.

Lemma requestDeviceCode_granted (w : World) (g : DeviceCodeResponse) :
  code_granted g -> requestDeviceCode w = (Ret g, code_requested w).
Proof.
  unfold code_requested, code_url.
  unfold requestDeviceCode, fetch, response_json, bind, ret, throw, emit,
    elapse.
  intros (response & -> & Hok & Hj); simpl. rewrite Hok, Hj. reflexivity.
Qed.

Lemma code_cases : (exists e, code_fails e) \/ (exists g, code_granted g).
Proof.
  unfold code_fails, code_granted.
  destruct (code_fetch env) as [e | response] eqn:Hf.
  - left. exists e. now left.
  - destruct (ok response) eqn:Hok.
    + destruct (json response) as [e | g] eqn:Hj.
      * left. exists e. right. exists response. split; [ reflexivity | ].
        right. now split.
      * right. exists g, response. now repeat split.
    + left. eexists. right. exists response. split; [ reflexivity | ].
      left. split; [ exact Hok | reflexivity ].
Qed.

Lemma flow_body_code_fails (fuel : nat) (w : World) (e : Exn) :
  code_fails e -> flow_body fuel w = (Throw e, code_requested w).
Proof.
  intros H. unfold flow_body, bind at 1.
  now rewrite (requestDeviceCode_fails w e H).
Qed.

Lemma flow_body_display_raised (fuel : nat) (w : World)
  (g : DeviceCodeResponse) (e : Exn) :
  code_granted g ->
  cb_raises (onCodeReceived options (user_code g) (verification_uri g))
  = Some e ->
  flow_body fuel w = (Throw e, started g w).
Proof.
  intros H He. unfold flow_body, bind at 1.
  rewrite (requestDeviceCode_granted w g H).
  unfold started, called, code_requested, call, bind, emit.
  simpl. rewrite He. reflexivity.
Qed.

Lemma trace_started (g : DeviceCodeResponse) (w : World) :
  trace (started g w) =
  trace w ++ [EvCodeRequest code_url;
              EvCodeReceived (user_code g) (verification_uri g)].
Proof. unfold started. simpl. now rewrite <- app_assoc. Qed.

Lemma executeDeviceFlow_world (fuel : nat) (w : World) :
  snd (executeDeviceFlow fuel w) = snd (flow_body fuel w).
Proof.
  unfold executeDeviceFlow, try_catch.
  now destruct (flow_body fuel w) as [[r | e | ] w'].
Qed.

Lemma executeDeviceFlow_outcome (fuel : nat) (w : World) :
  fst (executeDeviceFlow fuel w) =
  match fst (flow_body fuel w) with
  | Throw e => Ret (failure (message_of e))
  | o => o
  end.
Proof.
  unfold executeDeviceFlow, try_catch.
  now destruct (flow_body fuel w) as [[r | e | ] w'].
Qed.

(** The trace of a flow whose code request is granted: the request, the
    display of the code, then what the loop adds. *)
Lemma flow_events (fuel : nat) (w : World) (g : DeviceCodeResponse) :
  code_granted g ->
  exists added,
    trace (snd (executeDeviceFlow fuel w)) =
    trace w ++ EvCodeRequest code_url ::
      EvCodeReceived (user_code g) (verification_uri g) :: added /\
    loop_events (now (started g w) + expires_in g * 1000) (interval g) added.
Proof.
  intros Hg. rewrite executeDeviceFlow_world.
  destruct (cb_raises (onCodeReceived options (user_code g)
                         (verification_uri g))) as [e | ] eqn:He.
  - rewrite (flow_body_display_raised fuel w g e Hg He).
    exists []. split; [ apply trace_started | constructor ].
  - rewrite (flow_body_started fuel g w (conj Hg He)).
    destruct (loop_run_events _ _ _ _ _ _
                (poll_loop_run g (now (started g w) + expires_in g * 1000)
                   fuel (interval g) (started g w)))
      as (added & Htr & Hev).
    exists added. split; [ | exact Hev ].
    rewrite Htr, trace_started, <- app_assoc. reflexivity.
Qed.

(** A cycle that begins before the deadline and whose callback returns adds
    its wait, notification and token request to the trace. *)
Lemma poll_loop_first_cycle (fuel : nat) (g : DeviceCodeResponse) (D i : Z)
  (w : World) :
  now w < D -> polling_returns (polls w) ->
  exists rest,
    trace (snd (poll_loop (S fuel) g D i w)) =
    trace w ++ cycle_events g i w ++ rest.
Proof.
  intros Hlt Hret. rewrite poll_loop_head.
  apply Z.ltb_lt in Hlt. rewrite Hlt.
  destruct (cycle_cases (polls w))
    as [(cb & e & Hcb & He) | [_ [[e Hfail] | [r Hans]]]].
  - unfold polling_returns in Hret. rewrite Hcb, He in Hret. discriminate.
  - rewrite (loop_body_poll_failed g i w e Hret Hfail).
    exists []. simpl snd. now rewrite trace_cycled, app_nil_r.
  - rewrite (loop_body_received g i w r Hret Hans).
    destruct (response_cases r i) as [[i' Hc] | [[res Ht] | [key Ha]]].
    + rewrite (handle_continues r i i' _ Hc).
      destruct (loop_run_events _ _ _ _ _ _
                  (poll_loop_run g D fuel i' (cycled g i w)))
        as (added & Htr & _).
      exists added. now rewrite Htr, trace_cycled, <- app_assoc.
    + rewrite (handle_terminates r i _ res Ht).
      exists []. simpl snd. now rewrite trace_cycled, app_nil_r.
    + rewrite (handle_authorized r key i _ Ha).
      destruct shouldSave; [ destruct (save_raises env) | ].
      * eexists [_]. simpl snd.
        now rewrite trace_save_failed, trace_cycled, <- app_assoc.
      * eexists [_]. simpl snd.
        now rewrite trace_saved, trace_cycled, <- app_assoc.
      * exists []. simpl snd. now rewrite trace_cycled, app_nil_r.
Qed.

(** The flow reaches, after [n] continuing cycles, the loop head in world
    [wk] with interval [i]. *)
Lemma flow_body_cycles (fuel n : nat) (w wk : World)
  (g : DeviceCodeResponse) (i : Z) :
  grants g ->
  cycles_to g (now (started g w) + expires_in g * 1000) n
    (interval g, started g w) (i, wk) ->
  flow_body (n + fuel) w =
  poll_loop fuel g (now (started g w) + expires_in g * 1000) i wk.
Proof.
  intros Hg Hc. rewrite (flow_body_started _ g w Hg).
  apply (poll_loop_cycles _ _ _ _ _ Hc fuel).
Qed.

Lemma cycles_to_snoc (g : DeviceCodeResponse) (D : Z) (n : nat)
  (s : Z * World) (i i' : Z) (w w' : World) :
  cycles_to g D n s (i, w) ->
  now w < D -> loop_body g i w = (Ret (Continue i'), w') ->
  cycles_to g D (S n) s (i', w').
Proof.
  intros H. remember (i, w) as s' eqn:Hs'. revert i w Hs'.
  induction H as [s | n j v j' v' s Hlt Hbody _ IH]; intros i w -> Hnow Hb.
  - apply (cycles_more g D 0 i w i' w'); auto. constructor.
  - apply (cycles_more g D (S n) j v j' v'); auto.
    now apply (IH i w).
Qed.

(** A cycle that begins before the deadline starts with a wait of the
    current interval. *)
Lemma poll_loop_first_wait (fuel : nat) (g : DeviceCodeResponse) (D i : Z)
  (w : World) :
  now w < D ->
  exists rest,
    trace (snd (poll_loop (S fuel) g D i w)) =
    trace w ++ EvSleep (now w) i :: rest.
Proof.
  intros Hlt.
  destruct (cycle_cases (polls w)) as [(cb & e & Hcb & He) | [Hret _]].
  - rewrite poll_loop_head. apply Z.ltb_lt in Hlt. rewrite Hlt.
    rewrite (loop_body_callback_raised g i w cb e Hcb He).
    exists polling_events. apply trace_waited_notified.
  - destruct (poll_loop_first_cycle fuel g D i w Hlt Hret) as (rest & Htr).
    rewrite Htr, cycle_events_then. eauto.
Qed.

Lemma now_cycled (g : DeviceCodeResponse) (i : Z) (w : World) :
  now (cycled g i w) = now w + cycle_ms (polls w) i.
Proof.
  unfold cycled, requested, notified, waited, called, cycle_ms.
  destruct (onPolling options); simpl; lia.
Qed.

(** When every response lets the loop go on and every cycle takes time, the
    loop head is reached with the deadline passed. *)
Lemma loop_reaches_deadline (g : DeviceCodeResponse) (D : Z) :
  (forall k, polling_returns k) ->
  (forall k, exists r, answers k r /\ forall i, exists i', continues r i i') ->
  (forall k s, 0 < cycle_ms k s) ->
  forall (m : nat) (i : Z) (w : World),
    D - now w <= Z.of_nat m ->
    exists n i' w', cycles_to g D n (i, w) (i', w') /\ D <= now w'.
Proof.
  intros Hret Hans Hms.
  induction m as [ | m IH]; intros i w Hm.
  - exists 0%nat, i, w. split; [ constructor | lia ].
  - destruct (Z_lt_le_dec (now w) D) as [Hlt | Hge].
    + destruct (Hans (polls w)) as (r & Hr & Hcont).
      destruct (Hcont i) as (i1 & Hc).
      assert (Hbody : loop_body g i w = (Ret (Continue i1), cycled g i w)).
      { rewrite (loop_body_received g i w r (Hret _) Hr).
        now apply handle_continues. }
      destruct (IH i1 (cycled g i w)) as (n & i' & w' & Hcyc & Hw').
      { rewrite now_cycled. specialize (Hms (polls w) i). lia. }
      exists (S n), i', w'. split; [ | exact Hw' ].
      now apply (cycles_more g D n i w i1 (cycled g i w)).
    + exists 0%nat, i, w. split; [ constructor | exact Hge ].
Qed.

(** A cycle that ends in [continue] leaves the interval or adds 5. *)
Lemma loop_body_continue (g : DeviceCodeResponse) (i i' : Z) (w w' : World) :
  loop_body g i w = (Ret (Continue i'), w') -> i' = i \/ i' = i + 5.
Proof.
  intros H.
  destruct (cycle_cases (polls w))
    as [(cb & e & Hcb & He) | [Hret [[e Hfail] | [r Hans]]]].
  - rewrite (loop_body_callback_raised g i w cb e Hcb He) in H.
    discriminate H.
  - rewrite (loop_body_poll_failed g i w e Hret Hfail) in H. discriminate H.
  - rewrite (loop_body_received g i w r Hret Hans) in H.
    destruct (response_cases r i) as [[j Hc] | [[res Ht] | [key Ha]]].
    + rewrite (handle_continues r i j _ Hc) in H. injection H as <- _.
      now apply (continues_step r).
    + rewrite (handle_terminates r i _ res Ht) in H. discriminate H.
    + rewrite (handle_authorized r key i _ Ha) in H.
      destruct shouldSave; [ destruct (save_raises env) | ]; discriminate H.
Qed.

Lemma cycles_to_interval (g : DeviceCodeResponse) (D : Z) (n : nat)
  (s s' : Z * World) :
  cycles_to g D n s s' -> fst s <= fst s'.
Proof.
  induction 1 as [s | n i w i' w' s _ Hbody _ IH]; simpl in *; [ lia | ].
  apply loop_body_continue in Hbody. lia.
Qed.

(** When every answered cycle takes time, the loop ends within as many
    iterations as there are milliseconds to the deadline, and one more. *)
Lemma poll_loop_terminates (g : DeviceCodeResponse) (D : Z) :
  (forall k s, 0 < cycle_ms k s) ->
  forall (m fuel : nat) (i : Z) (w : World),
    D - now w <= Z.of_nat m -> (m < fuel)%nat ->
    fst (poll_loop fuel g D i w) <> OutOfFuel.
Proof.
  intros Hms. induction m as [ | m IH]; intros fuel i w Hm Hf;
    (destruct fuel as [ | fuel]; [ lia | ]); rewrite poll_loop_head.
  - destruct (Z.ltb_spec (now w) D); [ lia | discriminate ].
  - destruct (Z.ltb_spec (now w) D) as [Hlt | Hge]; [ | discriminate ].
    destruct (cycle_cases (polls w))
      as [(cb & e & Hcb & He) | [Hret [[e Hfail] | [r Hans]]]].
    + rewrite (loop_body_callback_raised g i w cb e Hcb He). discriminate.
    + rewrite (loop_body_poll_failed g i w e Hret Hfail). discriminate.
    + rewrite (loop_body_received g i w r Hret Hans).
      destruct (response_cases r i) as [[j Hc] | [[res Ht] | [key Ha]]].
      * rewrite (handle_continues r i j _ Hc). apply IH; [ | lia ].
        rewrite now_cycled. specialize (Hms (polls w) i). lia.
      * rewrite (handle_terminates r i _ res Ht). discriminate.
      * rewrite (handle_authorized r key i _ Ha).
        destruct shouldSave; [ destruct (save_raises env) | ]; discriminate.
Qed.

(** With enough fuel the flow returns a result. *)
Lemma executeDeviceFlow_terminates (w : World) :
  (forall k s, 0 < cycle_ms k s) ->
  exists enough,
    forall fuel, (enough <= fuel)%nat ->
      exists r w', executeDeviceFlow fuel w = (Ret r, w').
Proof.
  intros Hms.
  destruct code_cases as [[e He] | [g Hg]].
  { exists 0%nat. intros fuel _.
    exists (failure (message_of e)), (code_requested w).
    apply executeDeviceFlow_catches. now apply flow_body_code_fails. }
  destruct (cb_raises (onCodeReceived options (user_code g)
                         (verification_uri g))) as [e | ] eqn:He.
  { exists 0%nat. intros fuel _.
    exists (failure (message_of e)), (started g w).
    apply executeDeviceFlow_catches. now apply flow_body_display_raised. }
  exists (S (Z.to_nat (deadline g w - now (started g w)))).
  intros fuel Hf.
  pose proof (poll_loop_terminates g (deadline g w) Hms
                (Z.to_nat (deadline g w - now (started g w))) fuel
                (interval g) (started g w)) as Hne.
  unfold executeDeviceFlow, try_catch.
  rewrite (flow_body_started fuel g w (conj Hg He)).
  unfold deadline in *.
  destruct (poll_loop fuel g _ (interval g) (started g w))
    as [[r | e | ] w'].
  - now exists r, w'.
  - eexists _, _. reflexivity.
  - exfalso. apply Hne; [ lia | lia | reflexivity ].
Qed.

Lemma polls_after_cycles (g : DeviceCodeResponse) (i : Z) (n : nat)
  (w : World) :
  polls (after_cycles g i n w) = (polls w + n)%nat.
Proof.
  induction n as [ | n IH]; cbn [after_cycles]; [ lia | ].
  rewrite polls_cycled, IH. lia.
Qed.

(** [n] [authorization_pending] responses, each in a cycle that began before
    the deadline, are [n] continuing cycles with the interval unchanged. *)
Lemma pending_cycles (g : DeviceCodeResponse) (D i : Z) (w : World) (n : nat) :
  (forall k, (k < n)%nat ->
     polling_returns (polls w + k) /\
     exists p, answers (polls w + k) p /\
               populated (error p) = Some "authorization_pending") ->
  (forall k, (k < n)%nat -> now (after_cycles g i k w) < D) ->
  cycles_to g D n (i, w) (i, after_cycles g i n w).
Proof.
  induction n as [ | n IH]; intros Hp Hlt.
  - constructor.
  - apply (cycles_to_snoc g D n (i, w) i i (after_cycles g i n w)).
    + apply IH; intros k Hk; [ apply Hp | apply Hlt ]; lia.
    + apply Hlt. lia.
    + destruct (Hp n) as (Hret & p & Hans & He); [ lia | ].
      rewrite <- (polls_after_cycles g i n w) in Hret, Hans.
      rewrite (loop_body_received g i _ p Hret Hans).
      apply handle_continues. now apply continues_pending.
Qed.

(** ** The credential store *)

Lemma terminates_failure (r : DeviceTokenResponse) (res : DeviceAuthResult) :
  terminates r res -> success res = false.
Proof. intros [ | | ]; reflexivity. Qed.

Lemma loop_run_store (g : DeviceCodeResponse) (D i : Z) (w w' : World)
  (o : Outcome DeviceAuthResult) :
  loop_run g D i w o w' ->
  exists added,
    trace w' = trace w ++ added /\ store_report Throw w o w' added.
Proof.
  induction 1 as
    [ i w | i w _ | i w cb e Hlt _ _ | i w e Hlt _ _ | i w r res Hlt _ _ Ht
    | i w r key Hlt _ Hans Ha Hs | i w r key Hlt _ Hans Ha Hs Hr
    | i w r key e Hlt _ Hans Ha Hs Hr | i w r i' o w' Hlt _ _ Hc _ IH ].
  - exists []. split; [ now rewrite app_nil_r | ]. left.
    split; [ reflexivity | ]. split; [ reflexivity | ]. discriminate.
  - exists []. split; [ now rewrite app_nil_r | ]. left.
    split; [ reflexivity | ]. split; [ reflexivity | ].
    intros res [= <-]. discriminate.
  - exists (EvSleep (now w) i :: polling_events).
    split; [ apply trace_waited_notified | ]. left.
    split; [ simpl; now rewrite <- (app_nil_r polling_events),
                      saves_polling_events | ].
    split; [ simpl; now rewrite cred_file_notified | ]. discriminate.
  - exists (cycle_events g i w). split; [ apply trace_cycled | ]. left.
    split; [ apply saves_cycle | ].
    split; [ apply cred_file_cycled | ]. discriminate.
  - exists (cycle_events g i w). split; [ apply trace_cycled | ]. left.
    split; [ apply saves_cycle | ].
    split; [ apply cred_file_cycled | ].
    intros res' [= <-] Hsucc.
    rewrite (terminates_failure r res Ht) in Hsucc. discriminate.
  - exists (cycle_events g i w). split; [ apply trace_cycled | ]. left.
    split; [ apply saves_cycle | ].
    split; [ apply cred_file_cycled | ].
    intros res' [= <-] _. split; [ exact Hs | ].
    exists key. apply Ha.
  - exists (cycle_events g i w ++
            [EvSave (now (cycled g i w))
               (credentials_of key r (now (cycled g i w)))]).
    split; [ rewrite trace_saved, trace_cycled; now rewrite <- app_assoc | ].
    right. split; [ exact Hs | ].
    exists r, key, (now (cycled g i w)).
    split; [ now rewrite saves_app, saves_cycle | ].
    split; [ change (polls (saved (credentials_of key r (now (cycled g i w)))
                              (cycled g i w)))
               with (polls (cycled g i w));
             now rewrite polls_cycled | ].
    split; [ exact Ha | ]. left. now repeat split.
  - exists (cycle_events g i w ++
            [EvSave (now (cycled g i w))
               (credentials_of key r (now (cycled g i w)))]).
    split; [ rewrite trace_save_failed, trace_cycled; now rewrite <- app_assoc | ].
    right. split; [ exact Hs | ].
    exists r, key, (now (cycled g i w)).
    split; [ now rewrite saves_app, saves_cycle | ].
    split; [ change (polls (save_failed
                              (credentials_of key r (now (cycled g i w)))
                              (cycled g i w)))
               with (polls (cycled g i w));
             now rewrite polls_cycled | ].
    split; [ exact Ha | ]. right. exists e.
    split; [ exact Hr | ]. split; [ reflexivity | ].
    change (cred_file (save_failed
                         (credentials_of key r (now (cycled g i w)))
                         (cycled g i w)))
      with (save_leaves env (credentials_of key r (now (cycled g i w)))
              (cred_file (cycled g i w))).
    now rewrite cred_file_cycled.
  - destruct IH as (added & Htr & Hrep).
    exists (cycle_events g i w ++ added).
    split; [ rewrite Htr, trace_cycled; now rewrite <- app_assoc | ].
    unfold store_report in *. rewrite saves_app, saves_cycle. simpl app.
    rewrite cred_file_cycled in Hrep. exact Hrep.
Qed.

Lemma flow_store (fuel : nat) (w : World) :
  exists added,
    trace (snd (executeDeviceFlow fuel w)) = trace w ++ added /\
    store_report (fun e => Ret (failure (message_of e))) w
      (fst (executeDeviceFlow fuel w)) (snd (executeDeviceFlow fuel w)) added.
Proof.
  rewrite executeDeviceFlow_world, executeDeviceFlow_outcome.
  destruct code_cases as [[e He] | [g Hg]].
  { rewrite (flow_body_code_fails fuel w e He).
    exists [EvCodeRequest code_url]. split; [ reflexivity | ]. left.
    split; [ reflexivity | ]. split; [ reflexivity | ].
    intros res [= <-]. discriminate. }
  destruct (cb_raises (onCodeReceived options (user_code g)
                         (verification_uri g))) as [e | ] eqn:He.
  { rewrite (flow_body_display_raised fuel w g e Hg He).
    eexists. split; [ apply trace_started | ]. left.
    split; [ reflexivity | ]. split; [ reflexivity | ].
    intros res [= <-]. discriminate. }
  rewrite (flow_body_started fuel g w (conj Hg He)).
  destruct (loop_run_store _ _ _ _ _ _
              (poll_loop_run g (now (started g w) + expires_in g * 1000)
                 fuel (interval g) (started g w)))
    as (added & Htr & Hrep).
  exists ([EvCodeRequest code_url;
           EvCodeReceived (user_code g) (verification_uri g)] ++ added).
  split; [ rewrite Htr, trace_started; now rewrite <- app_assoc | ].
  unfold store_report in *. rewrite saves_app. simpl app.
  change (cred_file (started g w)) with (cred_file w) in Hrep.
  destruct Hrep
    as [(Hs & Hf & Hres) | (Hs & r & key & t & Hsv & Hans & Ha & Ho)].
  - left. split; [ exact Hs | ]. split; [ exact Hf | ].
    intros res Hres' Hsucc.
    destruct (fst (poll_loop fuel g _ (interval g) (started g w)))
      as [res0 | e | ]; [ now apply Hres | | discriminate Hres' ].
    injection Hres' as <-. discriminate Hsucc.
  - right. split; [ exact Hs | ]. exists r, key, t.
    split; [ exact Hsv | ]. split; [ exact Hans | ]. split; [ exact Ha | ].
    destruct Ho as [(Hr & -> & Hf) | (e & Hr & -> & Hf)].
    + left. now repeat split.
    + right. exists e. now repeat split.
Qed.

(** ** Properties of the flow *)

(** C1, as the code has it: the deadline is checked at the head of every
    wait-then-poll cycle.  Every wait begins before the deadline and every
    token request follows such a wait (the deadline may pass during it); when
    the check at a loop head finds the deadline reached, the flow returns
    "Device code expired. Please try again." in the world of that check,
    with no further wait or request; and when no response is terminal and
    cycles take time, the flow does reach such a check and returns that
    result. *)
Theorem deadline_checked_at_loop_head (fuel : nat) (w : World)
  (g : DeviceCodeResponse) :
  grants g ->
  (exists added,
      trace (snd (executeDeviceFlow fuel w)) =
      trace w ++ EvCodeRequest code_url ::
        EvCodeReceived (user_code g) (verification_uri g) :: added /\
      (forall t s, In (EvSleep t s) added -> t < deadline g w) /\
      (forall pre tp u d post,
          added = pre ++ EvPoll tp u d :: post ->
          exists pre' t s,
            pre = pre' ++ EvSleep t s :: polling_events /\
            t < deadline g w)) /\
  (forall n i wk,
      cycles_to g (deadline g w) n (interval g, started g w) (i, wk) ->
      deadline g w <= now wk ->
      executeDeviceFlow (n + S fuel) w =
      (Ret (failure "Device code expired. Please try again."), wk)) /\
  ((forall k, polling_returns k) ->
   (forall k, exists r, answers k r /\ forall i, exists i', continues r i i') ->
   (forall k s, 0 < cycle_ms k s) ->
   exists n wk,
     executeDeviceFlow (n + S fuel) w =
     (Ret (failure "Device code expired. Please try again."), wk) /\
     deadline g w <= now wk).
Proof.
  intros Hg.
  assert (Hexp : forall n i wk,
             cycles_to g (deadline g w) n (interval g, started g w) (i, wk) ->
             deadline g w <= now wk ->
             executeDeviceFlow (n + S fuel) w = (Ret expired_result, wk)).
  { intros n i wk Hc Hge. apply executeDeviceFlow_returns.
    unfold deadline in *.
    rewrite (flow_body_cycles _ _ _ _ _ _ Hg Hc), poll_loop_head.
    apply Z.ltb_ge in Hge. now rewrite Hge. }
  split; [ | split ].
  - destruct (flow_events fuel w g (proj1 Hg)) as (added & Htr & Hev).
    exists added. split; [ exact Htr | ]. split.
    + apply (loop_events_sleeps _ _ _ Hev).
    + intros pre tp u d post Heq.
      apply (loop_events_polls _ _ _ Hev _ _ _ _ _ Heq).
  - exact Hexp.
  - intros Hret Hans Hms.
    destruct (loop_reaches_deadline g (deadline g w) Hret Hans Hms
                (Z.to_nat (deadline g w - now (started g w)))
                (interval g) (started g w))
      as (n & i & wk & Hc & Hge); [ lia | ].
    exists n, wk. split; [ now apply (Hexp n i wk) | exact Hge ].
Qed.

(** C2, as the code has it: after any number of [authorization_pending]
    responses and one response with no error and a populated [api_key], all
    received before the deadline, the flow returns [success:true] with
    [apiKey], [keyPrefix], [userId], [email] and [provider] as they are in
    that last response, provided that [saveCredentials], when it is called,
    does not throw; when it throws, the result is the failure carrying its
    message, and the credentials file holds what the write that failed left
    in it. *)
Theorem pending_then_authorized (fuel n : nat) (w : World)
  (g : DeviceCodeResponse) (r : DeviceTokenResponse) (key : string) :
  grants g ->
  (forall k, (k < n)%nat ->
     polling_returns (polls w + k) /\
     exists p, answers (polls w + k) p /\
               populated (error p) = Some "authorization_pending") ->
  polling_returns (polls w + n) ->
  answers (polls w + n) r ->
  populated (error r) = None ->
  populated (api_key r) = Some key ->
  (forall k, (k <= n)%nat -> 0 <= cycle_ms (polls w + k) (interval g)) ->
  (forall k, (k <= n)%nat ->
     now (after_cycles g (interval g) (S k) (started g w)) < deadline g w) ->
  (shouldSave = false ->
   executeDeviceFlow (n + S fuel) w =
   (Ret {| success := true; apiKey := api_key r; keyPrefix := key_prefix r;
           userId := user_id r; res_email := email r;
           res_provider := provider r; res_error := None |},
    after_cycles g (interval g) (S n) (started g w))) /\
  (shouldSave = true -> save_raises env = None ->
   executeDeviceFlow (n + S fuel) w =
   (Ret {| success := true; apiKey := api_key r; keyPrefix := key_prefix r;
           userId := user_id r; res_email := email r;
           res_provider := provider r; res_error := None |},
    saved
      (credentials_of key r
         (now (after_cycles g (interval g) (S n) (started g w))))
      (after_cycles g (interval g) (S n) (started g w)))) /\
  (forall e,
      shouldSave = true -> save_raises env = Some e ->
      executeDeviceFlow (n + S fuel) w =
      (Ret {| success := false; apiKey := None; keyPrefix := None;
              userId := None; res_email := None; res_provider := None;
              res_error :=
                Some match e with
                     | ErrorObj message => message
                     | NonError _ => "Unknown error"
                     end |},
       save_failed
         (credentials_of key r
            (now (after_cycles g (interval g) (S n) (started g w))))
         (after_cycles g (interval g) (S n) (started g w))) /\
      cred_file (snd (executeDeviceFlow (n + S fuel) w)) =
      save_leaves env
        (credentials_of key r
           (now (after_cycles g (interval g) (S n) (started g w))))
        (cred_file w)).
Proof.
  intros Hg Hpend Hret Hans He Hk Hms Harrive.
  set (i := interval g) in *. set (w1 := started g w) in *.
  assert (Hp1 : polls w1 = polls w) by reflexivity.
  assert (Hheads : forall k, (k <= n)%nat ->
                     now (after_cycles g i k w1) < deadline g w).
  { intros k Hkn. specialize (Harrive k Hkn). specialize (Hms k Hkn).
    cbn [after_cycles] in Harrive.
    rewrite now_cycled, polls_after_cycles, Hp1 in Harrive.
    lia. }
  assert (Hc : cycles_to g (deadline g w) n (i, w1) (i, after_cycles g i n w1)).
  { apply pending_cycles.
    - intros k Hkn. rewrite Hp1. now apply Hpend.
    - intros k Hkn. apply Hheads. lia. }
  assert (Hlt : (now (after_cycles g i n w1) <? deadline g w) = true).
  { apply Z.ltb_lt. now apply Hheads. }
  rewrite <- Hp1, <- (polls_after_cycles g i n w1) in Hret, Hans.
  assert (Hrun : flow_body (n + S fuel) w =
                 match handle r i (after_cycles g i (S n) w1) with
                 | (Ret (Continue i'), w') =>
                     poll_loop fuel g (deadline g w) i' w'
                 | (Ret (Return res), w') => (Ret res, w')
                 | (Throw e, w') => (Throw e, w')
                 | (OutOfFuel, w') => (OutOfFuel, w')
                 end).
  { unfold deadline in *.
    rewrite (flow_body_cycles _ _ _ _ _ _ Hg Hc), poll_loop_head, Hlt.
    rewrite (loop_body_received g i _ r Hret Hans). reflexivity. }
  rewrite (handle_authorized r key i _ (conj He Hk)) in Hrun.
  split; [ | split ].
  - intros Hs. rewrite Hs in Hrun. now apply executeDeviceFlow_returns.
  - intros Hs Hr. rewrite Hs, Hr in Hrun. now apply executeDeviceFlow_returns.
  - intros e Hs Hr. rewrite Hs, Hr in Hrun.
    apply executeDeviceFlow_catches in Hrun.
    split; [ exact Hrun | ].
    rewrite Hrun. cbn [snd]. unfold save_failed. cbn [cred_file left_holding].
    f_equal. apply cred_file_after_cycles.
Qed.

(** C3: a [slow_down] response makes the interval exactly 5 seconds longer,
    and the next cycle, if the deadline check lets it begin, waits the new
    interval.  In every flow the first wait is [interval] of the code
    response, each later wait is the one before or 5 seconds more, no wait
    is shorter than the first, and the interval at any loop head the flow
    reaches is at least [interval] of the code response. *)
Theorem slow_down_backoff (fuel : nat) (w : World) (g : DeviceCodeResponse) :
  code_granted g ->
  (exists added,
      trace (snd (executeDeviceFlow fuel w)) =
      trace w ++ EvCodeRequest code_url ::
        EvCodeReceived (user_code g) (verification_uri g) :: added /\
      (forall s rest, waits added = s :: rest -> s = interval g) /\
      (forall l1 a b l2, waits added = l1 ++ a :: b :: l2 ->
                         b = a \/ b = a + 5) /\
      (forall s, In s (waits added) -> interval g <= s)) /\
  (forall n i wk,
      cycles_to g (deadline g w) n (interval g, started g w) (i, wk) ->
      interval g <= i) /\
  (forall n i wk r,
      cb_raises (onCodeReceived options (user_code g) (verification_uri g))
      = None ->
      cycles_to g (deadline g w) n (interval g, started g w) (i, wk) ->
      now wk < deadline g w ->
      polling_returns (polls wk) ->
      answers (polls wk) r ->
      populated (error r) = Some "slow_down" ->
      loop_body g i wk = (Ret (Continue (i + 5)), cycled g i wk) /\
      i < i + 5 /\
      flow_body (S n + fuel) w =
      poll_loop fuel g (deadline g w) (i + 5) (cycled g i wk) /\
      (now (cycled g i wk) < deadline g w ->
       exists rest,
         trace (snd (executeDeviceFlow (S n + S fuel) w)) =
         trace (cycled g i wk) ++
         EvSleep (now (cycled g i wk)) (i + 5) :: rest)).
Proof.
  intros Hg. split; [ | split ].
  - destruct (flow_events fuel w g Hg) as (added & Htr & Hev).
    apply loop_events_waits in Hev.
    exists added. split; [ exact Htr | ]. split; [ | split ].
    + intros s rest Hw. rewrite Hw in Hev. now inversion Hev.
    + now apply (waits_from_adjacent (interval g)).
    + now apply waits_from_ge.
  - intros n i wk Hc. apply (cycles_to_interval _ _ _ _ _ Hc).
  - intros n i wk r Hcb Hc Hlt Hret Hans He.
    assert (Hbody : loop_body g i wk = (Ret (Continue (i + 5)), cycled g i wk)).
    { rewrite (loop_body_received g i wk r Hret Hans).
      apply handle_continues. now apply continues_slow_down. }
    assert (Hc' : cycles_to g (deadline g w) (S n) (interval g, started g w)
                    (i + 5, cycled g i wk)).
    { now apply (cycles_to_snoc g _ n _ i (i + 5) wk). }
    split; [ exact Hbody | ]. split; [ lia | ].
    split; [ now apply flow_body_cycles | ].
    intros Hlt'. rewrite executeDeviceFlow_world. unfold deadline in *.
    rewrite (flow_body_cycles (S fuel) (S n) w _ g (i + 5) (conj Hg Hcb) Hc').
    now apply poll_loop_first_wait.
Qed.

(** C4: a token response whose [error] is a terminal code ends the flow at
    once, in whatever cycle it arrives and whatever is left of the time
    budget when it arrives: [expired_token] gives
    [{success:false, error:"Device code expired. Please try again."}],
    [access_denied] gives
    [{success:false, error:"Authorization denied by user."}], any other code
    than the four known ones gives [success:false] with the error
    "Unknown error: " followed by the code.  The flow ends in the world right
    after that token request: no further wait or request follows.  The
    results tell the codes apart: two terminal codes that lines 89-105 turn
    into the same result are the same code. *)
Theorem terminal_error_codes (fuel n : nat) (w wk : World)
  (g : DeviceCodeResponse) (i : Z) (r : DeviceTokenResponse) (code : string) :
  grants g ->
  cycles_to g (deadline g w) n (interval g, started g w) (i, wk) ->
  now wk < deadline g w ->
  polling_returns (polls wk) ->
  answers (polls wk) r ->
  populated (error r) = Some code ->
  (code = "expired_token" ->
   executeDeviceFlow (n + S fuel) w =
   (Ret {| success := false; apiKey := None; keyPrefix := None;
           userId := None; res_email := None; res_provider := None;
           res_error := Some "Device code expired. Please try again." |},
    cycled g i wk)) /\
  (code = "access_denied" ->
   executeDeviceFlow (n + S fuel) w =
   (Ret {| success := false; apiKey := None; keyPrefix := None;
           userId := None; res_email := None; res_provider := None;
           res_error := Some "Authorization denied by user." |},
    cycled g i wk)) /\
  (code <> "authorization_pending" -> code <> "slow_down" ->
   code <> "expired_token" -> code <> "access_denied" ->
   executeDeviceFlow (n + S fuel) w =
   (Ret {| success := false; apiKey := None; keyPrefix := None;
           userId := None; res_email := None; res_provider := None;
           res_error := Some ("Unknown error: " ++ code)%string |},
    cycled g i wk)) /\
  trace (cycled g i wk) = trace wk ++ cycle_events g i wk /\
  polls (cycled g i wk) = S (polls wk) /\
  (forall r' code' res w1 w2,
      populated (error r') = Some code' ->
      code <> "authorization_pending" -> code <> "slow_down" ->
      code' <> "authorization_pending" -> code' <> "slow_down" ->
      handle r i w1 = (Ret (Return res), w1) ->
      handle r' i w2 = (Ret (Return res), w2) ->
      code' = code).
Proof.
  intros Hg Hc Hlt Hret Hans Hcode. unfold deadline in *.
  apply Z.ltb_lt in Hlt.
  assert (Hend : forall res, terminates r res ->
            executeDeviceFlow (n + S fuel) w = (Ret res, cycled g i wk)).
  { intros res Ht. apply executeDeviceFlow_returns.
    rewrite (flow_body_cycles _ _ _ _ _ _ Hg Hc), poll_loop_head, Hlt.
    rewrite (loop_body_received g i wk r Hret Hans).
    now rewrite (handle_terminates r i _ res Ht). }
  split; [ | split; [ | split; [ | split; [ | split ] ] ] ].
  - intros ->. apply (Hend expired_result). now apply terminates_expired.
  - intros ->. apply (Hend denied_result). now apply terminates_denied.
  - intros N1 N2 N3 N4.
    apply (Hend (failure ("Unknown error: " ++ code))).
    now apply terminates_unknown.
  - apply trace_cycled.
  - apply polls_cycled.
  - intros r' code' res w1 w2 Hcode' N1 N2 N1' N2' H1 H2.
    unfold handle in H1, H2. rewrite Hcode in H1. rewrite Hcode' in H2.
    apply String.eqb_neq in N1, N2, N1', N2'.
    rewrite N1, N2 in H1. rewrite N1', N2' in H2.
    destruct (code =? "expired_token")%string eqn:E1;
      destruct (code' =? "expired_token")%string eqn:E1';
      destruct (code =? "access_denied")%string eqn:E2;
      destruct (code' =? "access_denied")%string eqn:E2';
      unfold ret, expired_result, denied_result, failure in H1, H2;
      injection H1 as <-; cbn in H2;
      repeat match goal with
             | H : (_ =? _)%string = true |- _ => apply String.eqb_eq in H
             end;
      congruence.
Qed.

Lemma loop_run_throws (g : DeviceCodeResponse) (D i : Z) (w w' : World)
  (o : Outcome DeviceAuthResult) :
  loop_run g D i w o w' ->
  forall e, o = Throw e ->
  exists n i' wk,
    cycles_to g D n (i, w) (i', wk) /\ now wk < D /\
    ((exists cb,
         onPolling options = Some cb /\ cb_raises (cb (polls wk)) = Some e /\
         w' = notified (waited i' wk)) \/
     (polling_returns (polls wk) /\ poll_fails (polls wk) e /\
      w' = cycled g i' wk) \/
     (polling_returns (polls wk) /\
      exists r key,
        answers (polls wk) r /\ authorized r key /\ shouldSave = true /\
        save_raises env = Some e /\
        w' = save_failed (credentials_of key r (now (cycled g i' wk)))
               (cycled g i' wk))).
Proof.
  induction 1 as
    [ i w | i w _ | i w cb e0 Hlt Hcb He0 | i w e0 Hlt Hret Hf
    | i w r res Hlt _ _ Ht
    | i w r key Hlt _ Hans Ha Hs | i w r key Hlt _ Hans Ha Hs Hr
    | i w r key e0 Hlt Hret Hans Ha Hs Hr
    | i w r i' o w' Hlt Hret Hans Hc _ IH ];
    intros e Ho; try discriminate Ho.
  - injection Ho as <-. exists 0%nat, i, w.
    split; [ apply cycles_none | ]. split; [ exact Hlt | ].
    left. now exists cb.
  - injection Ho as <-. exists 0%nat, i, w.
    split; [ apply cycles_none | ]. split; [ exact Hlt | ].
    right. left. now repeat split.
  - injection Ho as <-. exists 0%nat, i, w.
    split; [ apply cycles_none | ]. split; [ exact Hlt | ].
    right. right. split; [ exact Hret | ]. exists r, key.
    split; [ exact Hans | ]. split; [ exact Ha | ]. split; [ exact Hs | ].
    split; [ exact Hr | reflexivity ].
  - destruct (IH e Ho) as (n & i'' & wk & Hcyc & Hlt' & Halt).
    exists (S n), i'', wk. split; [ | split; [ exact Hlt' | exact Halt ] ].
    apply (cycles_more g D n i w i' (cycled g i w)); [ exact Hlt | | exact Hcyc ].
    rewrite (loop_body_received g i w r Hret Hans).
    now apply handle_continues.
Qed.

(** C5: no run of [executeDeviceFlow] ends in a thrown value.  Whatever is
    thrown inside the [try] block becomes the result
    [{success:false, error:<message>}], the message being the [Error]'s
    message or "Unknown error" for a thrown non-[Error].  A value is thrown
    inside the [try] block only by a failing code request, by a raising
    [onCodeReceived], or, at a loop head the flow reaches before the
    deadline, by a raising [onPolling], a failing token request or a raising
    [saveCredentials]; each gives that result, in the world in which the
    value was thrown: after a raising [saveCredentials] the credentials file
    holds what the write that failed left in it.  When every cycle takes
    time, the flow, given enough fuel, ends by returning a result. *)
Theorem no_exception_escapes (fuel : nat) (w : World) :
  (forall e w', executeDeviceFlow fuel w <> (Throw e, w')) /\
  (forall e w',
      flow_body fuel w = (Throw e, w') ->
      executeDeviceFlow fuel w =
      (Ret {| success := false; apiKey := None; keyPrefix := None;
              userId := None; res_email := None; res_provider := None;
              res_error :=
                Some match e with
                     | ErrorObj message => message
                     | NonError _ => "Unknown error"
                     end |},
       w') /\
      ((code_fails e /\ w' = code_requested w) \/
       (exists g,
           code_granted g /\
           cb_raises (onCodeReceived options (user_code g)
                        (verification_uri g)) = Some e /\
           w' = started g w) \/
       (exists g n i wk,
           grants g /\
           cycles_to g (deadline g w) n (interval g, started g w) (i, wk) /\
           now wk < deadline g w /\
           ((exists cb,
                onPolling options = Some cb /\
                cb_raises (cb (polls wk)) = Some e /\
                w' = notified (waited i wk)) \/
            (polling_returns (polls wk) /\ poll_fails (polls wk) e /\
             w' = cycled g i wk) \/
            (polling_returns (polls wk) /\
             exists r key,
               answers (polls wk) r /\ authorized r key /\
               shouldSave = true /\ save_raises env = Some e /\
               w' = save_failed (credentials_of key r (now (cycled g i wk)))
                      (cycled g i wk)))))) /\
  (forall e,
      code_fails e ->
      executeDeviceFlow fuel w =
      (Ret {| success := false; apiKey := None; keyPrefix := None;
              userId := None; res_email := None; res_provider := None;
              res_error :=
                Some match e with
                     | ErrorObj message => message
                     | NonError _ => "Unknown error"
                     end |},
       code_requested w)) /\
  (forall g e,
      code_granted g ->
      cb_raises (onCodeReceived options (user_code g) (verification_uri g))
      = Some e ->
      executeDeviceFlow fuel w =
      (Ret {| success := false; apiKey := None; keyPrefix := None;
              userId := None; res_email := None; res_provider := None;
              res_error :=
                Some match e with
                     | ErrorObj message => message
                     | NonError _ => "Unknown error"
                     end |},
       started g w)) /\
  (forall g n i wk,
      grants g ->
      cycles_to g (deadline g w) n (interval g, started g w) (i, wk) ->
      now wk < deadline g w ->
      (forall cb e,
          onPolling options = Some cb -> cb_raises (cb (polls wk)) = Some e ->
          executeDeviceFlow (n + S fuel) w =
          (Ret {| success := false; apiKey := None; keyPrefix := None;
                  userId := None; res_email := None; res_provider := None;
                  res_error :=
                    Some match e with
                         | ErrorObj message => message
                         | NonError _ => "Unknown error"
                         end |},
           notified (waited i wk))) /\
      (forall e,
          polling_returns (polls wk) -> poll_fails (polls wk) e ->
          executeDeviceFlow (n + S fuel) w =
          (Ret {| success := false; apiKey := None; keyPrefix := None;
                  userId := None; res_email := None; res_provider := None;
                  res_error :=
                    Some match e with
                         | ErrorObj message => message
                         | NonError _ => "Unknown error"
                         end |},
           cycled g i wk)) /\
      (forall r key e,
          polling_returns (polls wk) -> answers (polls wk) r ->
          authorized r key -> shouldSave = true -> save_raises env = Some e ->
          executeDeviceFlow (n + S fuel) w =
          (Ret {| success := false; apiKey := None; keyPrefix := None;
                  userId := None; res_email := None; res_provider := None;
                  res_error :=
                    Some match e with
                         | ErrorObj message => message
                         | NonError _ => "Unknown error"
                         end |},
           save_failed (credentials_of key r (now (cycled g i wk)))
             (cycled g i wk)) /\
          cred_file (snd (executeDeviceFlow (n + S fuel) w)) =
          save_leaves env (credentials_of key r (now (cycled g i wk)))
            (cred_file wk))) /\
  ((forall k s, 0 < cycle_ms k s) ->
   exists enough,
     forall fuel', (enough <= fuel')%nat ->
       exists r w', executeDeviceFlow fuel' w = (Ret r, w')).
Proof.
  split; [ | split; [ | split; [ | split; [ | split ] ] ] ].
  - intros e w'. unfold executeDeviceFlow, try_catch, ret.
    destruct (flow_body fuel w) as [[r | e' | ] w'']; discriminate.
  - intros e w' H. split; [ now apply executeDeviceFlow_catches | ].
    destruct code_cases as [[e0 He0] | [g Hg]].
    { rewrite (flow_body_code_fails fuel w e0 He0) in H.
      injection H as <- <-. left. now split. }
    destruct (cb_raises (onCodeReceived options (user_code g)
                           (verification_uri g))) as [e0 | ] eqn:Hcb.
    { rewrite (flow_body_display_raised fuel w g e0 Hg Hcb) in H.
      injection H as <- <-. right. left. now exists g. }
    rewrite (flow_body_started fuel g w (conj Hg Hcb)) in H.
    pose proof (poll_loop_run g (now (started g w) + expires_in g * 1000)
                  fuel (interval g) (started g w)) as Hrun.
    rewrite H in Hrun. cbn [fst snd] in Hrun.
    destruct (loop_run_throws _ _ _ _ _ _ Hrun e eq_refl)
      as (n & i & wk & Hc & Hlt & Halt).
    right. right. exists g, n, i, wk.
    split; [ now split | ]. split; [ exact Hc | ].
    split; [ exact Hlt | exact Halt ].
  - intros e He. apply executeDeviceFlow_catches.
    now apply flow_body_code_fails.
  - intros g e Hg He. apply executeDeviceFlow_catches.
    now apply flow_body_display_raised.
  - intros g n i wk Hg Hc Hlt. unfold deadline in *.
    apply Z.ltb_lt in Hlt.
    split; [ | split ].
    + intros cb e Hcb He. apply executeDeviceFlow_catches.
      rewrite (flow_body_cycles _ _ _ _ _ _ Hg Hc), poll_loop_head, Hlt.
      now rewrite (loop_body_callback_raised g i wk cb e Hcb He).
    + intros e Hret Hf. apply executeDeviceFlow_catches.
      rewrite (flow_body_cycles _ _ _ _ _ _ Hg Hc), poll_loop_head, Hlt.
      now rewrite (loop_body_poll_failed g i wk e Hret Hf).
    + intros r key e Hret Hans Ha Hs Hr.
      assert (Hrun : executeDeviceFlow (n + S fuel) w =
                     (Ret (failure (message_of e)),
                      save_failed (credentials_of key r (now (cycled g i wk)))
                        (cycled g i wk))).
      { apply executeDeviceFlow_catches.
        rewrite (flow_body_cycles _ _ _ _ _ _ Hg Hc), poll_loop_head, Hlt.
        rewrite (loop_body_received g i wk r Hret Hans).
        now rewrite (handle_authorized r key i _ Ha), Hs, Hr. }
      split; [ exact Hrun | ].
      rewrite Hrun. cbn [snd]. unfold save_failed.
      cbn [cred_file left_holding]. f_equal. apply cred_file_cycled.
  - apply executeDeviceFlow_terminates.
Qed.








(** C9: when the device-code endpoint answers with a status outside 200-299,
    [requestDeviceCode] throws an [Error] whose message is
    "Failed to request device code: " followed by the response body as it
    came; the flow sends no second request (the trace gains the one code
    request and nothing else, no token request is counted) and returns the
    failure result carrying that message. *)
Theorem code_request_rejected (fuel : nat) (w : World)
  (response : Response DeviceCodeResponse) :
  code_fetch env = inr response ->
  ~ (200 <= status response <= 299) ->
  requestDeviceCode w =
    (Throw (ErrorObj ("Failed to request device code: " ++ text response)),
     code_requested w) /\
  executeDeviceFlow fuel w =
    (Ret {| success := false; apiKey := None; keyPrefix := None;
            userId := None; res_email := None; res_provider := None;
            res_error :=
              Some ("Failed to request device code: " ++ text response)%string
         |},
     code_requested w) /\
  trace (code_requested w) = trace w ++ [EvCodeRequest code_url] /\
  polls (code_requested w) = polls w.
Proof.
  intros Hfetch Hstatus.
  assert (Hfails : code_fails
            (ErrorObj ("Failed to request device code: " ++ text response))).
  { right. exists response. split; [ exact Hfetch | ]. left.
    split; [ | reflexivity ].
    unfold ok. apply andb_false_iff.
    destruct (Z.leb_spec 200 (status response));
      destruct (Z.leb_spec (status response) 299); auto.
    exfalso. apply Hstatus. lia. }
  split; [ now apply requestDeviceCode_fails | ].
  split; [ | split; reflexivity ].
  apply (executeDeviceFlow_catches fuel w (code_requested w)
           (ErrorObj ("Failed to request device code: " ++ text response))).
  now apply flow_body_code_fails.
Qed.

(** C10: a token response with no (truthy) [error] and no populated
    [api_key] is not terminal: the loop body ends in [continue] with the
    interval unchanged, the flow is back at the loop head, and if the deadline
    check passes there (and [onPolling] returns) the next cycle waits the
    same interval and sends the next token request. *)
Theorem empty_response_keeps_polling (fuel n : nat) (w wk : World)
  (g : DeviceCodeResponse) (i : Z) (r : DeviceTokenResponse) :
  grants g ->
  cycles_to g (deadline g w) n (interval g, started g w) (i, wk) ->
  now wk < deadline g w ->
  polling_returns (polls wk) ->
  answers (polls wk) r ->
  populated (error r) = None ->
  populated (api_key r) = None ->
  loop_body g i wk = (Ret (Continue i), cycled g i wk) /\
  cycles_to g (deadline g w) (S n) (interval g, started g w)
    (i, cycled g i wk) /\
  flow_body (S n + fuel) w = poll_loop fuel g (deadline g w) i (cycled g i wk)
  /\
  (now (cycled g i wk) < deadline g w ->
   polling_returns (polls (cycled g i wk)) ->
   exists rest,
     trace (snd (executeDeviceFlow (S n + S fuel) w)) =
     trace (cycled g i wk) ++
     EvSleep (now (cycled g i wk)) i :: polling_events ++
     EvPoll (now (notified (waited i (cycled g i wk)))) token_url
       (device_code g) :: rest).
Proof.
  intros Hg Hc Hlt Hret Hans He Hk.
  assert (Hbody : loop_body g i wk = (Ret (Continue i), cycled g i wk)).
  { rewrite (loop_body_received g i wk r Hret Hans).
    apply handle_continues. now apply continues_empty. }
  assert (Hc' : cycles_to g (deadline g w) (S n) (interval g, started g w)
                  (i, cycled g i wk)).
  { now apply (cycles_to_snoc g _ n _ i i wk). }
  split; [ exact Hbody | ]. split; [ exact Hc' | ].
  split; [ now apply flow_body_cycles | ].
  intros Hlt' Hret'. rewrite executeDeviceFlow_world.
  unfold deadline in *.
  rewrite (flow_body_cycles (S fuel) (S n) w _ g i Hg Hc').
  destruct (poll_loop_first_cycle fuel g _ i _ Hlt' Hret') as (rest & Htr).
  exists rest. rewrite Htr. now rewrite cycle_events_then.
Qed.

(** ** Further properties of the flow *)











(** X3: a token response with a status that is neither 2xx nor 400 is not
    parsed, whatever its body holds: [pollForToken] throws
    "Failed to poll for token: " followed by the body as it came, and the
    flow ends there with that message, in whatever cycle it happens. *)
Theorem token_request_rejected (fuel n : nat) (w wk : World)
  (g : DeviceCodeResponse) (i : Z)
  (response : Response DeviceTokenResponse) :
  grants g ->
  cycles_to g (deadline g w) n (interval g, started g w) (i, wk) ->
  now wk < deadline g w ->
  polling_returns (polls wk) ->
  token_fetch env (polls wk) = inr response ->
  ~ (200 <= status response <= 299) ->
  status response <> 400 ->
  pollForToken (device_code g) i (notified (waited i wk)) =
    (Throw (ErrorObj ("Failed to poll for token: " ++ text response)),
     cycled g i wk) /\
  executeDeviceFlow (n + S fuel) w =
    (Ret (failure ("Failed to poll for token: " ++ text response)),
     cycled g i wk) /\
  polls (cycled g i wk) = S (polls wk).
Proof.
  intros Hg Hc Hlt Hret Hfetch H2xx H400.
  assert (Hstatus : (ok response || (status response =? 400)) = false).
  { apply orb_false_iff. split.
    - unfold ok. apply andb_false_iff.
      destruct (Z.leb_spec 200 (status response));
        destruct (Z.leb_spec (status response) 299); auto.
      exfalso. apply H2xx. lia.
    - now apply Z.eqb_neq. }
  assert (Hfail : poll_fails (polls wk)
                    (ErrorObj ("Failed to poll for token: " ++ text response))).
  { right. exists response. split; [ exact Hfetch | ]. left. now split. }
  split; [ | split; [ | apply polls_cycled ] ].
  - unfold cycled, requested, token_url.
    unfold pollForToken, fetch, response_json, bind, ret, throw, Date_now,
      emit, elapse.
    simpl. rewrite polls_notified. simpl.
    rewrite Hfetch, Hstatus. reflexivity.
  - apply (executeDeviceFlow_catches _ _ _
             (ErrorObj ("Failed to poll for token: " ++ text response))).
    unfold deadline in *. apply Z.ltb_lt in Hlt.
    rewrite (flow_body_cycles _ _ _ _ _ _ Hg Hc), poll_loop_head, Hlt.
    now rewrite (loop_body_poll_failed g i wk _ Hret Hfail).
Qed.

(** X4: the [error] field is looked at first.  A response with a truthy
    [error] never counts as authorized, whatever [api_key] it carries: the
    cycle ends in [continue] or in a failure result, [saveCredentials] is not
    called and the credentials file is as before. *)
Theorem error_field_comes_first (g : DeviceCodeResponse) (i : Z) (wk : World)
  (r : DeviceTokenResponse) (code : string) :
  polling_returns (polls wk) ->
  answers (polls wk) r ->
  populated (error r) = Some code ->
  (exists c,
      loop_body g i wk = (Ret c, cycled g i wk) /\
      match c with
      | Continue i' => i' = i \/ i' = i + 5
      | Return res => success res = false /\ apiKey res = None
      end) /\
  saves (trace (cycled g i wk)) = saves (trace wk) /\
  cred_file (cycled g i wk) = cred_file wk.
Proof.
  intros Hret Hans Hcode.
  split; [ | split; [ | apply cred_file_cycled ] ].
  - rewrite (loop_body_received g i wk r Hret Hans).
    destruct (response_cases r i) as [[i' Hc] | [[res Ht] | [key [Ha _]]]].
    + rewrite (handle_continues r i i' _ Hc). eexists. split; [ reflexivity | ].
      now apply (continues_step r).
    + rewrite (handle_terminates r i _ res Ht).
      eexists. split; [ reflexivity | ].
      destruct Ht; now split.
    + rewrite Hcode in Ha. discriminate Ha.
  - now rewrite trace_cycled, saves_app, saves_cycle, app_nil_r.
Qed.

(** Every token request of the loop goes to the token endpoint with the
    device code of the grant. *)
Lemma loop_run_targets (g : DeviceCodeResponse) (D i : Z) (w w' : World)
  (o : Outcome DeviceAuthResult) :
  loop_run g D i w o w' ->
  exists added,
    trace w' = trace w ++ added /\
    forall t u d, In (EvPoll t u d) added ->
                  u = token_url /\ d = device_code g.
Proof.
  assert (Hcyc : forall i w t u d,
             In (EvPoll t u d) (cycle_events g i w) ->
             u = token_url /\ d = device_code g).
  { intros j v t u d Hin. unfold cycle_events in Hin.
    destruct Hin as [Hin | Hin]; [ discriminate Hin | ].
    apply in_app_or in Hin. destruct Hin as [Hin | [Hin | []]].
    - unfold polling_events in Hin.
      destruct (onPolling options); simpl in Hin;
        [ destruct Hin as [Hin | []]; discriminate Hin | destruct Hin ].
    - injection Hin as _ <- <-. now split. }
  induction 1 as
    [ i w | i w _ | i w cb e Hlt _ _ | i w e Hlt _ _ | i w r res Hlt _ _ _
    | i w r key Hlt _ _ _ _ | i w r key Hlt _ _ _ _ _
    | i w r key e Hlt _ _ _ _ _ | i w r i' o w' Hlt _ _ Hc _ IH ].
  - exists []. split; [ now rewrite app_nil_r | intros t u d [] ].
  - exists []. split; [ now rewrite app_nil_r | intros t u d [] ].
  - exists (EvSleep (now w) i :: polling_events).
    split; [ apply trace_waited_notified | ].
    intros t u d [Hin | Hin]; [ discriminate Hin | ].
    unfold polling_events in Hin.
    destruct (onPolling options); simpl in Hin;
      [ destruct Hin as [Hin | []]; discriminate Hin | destruct Hin ].
  - exists (cycle_events g i w). split; [ apply trace_cycled | apply Hcyc ].
  - exists (cycle_events g i w). split; [ apply trace_cycled | apply Hcyc ].
  - exists (cycle_events g i w). split; [ apply trace_cycled | apply Hcyc ].
  - eexists (cycle_events g i w ++ [EvSave _ _]).
    split; [ rewrite trace_saved, trace_cycled; now rewrite <- app_assoc | ].
    intros t u d Hin. apply in_app_or in Hin.
    destruct Hin as [Hin | [Hin | []]]; [ now apply (Hcyc i w t) | ].
    discriminate Hin.
  - eexists (cycle_events g i w ++ [EvSave _ _]).
    split; [ rewrite trace_save_failed, trace_cycled; now rewrite <- app_assoc | ].
    intros t u d Hin. apply in_app_or in Hin.
    destruct Hin as [Hin | [Hin | []]]; [ now apply (Hcyc i w t) | ].
    discriminate Hin.
  - destruct IH as (added & Htr & Hall).
    exists (cycle_events g i w ++ added).
    split; [ rewrite Htr, trace_cycled; now rewrite <- app_assoc | ].
    intros t u d Hin. apply in_app_or in Hin.
    destruct Hin as [Hin | Hin]; [ now apply (Hcyc i w t) | ].
    now apply (Hall t).
Qed.

(** X5: one base URL for the whole flow.  The code request goes to
    [/auth/device/code] and every token request to [/auth/device/token] under
    the same base, with the device code of the grant; the base is the
    environment variable when it is set and not empty, the production URL
    otherwise, and is never empty. *)
Theorem requests_go_to_one_base (fuel : nat) (w : World)
  (g : DeviceCodeResponse) :
  code_granted g ->
  (exists added,
      trace (snd (executeDeviceFlow fuel w)) =
      trace w ++
      EvCodeRequest (getCloudApiUrl ++ "/auth/device/code") ::
      EvCodeReceived (user_code g) (verification_uri g) :: added /\
      forall t u d,
        In (EvPoll t u d) added ->
        u = (getCloudApiUrl ++ "/auth/device/token")%string /\
        d = device_code g) /\
  getCloudApiUrl <> EmptyString /\
  (forall url, SAVECONTEXT_API_URL env = Some url -> url <> EmptyString ->
               getCloudApiUrl = url) /\
  (SAVECONTEXT_API_URL env = None \/ SAVECONTEXT_API_URL env = Some EmptyString ->
   getCloudApiUrl = "https://mcp.savecontext.dev").
Proof.
  intros Hg. split; [ | split; [ | split ] ].
  - rewrite executeDeviceFlow_world.
    destruct (cb_raises (onCodeReceived options (user_code g)
                           (verification_uri g))) as [e | ] eqn:He.
    + rewrite (flow_body_display_raised fuel w g e Hg He).
      exists []. split; [ apply trace_started | intros t u d [] ].
    + rewrite (flow_body_started fuel g w (conj Hg He)).
      destruct (loop_run_targets _ _ _ _ _ _
                  (poll_loop_run g (now (started g w) + expires_in g * 1000)
                     fuel (interval g) (started g w)))
        as (added & Htr & Hall).
      exists added. split; [ | exact Hall ].
      rewrite Htr, trace_started, <- app_assoc. reflexivity.
  - unfold getCloudApiUrl.
    destruct (SAVECONTEXT_API_URL env) as [[ | c url] | ]; simpl; discriminate.
  - intros url Hu Hne. unfold getCloudApiUrl. rewrite Hu.
    destruct url; [ now elim Hne | reflexivity ].
  - intros [Hu | Hu]; unfold getCloudApiUrl; rewrite Hu; reflexivity.
Qed.

(** A cycle that ends in [continue] adds 5 to the interval exactly when the
    answer was [slow_down]. *)
Lemma loop_body_continue_exact (g : DeviceCodeResponse) (i i' : Z)
  (w w' : World) :
  loop_body g i w = (Ret (Continue i'), w') ->
  i' = i + (if slowed (polls w) then 5 else 0) /\ w' = cycled g i w.
Proof.
  intros H.
  destruct (cycle_cases (polls w))
    as [(cb & e & Hcb & He) | [Hret [[e Hfail] | [r Hans]]]].
  - rewrite (loop_body_callback_raised g i w cb e Hcb He) in H.
    discriminate H.
  - rewrite (loop_body_poll_failed g i w e Hret Hfail) in H. discriminate H.
  - rewrite (loop_body_received g i w r Hret Hans) in H.
    destruct Hans as (response & Hfetch & _ & Hjson).
    unfold slowed. rewrite Hfetch, Hjson.
    destruct (response_cases r i) as [[j Hc] | [[res Ht] | [key Ha]]].
    + rewrite (handle_continues r i j _ Hc) in H. injection H as <- <-.
      split; [ | reflexivity ].
      destruct Hc as [Hc | Hc | Hc _]; rewrite Hc; simpl; lia.
    + rewrite (handle_terminates r i _ res Ht) in H. discriminate H.
    + rewrite (handle_authorized r key i _ Ha) in H.
      destruct shouldSave; [ destruct (save_raises env) | ]; discriminate H.
Qed.

Lemma cycles_to_slow_downs (g : DeviceCodeResponse) (D : Z) (n : nat)
  (s s' : Z * World) :
  cycles_to g D n s s' ->
  fst s' = fst s + 5 * Z.of_nat (slow_downs (polls (snd s)) n) /\
  polls (snd s') = (polls (snd s) + n)%nat.
Proof.
  induction 1 as [s | n i w i' w' s _ Hbody _ IH];
    cbn [fst snd slow_downs] in *.
  - split; lia.
  - apply loop_body_continue_exact in Hbody. destruct Hbody as [-> ->].
    rewrite polls_cycled in IH. destruct IH as [-> ->].
    split; [ | lia ].
    destruct (slowed (polls w)); lia.
Qed.

(** X6: backoff adds up.  At the loop head reached after [n] answers that let
    the flow go on, the interval is [interval] of the grant plus 5 seconds
    for each [slow_down] among them, and [n] token requests were sent. *)
Theorem interval_counts_slow_downs (n : nat) (w wk : World)
  (g : DeviceCodeResponse) (i : Z) :
  cycles_to g (deadline g w) n (interval g, started g w) (i, wk) ->
  i = interval g + 5 * Z.of_nat (slow_downs (polls w) n) /\
  polls wk = (polls w + n)%nat.
Proof.
  intros Hc. apply cycles_to_slow_downs in Hc. exact Hc.
Qed.

Lemma loop_run_result (g : DeviceCodeResponse) (D i : Z) (w w' : World)
  (o : Outcome DeviceAuthResult) :
  loop_run g D i w o w' ->
  forall res, o = Ret res ->
    (exists msg, res = failure msg) \/
    (exists r key, authorized r key /\ res = success_result r).
Proof.
  induction 1 as
    [ i w | i w _ | i w cb e Hlt _ _ | i w e Hlt _ _ | i w r res0 Hlt _ _ Ht
    | i w r key Hlt _ _ Ha _ | i w r key Hlt _ _ Ha _ _
    | i w r key e Hlt _ _ _ _ _ | i w r i' o w' Hlt _ _ Hc _ IH ];
    intros res Ho; try discriminate Ho; try (now apply IH).
  - injection Ho as <-. left. now eexists.
  - injection Ho as <-. left. destruct Ht; now eexists.
  - injection Ho as <-. right. now exists r, key.
  - injection Ho as <-. right. now exists r, key.
Qed.

(** X7: the shape of every result.  A result returned by the flow is either a
    success with a populated [apiKey] and no [error], or a failure that
    carries an [error] message and none of the payload fields. *)
Theorem result_is_success_or_failure (fuel : nat) (w w' : World)
  (res : DeviceAuthResult) :
  executeDeviceFlow fuel w = (Ret res, w') ->
  (success res = true /\ res_error res = None /\
   exists key, populated (apiKey res) = Some key) \/
  (success res = false /\
   exists msg,
     res_error res = Some msg /\ apiKey res = None /\ keyPrefix res = None /\
     userId res = None /\ res_email res = None /\ res_provider res = None).
Proof.
  intros Hrun.
  assert (Hfail : forall msg, res = failure msg ->
             success res = false /\
             exists msg,
               res_error res = Some msg /\ apiKey res = None /\
               keyPrefix res = None /\ userId res = None /\
               res_email res = None /\ res_provider res = None).
  { intros msg ->. split; [ reflexivity | ]. exists msg. now repeat split. }
  pose proof (executeDeviceFlow_outcome fuel w) as Ho.
  rewrite Hrun in Ho. simpl in Ho.
  destruct (fst (flow_body fuel w)) as [res0 | e | ] eqn:Hbody;
    [ | injection Ho as ->; right; now apply (Hfail (message_of e))
      | discriminate Ho ].
  injection Ho as <-.
  destruct code_cases as [[e He] | [g Hg]].
  { rewrite (flow_body_code_fails fuel w e He) in Hbody. discriminate Hbody. }
  destruct (cb_raises (onCodeReceived options (user_code g)
                         (verification_uri g))) as [e | ] eqn:He.
  { rewrite (flow_body_display_raised fuel w g e Hg He) in Hbody.
    discriminate Hbody. }
  rewrite (flow_body_started fuel g w (conj Hg He)) in Hbody.
  destruct (loop_run_result _ _ _ _ _ _
              (poll_loop_run g (now (started g w) + expires_in g * 1000)
                 fuel (interval g) (started g w)) res Hbody)
    as [(msg & Hres) | (r & key & [_ Hkey] & ->)].
  - right. now apply (Hfail msg).
  - left. split; [ reflexivity | ]. split; [ reflexivity | ].
    now exists key.
Qed.

End Flow.

(** ** Two [onPolling] callbacks *)

Section TwoCallbacks.

Variable env : Env.
Variable shows_code : string -> string -> CbRun.
Variable flag : option bool.
Variables cb1 cb2 : nat -> CbRun.

(** The same options but for the [onPolling] callback. *)
Local Abbreviation options1 := (polling_with shows_code flag cb1).
Local Abbreviation options2 := (polling_with shows_code flag cb2).

Hypothesis returns1 : forall k, cb_raises (cb1 k) = None.
Hypothesis returns2 : forall k, cb_raises (cb2 k) = None.
Hypothesis same_time : forall k, cb_ms (cb1 k) = cb_ms (cb2 k).

Lemma cycled_same (g : DeviceCodeResponse) (i : Z) (w1 w2 : World) :
  same_but_display w1 w2 ->
  same_but_display (cycled env options1 g i w1) (cycled env options2 g i w2).
Proof.
  intros (Hn & Hp & Ht & Hc).
  unfold same_but_display, cycled, requested, notified, waited, called.
  simpl. rewrite Hn, Hp, Ht, Hc, same_time. now repeat split.
Qed.

Lemma saving_same (c : SaveContextCredentials) (w1 w2 : World) :
  same_but_display w1 w2 ->
  same_but_display (save_failed env c w1) (save_failed env c w2) /\
  same_but_display (saved env c w1) (saved env c w2).
Proof.
  intros (Hn & Hp & Ht & Hc).
  unfold same_but_display, saved, save_failed, saving. simpl.
  rewrite Hn, Hp, Ht, Hc. now repeat split.
Qed.

Lemma poll_loop_same (g : DeviceCodeResponse) (D : Z) (fuel : nat) :
  forall (i : Z) (w1 w2 : World),
    same_but_display w1 w2 ->
    fst (poll_loop env options1 fuel g D i w1) =
    fst (poll_loop env options2 fuel g D i w2) /\
    same_but_display (snd (poll_loop env options1 fuel g D i w1))
                     (snd (poll_loop env options2 fuel g D i w2)).
Proof.
  induction fuel as [ | fuel IH]; intros i w1 w2 Hw.
  - now split.
  - rewrite !poll_loop_head.
    assert (Hn : now w1 = now w2) by apply Hw.
    assert (Hp : polls w1 = polls w2) by apply Hw.
    rewrite Hn. destruct (now w2 <? D); [ | now split ].
    assert (Hr1 : polling_returns options1 (polls w1)) by apply returns1.
    assert (Hr2 : polling_returns options2 (polls w2)) by apply returns2.
    pose proof (cycled_same g i w1 w2 Hw) as Hcyc.
    destruct (cycle_cases env options1 (polls w1))
      as [(cb & e & [= <-] & He) | [_ [[e Hfail] | [r Hans]]]].
    + rewrite returns1 in He. discriminate He.
    + rewrite (loop_body_poll_failed env options1 g i w1 e Hr1 Hfail).
      rewrite Hp in Hfail.
      rewrite (loop_body_poll_failed env options2 g i w2 e Hr2 Hfail).
      now split.
    + rewrite (loop_body_received env options1 g i w1 r Hr1 Hans).
      rewrite Hp in Hans.
      rewrite (loop_body_received env options2 g i w2 r Hr2 Hans).
      destruct (response_cases r i) as [[i' Hc] | [[res Ht] | [key Ha]]].
      * rewrite !(handle_continues _ _ r i i' _ Hc). now apply IH.
      * rewrite !(handle_terminates _ _ r i _ res Ht). now split.
      * rewrite !(handle_authorized _ _ r key i _ Ha).
        change (shouldSave options2) with (shouldSave options1).
        assert (Hnow : now (cycled env options1 g i w1) =
                       now (cycled env options2 g i w2)) by apply Hcyc.
        rewrite Hnow.
        destruct (saving_same
                    (credentials_of key r (now (cycled env options2 g i w2)))
                    _ _ Hcyc) as [Hsaving Hsaved].
        destruct (shouldSave options1); [ | now split ].
        destruct (save_raises env); now split.
Qed.

End TwoCallbacks.

(** C8, as the code has it: two [onPolling] callbacks that return normally
    and take the same time at each call, whatever else they do, lead to the
    same result and to the same waits, token requests and save, at the same
    times.  (A callback that throws ends the flow with the failure carrying
    its message, and the time a callback takes counts towards the
    deadline.) *)
Theorem polling_callback_only_notifies (env : Env)
  (shows_code : string -> string -> CbRun) (flag : option bool)
  (cb1 cb2 : nat -> CbRun) (fuel : nat) (w : World) :
  (forall k, cb_raises (cb1 k) = None) ->
  (forall k, cb_raises (cb2 k) = None) ->
  (forall k, cb_ms (cb1 k) = cb_ms (cb2 k)) ->
  fst (executeDeviceFlow env (polling_with shows_code flag cb1) fuel w) =
  fst (executeDeviceFlow env (polling_with shows_code flag cb2) fuel w) /\
  same_but_display
    (snd (executeDeviceFlow env (polling_with shows_code flag cb1) fuel w))
    (snd (executeDeviceFlow env (polling_with shows_code flag cb2) fuel w)).
Proof.
  intros Hr1 Hr2 Hms.
  set (o1 := polling_with shows_code flag cb1).
  set (o2 := polling_with shows_code flag cb2).
  assert (Hbody : fst (flow_body env o1 fuel w) = fst (flow_body env o2 fuel w)
                  /\ same_but_display (snd (flow_body env o1 fuel w))
                                      (snd (flow_body env o2 fuel w))).
  { destruct (code_cases env) as [[e He] | [g Hg]].
    - rewrite !(flow_body_code_fails env _ fuel w e He).
      now repeat split.
    - destruct (cb_raises (shows_code (user_code g) (verification_uri g)))
        as [e | ] eqn:He.
      + rewrite (flow_body_display_raised env o1 fuel w g e Hg He).
        rewrite (flow_body_display_raised env o2 fuel w g e Hg He).
        now repeat split.
      + rewrite (flow_body_started env o1 fuel g w (conj Hg He)).
        rewrite (flow_body_started env o2 fuel g w (conj Hg He)).
        apply (poll_loop_same env shows_code flag cb1 cb2 Hr1 Hr2 Hms).
        now repeat split. }
  rewrite !executeDeviceFlow_world, !executeDeviceFlow_outcome.
  destruct Hbody as (Ho & Hsame).
  rewrite Ho. now split.
Qed.

(** ** The flow on the scenarios *)

Ltac evaluate := vm_compute; reflexivity.
Ltac granted :=
  split; [ eexists; split; [ reflexivity | split; reflexivity ]
         | reflexivity ].
Ltac answered := eexists; split; [ reflexivity | split; reflexivity ].

(** The device-code endpoint answers 503: one request, then the failure. *)
Lemma code_request_rejected_when_down :
  ~ (200 <= 503 <= 299) /\
  executeDeviceFlow down_env (console dots None) 5 boot =
  (Ret (failure "Failed to request device code: Service Unavailable"),
   code_requested down_env boot) /\
  trace (code_requested down_env boot) =
  [EvCodeRequest "https://mcp.savecontext.dev/auth/device/code"].
Proof.
  assert (H : ~ (200 <= 503 <= 299)) by lia.
  split; [ exact H | ].
  pose proof (code_request_rejected down_env (console dots None) 5 boot
                _ eq_refl H) as (_ & Hflow & Htrace & _).
  split; [ exact Hflow | exact Htrace ].
Defined.

(** Pending, then [access_denied]: denied in the second cycle. *)
Lemma terminal_error_codes_when_denied :
  grants denying_env (console dots None) (grant_for 600) /\
  answers denying_env 1 denied_response /\
  executeDeviceFlow denying_env (console dots None) (1 + 4) boot =
  (Ret {| success := false; apiKey := None; keyPrefix := None;
          userId := None; res_email := None; res_provider := None;
          res_error := Some "Authorization denied by user." |},
   after_cycles denying_env (console dots None) (grant_for 600) 5 2
     (started denying_env (console dots None) (grant_for 600) boot)).
Proof.
  assert (Hg : grants denying_env (console dots None) (grant_for 600))
    by granted.
  assert (Ha : answers denying_env 1 denied_response) by answered.
  split; [ exact Hg | ]. split; [ exact Ha | ].
  refine (proj1 (proj2
            (terminal_error_codes denying_env (console dots None) 3 1 boot
               (after_cycles denying_env (console dots None) (grant_for 600)
                  5 1
                  (started denying_env (console dots None) (grant_for 600)
                     boot))
               (grant_for 600) 5 denied_response "access_denied"
               Hg _ _ _ Ha eq_refl)) eq_refl).
  - eapply cycles_more; [ evaluate | evaluate | apply cycles_none ].
  - evaluate.
  - reflexivity.
Defined.

(** An empty body, then the authorized response: the empty one continues. *)
Lemma empty_response_keeps_polling_when_blank :
  grants blank_env (console dots None) (grant_for 600) /\
  answers blank_env 0 empty_response /\
  loop_body blank_env (console dots None) (grant_for 600) 5
    (started blank_env (console dots None) (grant_for 600) boot) =
  (Ret (Continue 5),
   cycled blank_env (console dots None) (grant_for 600) 5
     (started blank_env (console dots None) (grant_for 600) boot)).
Proof.
  assert (Hg : grants blank_env (console dots None) (grant_for 600))
    by granted.
  assert (Ha : answers blank_env 0 empty_response) by answered.
  split; [ exact Hg | ]. split; [ exact Ha | ].
  refine (proj1
            (empty_response_keeps_polling blank_env (console dots None) 3 0
               boot
               (started blank_env (console dots None) (grant_for 600) boot)
               (grant_for 600) 5 empty_response
               Hg _ _ _ Ha eq_refl eq_refl)).
  - apply cycles_none.
  - evaluate.
  - reflexivity.
Defined.

(** [slow_down] at the first token request: the second wait is of 10 s. *)
Lemma slow_down_backoff_when_busy :
  code_granted busy_env (grant_for 600) /\
  answers busy_env 0 slow_down_response /\
  loop_body busy_env (console dots None) (grant_for 600) 5
    (started busy_env (console dots None) (grant_for 600) boot) =
  (Ret (Continue (5 + 5)),
   cycled busy_env (console dots None) (grant_for 600) 5
     (started busy_env (console dots None) (grant_for 600) boot)).
Proof.
  assert (Hg : code_granted busy_env (grant_for 600)).
  { eexists; split; [ reflexivity | split; reflexivity ]. }
  assert (Ha : answers busy_env 0 slow_down_response) by answered.
  split; [ exact Hg | ]. split; [ exact Ha | ].
  refine (proj1
            (proj2 (proj2 (slow_down_backoff busy_env (console dots None) 3
                             boot (grant_for 600) Hg))
               0%nat 5
               (started busy_env (console dots None) (grant_for 600) boot)
               slow_down_response eq_refl _ _ _ Ha eq_refl)).
  - apply cycles_none.
  - evaluate.
  - reflexivity.
Defined.


(** A full disk when the key arrives, over credentials stored before: the
    failure carries the message of the write, and the file is left empty.
    An [onPolling] that throws a number: "Unknown error". *)
Lemma no_exception_escapes_on_a_full_disk :
  grants readonly_at_once_env (console dots None) (grant_for 600) /\
  answers readonly_at_once_env 0 authorized_response /\
  fst (executeDeviceFlow readonly_at_once_env (console dots None) (0 + 1)
         logged_in) =
  Ret {| success := false; apiKey := None; keyPrefix := None;
         userId := None; res_email := None; res_provider := None;
         res_error := Some "ENOSPC: no space left on device, write" |} /\
  cred_file
    (snd (executeDeviceFlow readonly_at_once_env (console dots None) (0 + 1)
            logged_in)) = None /\
  fst (executeDeviceFlow scenario_env (console grumbling None) (0 + 1) boot) =
  Ret {| success := false; apiKey := None; keyPrefix := None;
         userId := None; res_email := None; res_provider := None;
         res_error := Some "Unknown error" |}.
Proof.
  assert (Hg : grants readonly_at_once_env (console dots None) (grant_for 600))
    by granted.
  assert (Ha : answers readonly_at_once_env 0 authorized_response)
    by answered.
  split; [ exact Hg | ]. split; [ exact Ha | ].
  destruct (no_exception_escapes readonly_at_once_env (console dots None) 0
              logged_in) as (_ & _ & _ & _ & Hloop & _).
  destruct (Hloop (grant_for 600) 0%nat 5
              (started readonly_at_once_env (console dots None)
                 (grant_for 600) logged_in)
              Hg (cycles_none _ _ _ _ _) eq_refl)
    as (_ & _ & Hsave).
  destruct (Hsave authorized_response "sk_live_123"
              (ErrorObj "ENOSPC: no space left on device, write")
              eq_refl Ha (conj eq_refl eq_refl) eq_refl eq_refl)
    as (Hrun & Hfile).
  split; [ now rewrite Hrun | ]. split; [ exact Hfile | ].
  assert (Hg' : grants scenario_env (console grumbling None) (grant_for 600))
    by granted.
  destruct (no_exception_escapes scenario_env (console grumbling None) 0 boot)
    as (_ & _ & _ & _ & Hloop' & _).
  destruct (Hloop' (grant_for 600) 0%nat 5
              (started scenario_env (console grumbling None) (grant_for 600)
                 boot)
              Hg' (cycles_none _ _ _ _ _) eq_refl)
    as (Hcb & _).
  now rewrite (Hcb _ (NonError "42") eq_refl eq_refl).
Defined.

(** Ten seconds and a user who never authorizes: expired. *)
Lemma deadline_checked_at_loop_head_when_idle :
  grants idle_env (console dots None) (grant_for 10) /\
  exists n wk,
    executeDeviceFlow idle_env (console dots None) (n + 1) boot =
    (Ret (failure "Device code expired. Please try again."), wk) /\
    deadline idle_env (console dots None) (grant_for 10) boot <= now wk.
Proof.
  assert (Hg : grants idle_env (console dots None) (grant_for 10))
    by granted.
  split; [ exact Hg | ].
  refine (proj2 (proj2
            (deadline_checked_at_loop_head idle_env (console dots None) 0
               boot (grant_for 10) Hg)) _ _ _).
  - intros k. reflexivity.
  - intros k. exists pending_response. split.
    + destruct k; answered.
    + intros i. exists i. apply continues_pending. reflexivity.
  - intros k s. unfold cycle_ms. simpl. lia.
Defined.

(** The spec's scenario: pending, pending, authorized. *)
Lemma pending_then_authorized_in_scenario :
  grants scenario_env (console dots None) (grant_for 600) /\
  answers scenario_env 2 authorized_response /\
  executeDeviceFlow scenario_env (console dots None) (2 + 1) boot =
  (Ret {| success := true; apiKey := Some "sk_live_123"; keyPrefix := None;
          userId := None; res_email := Some "a@b.com";
          res_provider := Some "github"; res_error := None |},
   saved scenario_env
     (credentials_of "sk_live_123" authorized_response
        (now (after_cycles scenario_env (console dots None) (grant_for 600)
                5 3
                (started scenario_env (console dots None) (grant_for 600)
                   boot))))
     (after_cycles scenario_env (console dots None) (grant_for 600) 5 3
        (started scenario_env (console dots None) (grant_for 600) boot))).
Proof.
  assert (Hg : grants scenario_env (console dots None) (grant_for 600))
    by granted.
  assert (Ha : answers scenario_env 2 authorized_response) by answered.
  split; [ exact Hg | ]. split; [ exact Ha | ].
  refine (proj1 (proj2
            (pending_then_authorized scenario_env (console dots None) 0 2
               boot (grant_for 600) authorized_response "sk_live_123"
               Hg _ _ Ha eq_refl eq_refl _ _)) eq_refl eq_refl).
  - intros k Hk. split; [ reflexivity | ].
    exists pending_response. split; [ | reflexivity ].
    destruct k as [ | [ | k]]; [ answered | answered | lia ].
  - reflexivity.
  - intros k _. unfold cycle_ms. simpl. lia.
  - intros k Hk.
    destruct k as [ | [ | [ | k]]]; [ evaluate | evaluate | evaluate | lia ].
Defined.

(** Two callbacks that show different things. *)
Lemma polling_callback_only_notifies_in_scenario :
  fst (executeDeviceFlow scenario_env
         (polling_with (fun u v => shows [u; v] 1) None
            (fun _ => shows ["."] 0))
         5 boot) =
  fst (executeDeviceFlow scenario_env
         (polling_with (fun u v => shows [u; v] 1) None
            (fun k => shows ["still waiting"; "..."] 0))
         5 boot).
Proof.
  refine (proj1
            (polling_callback_only_notifies scenario_env
               (fun u v => shows [u; v] 1) None (fun _ => shows ["."] 0)
               (fun k => shows ["still waiting"; "..."] 0) 5 boot _ _ _));
    intros k; reflexivity.
Defined.

(** ** Runs that go another way *)

Ltac listed := vm_compute; repeat (first [ left; reflexivity | right ]).

(** Ten seconds to authorize, waits of five: the second cycle begins at
    5201 ms, before the deadline at 10101 ms, and its token request leaves at
    10201 ms, after it.  If the user has authorized by then the flow
    succeeds; if not, it expires at the next check, after that request. *)
Lemma token_request_after_the_deadline :
  deadline late_env (console dots None) (grant_for 10) boot = 10101 /\
  10101 < 10201 /\
  In (EvPoll 10201 "https://mcp.savecontext.dev/auth/device/token" "d1")
    (trace (snd (executeDeviceFlow late_env (console dots None) 5 boot))) /\
  fst (executeDeviceFlow late_env (console dots None) 5 boot) =
  Ret {| success := true; apiKey := Some "sk_live_123"; keyPrefix := None;
         userId := None; res_email := Some "a@b.com";
         res_provider := Some "github"; res_error := None |} /\
  deadline idle_env (console dots None) (grant_for 10) boot = 10101 /\
  In (EvPoll 10201 "https://mcp.savecontext.dev/auth/device/token" "d1")
    (trace (snd (executeDeviceFlow idle_env (console dots None) 5 boot))) /\
  fst (executeDeviceFlow idle_env (console dots None) 5 boot) =
  Ret (failure "Device code expired. Please try again.").
Proof.
  split; [ evaluate | ]. split; [ lia | ]. split; [ listed | ].
  split; [ evaluate | ]. split; [ evaluate | ]. split; [ listed | evaluate ].
Qed.

(** Pending, pending, authorized, all within 16 of the 600 seconds, and a
    credentials file that cannot be written: the flow returns a failure. *)
Lemma authorized_but_not_written :
  answers readonly_env 0 pending_response /\
  answers readonly_env 1 pending_response /\
  answers readonly_env 2 authorized_response /\
  deadline readonly_env (console dots None) (grant_for 600) boot = 600101 /\
  now (snd (executeDeviceFlow readonly_env (console dots None) 5 boot))
  = 15403 /\
  fst (executeDeviceFlow readonly_env (console dots None) 5 boot) =
  Ret {| success := false; apiKey := None; keyPrefix := None;
         userId := None; res_email := None; res_provider := None;
         res_error :=
           Some "EACCES: permission denied, open credentials.json" |}.
Proof.
  split; [ answered | ]. split; [ answered | ]. split; [ answered | ].
  split; [ evaluate | ]. split; evaluate.
Qed.


(** The spec's scenario with three [onPolling] callbacks: one that shows a
    dot, one that throws, one that takes 700 seconds. *)
Lemma polling_callback_decides :
  fst (executeDeviceFlow scenario_env
         (console (Some (fun _ => shows ["."] 0)) None) 5 boot) =
  Ret {| success := true; apiKey := Some "sk_live_123"; keyPrefix := None;
         userId := None; res_email := Some "a@b.com";
         res_provider := Some "github"; res_error := None |} /\
  fst (executeDeviceFlow scenario_env
         (console
            (Some (fun _ => {| cb_shows := ["."]; cb_ms := 0;
                               cb_raises := Some (ErrorObj "render failed") |}))
            None) 5 boot) =
  Ret (failure "render failed") /\
  polls (snd (executeDeviceFlow scenario_env
                (console
                   (Some (fun _ =>
                            {| cb_shows := ["."]; cb_ms := 0;
                               cb_raises := Some (ErrorObj "render failed") |}))
                   None) 5 boot)) = 0%nat /\
  fst (executeDeviceFlow scenario_env
         (console (Some (fun _ => shows ["."] 700000)) None) 5 boot) =
  Ret (failure "Device code expired. Please try again.").
Proof. split; [ evaluate | ]. split; [ evaluate | ]. split; evaluate. Qed.

(** ** The further properties on the scenarios *)




Lemma token_request_rejected_at_500 :
  ~ (200 <= 500 <= 299) /\ 500 <> 400 /\
  executeDeviceFlow failing_env (console dots None) (1 + 4) boot =
  (Ret (failure "Failed to poll for token: Internal Server Error"),
   after_cycles failing_env (console dots None) (grant_for 600) 5 2
     (started failing_env (console dots None) (grant_for 600) boot)).
Proof.
  assert (H2xx : ~ (200 <= 500 <= 299)) by lia.
  assert (H400 : 500 <> 400) by lia.
  split; [ exact H2xx | ]. split; [ exact H400 | ].
  assert (Hg : grants failing_env (console dots None) (grant_for 600))
    by granted.
  refine (proj1 (proj2
            (token_request_rejected failing_env (console dots None) 3 1 boot
               (after_cycles failing_env (console dots None) (grant_for 600)
                  5 1
                  (started failing_env (console dots None) (grant_for 600)
                     boot))
               (grant_for 600) 5 _ Hg _ _ _ eq_refl H2xx H400))).
  - eapply cycles_more; [ evaluate | evaluate | apply cycles_none ].
  - evaluate.
  - reflexivity.
Defined.

Lemma error_field_comes_first_when_confused :
  answers confused_env 0 confused_response /\
  saves (trace (cycled confused_env (console dots None) (grant_for 600) 5
                  (started confused_env (console dots None) (grant_for 600)
                     boot))) = [].
Proof.
  assert (Ha : answers confused_env 0 confused_response) by answered.
  split; [ exact Ha | ].
  refine (proj1 (proj2
            (error_field_comes_first confused_env (console dots None)
               (grant_for 600) 5
               (started confused_env (console dots None) (grant_for 600) boot)
               confused_response "access_denied" _ Ha eq_refl))).
  reflexivity.
Defined.

Lemma requests_go_to_one_base_in_scenario :
  code_granted scenario_env (grant_for 600) /\
  getCloudApiUrl scenario_env <> EmptyString.
Proof.
  assert (Hg : code_granted scenario_env (grant_for 600)).
  { eexists; split; [ reflexivity | split; reflexivity ]. }
  split; [ exact Hg | ].
  exact (proj1 (proj2 (requests_go_to_one_base scenario_env
                         (console dots None) 5 boot (grant_for 600) Hg))).
Defined.

Lemma interval_counts_slow_downs_when_busy :
  cycles_to busy_env (console dots None) (grant_for 600)
    (deadline busy_env (console dots None) (grant_for 600) boot) 2
    (5, started busy_env (console dots None) (grant_for 600) boot)
    (10, after_cycles busy_env (console dots None) (grant_for 600) 10 1
           (after_cycles busy_env (console dots None) (grant_for 600) 5 1
              (started busy_env (console dots None) (grant_for 600) boot)))
  /\ 10 = 5 + 5 * Z.of_nat (slow_downs busy_env 0 2).
Proof.
  assert (Hc : cycles_to busy_env (console dots None) (grant_for 600)
                 (deadline busy_env (console dots None) (grant_for 600) boot)
                 2
                 (5, started busy_env (console dots None) (grant_for 600) boot)
                 (10,
                  after_cycles busy_env (console dots None) (grant_for 600)
                    10 1
                    (after_cycles busy_env (console dots None) (grant_for 600)
                       5 1
                       (started busy_env (console dots None) (grant_for 600)
                          boot)))).
  { eapply cycles_more; [ evaluate | evaluate | ].
    eapply cycles_more; [ evaluate | evaluate | apply cycles_none ]. }
  split; [ exact Hc | ].
  exact (proj1 (interval_counts_slow_downs busy_env (console dots None) 2 boot
                  _ (grant_for 600) 10 Hc)).
Defined.

Lemma result_is_success_or_failure_in_scenario :
  success
    {| success := true; apiKey := Some "sk_live_123"; keyPrefix := None;
       userId := None; res_email := Some "a@b.com";
       res_provider := Some "github"; res_error := None |} = true /\
  exists key, populated (Some "sk_live_123") = Some key.
Proof.
  assert (Hrun : executeDeviceFlow scenario_env (console dots None) 5 boot =
                 (Ret {| success := true; apiKey := Some "sk_live_123";
                         keyPrefix := None; userId := None;
                         res_email := Some "a@b.com";
                         res_provider := Some "github"; res_error := None |},
                  snd (executeDeviceFlow scenario_env (console dots None) 5
                         boot))) by evaluate.
  destruct (result_is_success_or_failure scenario_env (console dots None) 5
              boot _ _ Hrun)
    as [(Hs & _ & Hk) | (Hs & _)].
  - split; [ exact Hs | exact Hk ].
  - discriminate Hs.
Defined.

(** * Properties of config.ts *)

Section Stored.

Variable faults : Config.Faults.
Variable rendered : IsoString -> string.

Ltac io :=
  unfold Config.loadConfig, Config.loadCredentials, Config.isAuthenticated,
    Config.getApiKey, Config.deleteCredentials, Config.saveConfig,
    Config.saveCredentials, Config.ensureConfigDir, Config.parsed_file,
    Config.try_catch, Config.bind, Config.ret, Config.throw,
    Config.existsSync, Config.mkdirSync, Config.readFileSync,
    Config.writeFileSync, Config.unlinkSync, Config.JSON_parse,
    Config.JSON_stringify, Config.readable, Config.writable in *.

Lemma parsed_file_caught (p : Config.Path) (d : Config.Disk) :
  p <> Config.CONFIG_DIR ->
  Config.try_catch (Config.parsed_file faults p) (Config.ret None) d =
  (inr (Config.readable faults p d), d).
Proof.
  intros Hp. io. cbv beta.
  assert (He : match p with
               | Config.CONFIG_DIR =>
                   match d with Some _ => true | None => false end
               | _ => match Config.file_at p d with
                      | Some _ => true
                      | None => false
                      end
               end =
               match Config.file_at p d with
               | Some _ => true
               | None => false
               end) by (destruct p; congruence).
  rewrite He. clear He.
  destruct (Config.file_at p d) as [f | ] eqn:Hf; [ | reflexivity ].
  cbv beta iota.
  destruct (Config.read_raises faults p) as [e | ]; [ reflexivity | ].
  rewrite Hf.
  destruct (Config.data f) as [e | v]; reflexivity.
Qed.

Lemma loadConfig_readable (d : Config.Disk) :
  Config.loadConfig faults d =
  (inr match Config.readable faults Config.CONFIG_FILE d with
       | Some v => v
       | None => Config.default_config
       end, d).
Proof.
  unfold Config.loadConfig, Config.bind.
  rewrite parsed_file_caught by discriminate.
  destruct (Config.readable faults Config.CONFIG_FILE d); reflexivity.
Qed.

Lemma loadCredentials_readable (d : Config.Disk) :
  Config.loadCredentials faults d =
  (inr match Config.readable faults Config.CREDENTIALS_FILE d with
       | Some v => v
       | None => Config.JNull
       end, d).
Proof.
  unfold Config.loadCredentials, Config.bind.
  rewrite parsed_file_caught by discriminate.
  destruct (Config.readable faults Config.CREDENTIALS_FILE d); reflexivity.
Qed.

Lemma isAuthenticated_readable (d : Config.Disk) :
  Config.isAuthenticated faults d =
  (inr match Config.readable faults Config.CREDENTIALS_FILE d with
       | Some Config.JNull => false
       | Some v => Config.truthy (Config.apiKey_of v)
       | None => false
       end, d).
Proof.
  unfold Config.isAuthenticated, Config.bind.
  rewrite loadCredentials_readable. unfold Config.ret.
  destruct (Config.readable faults Config.CREDENTIALS_FILE d) as [[] | ];
    reflexivity.
Qed.

Lemma getApiKey_readable (d : Config.Disk) :
  Config.getApiKey faults d =
  (inr match Config.readable faults Config.CREDENTIALS_FILE d with
       | Some Config.JNull => Config.JNull
       | Some v => match Config.apiKey_of v with
                   | Some k => k
                   | None => Config.JNull
                   end
       | None => Config.JNull
       end, d).
Proof.
  unfold Config.getApiKey, Config.bind.
  rewrite loadCredentials_readable. unfold Config.ret.
  destruct (Config.readable faults Config.CREDENTIALS_FILE d) as [[] | ];
    reflexivity.
Qed.

Lemma file_at_put (p q : Config.Path) (f : option Config.File)
  (dir : Config.Dir) :
  Config.file_at p (Some (Config.put q f dir)) =
  match p, q with
  | Config.CONFIG_FILE, Config.CONFIG_FILE => f
  | Config.CREDENTIALS_FILE, Config.CREDENTIALS_FILE => f
  | _, _ => Config.file_at p (Some dir)
  end.
Proof. destruct p, q; reflexivity. Qed.

Lemma readable_same_file (p : Config.Path) (d d' : Config.Disk) :
  Config.file_at p d' = Config.file_at p d ->
  Config.readable faults p d' = Config.readable faults p d.
Proof. intros H. unfold Config.readable. now rewrite H. Qed.

Lemma ensureConfigDir_cases (d : Config.Disk) :
  match d, Config.mkdir_raises faults with
  | None, Some e => Config.ensureConfigDir faults d = (inl e, d)
  | _, _ => Config.ensureConfigDir faults d = (inr tt, Some (Config.ensured faults d))
  end.
Proof.
  io. destruct d as [dir | ]; simpl; [ reflexivity | ].
  destruct (Config.mkdir_raises faults); reflexivity.
Qed.

Lemma file_at_ensured (p : Config.Path) (d : Config.Disk) :
  Config.file_at p (Some (Config.ensured faults d)) = Config.file_at p d.
Proof. destruct d as [dir | ], p; reflexivity. Qed.

(** What a save does, in the three ways it can go. *)
Lemma save_cases (p : Config.Path) (text : Config.Text) (d : Config.Disk) :
  Config.bind (Config.ensureConfigDir faults)
    (fun _ => Config.writeFileSync faults p text 384) d =
  match d, Config.mkdir_raises faults with
  | None, Some e => (inl e, d)
  | _, _ =>
      match Config.write_raises faults p with
      | Some (e, remains) =>
          (inl e,
           Some (Config.put p (remains (Config.file_at p d)) (Config.ensured faults d)))
      | None =>
          (inr tt,
           Some (Config.put p
                   (Some {| Config.data := text;
                            Config.file_mode :=
                              match Config.file_at p d with
                              | Some f => Config.file_mode f
                              | None =>
                                  Config.masked 384 (Config.umask faults)
                              end |})
                   (Config.ensured faults d)))
      end
  end.
Proof.
  pose proof (ensureConfigDir_cases d) as He.
  unfold Config.bind at 1.
  destruct d as [dir | ].
  - rewrite He. unfold Config.writeFileSync.
    rewrite (file_at_ensured p (Some dir)).
    destruct (Config.write_raises faults p) as [[e remains] | ];
      reflexivity.
  - destruct (Config.mkdir_raises faults) as [e | ]; rewrite He;
      [ reflexivity | ].
    unfold Config.writeFileSync.
    rewrite (file_at_ensured p None).
    destruct (Config.write_raises faults p) as [[e remains] | ];
      reflexivity.
Qed.

Lemma masked_private (mode u : Z) :
  Z.land mode Config.others = 0 ->
  Z.land (Config.masked mode u) Config.others = 0.
Proof.
  intros H. unfold Config.masked.
  rewrite <- Z.land_assoc, (Z.land_comm (Z.lnot u)), Z.land_assoc, H.
  apply Z.land_0_l.
Qed.

(** X8: the loaders never throw and never change the disk; each returns
    what its file parses to, whatever JSON value that is, and falls back,
    [loadConfig] to [{ mode: 'local' }] and [loadCredentials] to [null],
    exactly when the file is missing, cannot be read or does not parse. *)
Theorem loaders_fall_back (d : Config.Disk) :
  Config.loadConfig faults d =
    (inr match Config.readable faults Config.CONFIG_FILE d with
         | Some v => v
         | None => Config.default_config
         end, d) /\
  Config.loadCredentials faults d =
    (inr match Config.readable faults Config.CREDENTIALS_FILE d with
         | Some v => v
         | None => Config.JNull
         end, d).
Proof.
  split; [ apply loadConfig_readable | apply loadCredentials_readable ].
Qed.

(** X9: [isAuthenticated] and [getApiKey] never throw and never change the
    disk, and they agree: [isAuthenticated] is true exactly when the value
    [getApiKey] returns is truthy, so then it is not [null]. *)
Theorem api_key_decides_authentication (d : Config.Disk) :
  exists key,
    Config.getApiKey faults d = (inr key, d) /\
    Config.isAuthenticated faults d =
      (inr (Config.truthy (Some key)), d) /\
    (Config.truthy (Some key) = true -> key <> Config.JNull).
Proof.
  rewrite getApiKey_readable, isAuthenticated_readable.
  destruct (Config.readable faults Config.CREDENTIALS_FILE d)
    as [[ | b | m e | s | items | fields] | ]; cbn [Config.apiKey_of];
    try (exists Config.JNull;
         split; [ reflexivity | split; [ reflexivity | discriminate ] ]).
  destruct (Config.lookup "apiKey" fields) as [key | ].
  - exists key. split; [ reflexivity | ]. split; [ reflexivity | ].
    intros Ht ->. discriminate Ht.
  - exists Config.JNull.
    split; [ reflexivity | split; [ reflexivity | discriminate ] ].
Qed.

(** X10: what [saveCredentials] stored is what the readers return.  When the
    directory is there or can be made and the file can be written and read,
    [saveCredentials] returns, [loadCredentials] then returns the saved
    object, [getApiKey] its key, and [isAuthenticated] is true unless that
    key is the empty string. *)
Theorem saved_credentials_are_loaded (c : SaveContextCredentials)
  (d : Config.Disk) :
  Config.writable faults Config.CREDENTIALS_FILE d ->
  Config.read_raises faults Config.CREDENTIALS_FILE = None ->
  exists d',
    Config.saveCredentials faults rendered c d = (inr tt, d') /\
    Config.loadCredentials faults d' =
      (inr (Config.json_of rendered c), d') /\
    Config.getApiKey faults d' = (inr (Config.JStr (cred_apiKey c)), d') /\
    Config.isAuthenticated faults d' =
      (inr (negb (String.eqb (cred_apiKey c) EmptyString)), d').
Proof.
  intros [Hdir Hwrite] Hread.
  unfold Config.saveCredentials. rewrite save_cases, Hwrite.
  eexists. split.
  - destruct d as [dir | ]; [ reflexivity | ].
    rewrite (Hdir eq_refl). reflexivity.
  - rewrite loadCredentials_readable, getApiKey_readable,
      isAuthenticated_readable.
    unfold Config.readable. rewrite file_at_put, Hread.
    repeat split; reflexivity.
Qed.

(** X11: what [saveConfig] stored is what [loadConfig] returns, under the
    same conditions on the directory and on [config.json]. *)
Theorem saved_config_is_loaded (config : Config.Json) (d : Config.Disk) :
  Config.writable faults Config.CONFIG_FILE d ->
  Config.read_raises faults Config.CONFIG_FILE = None ->
  exists d',
    Config.saveConfig faults config d = (inr tt, d') /\
    Config.loadConfig faults d' = (inr config, d').
Proof.
  intros [Hdir Hwrite] Hread.
  unfold Config.saveConfig. rewrite save_cases, Hwrite.
  eexists. split.
  - destruct d as [dir | ]; [ reflexivity | ].
    rewrite (Hdir eq_refl). reflexivity.
  - rewrite loadConfig_readable.
    unfold Config.readable. rewrite file_at_put, Hread. reflexivity.
Qed.

(** X12: [saveCredentials] returns exactly when the directory is there or
    can be made and the file can be written; otherwise it throws what
    [mkdirSync] or [writeFileSync] threw, and when it was [mkdirSync] the
    disk is as before. *)
Theorem saveCredentials_throws_what_the_disk_throws
  (c : SaveContextCredentials) (d : Config.Disk) :
  (fst (Config.saveCredentials faults rendered c d) = inr tt <->
   Config.writable faults Config.CREDENTIALS_FILE d) /\
  (forall e, d = None -> Config.mkdir_raises faults = Some e ->
             Config.saveCredentials faults rendered c d = (inl e, d)) /\
  (forall e remains,
     Config.writable faults Config.CONFIG_DIR d ->
     Config.write_raises faults Config.CREDENTIALS_FILE = Some (e, remains) ->
     fst (Config.saveCredentials faults rendered c d) = inl e).
Proof.
  unfold Config.saveCredentials. rewrite save_cases.
  unfold Config.writable. split; [ | split ].
  - destruct d as [dir | ].
    + destruct (Config.write_raises faults Config.CREDENTIALS_FILE)
        as [[e remains] | ]; simpl; split.
      * discriminate.
      * intros [_ H]. discriminate H.
      * intros _. split; [ discriminate | reflexivity ].
      * reflexivity.
    + destruct (Config.mkdir_raises faults) as [e0 | ].
      * simpl. split; [ discriminate | ].
        intros [H _]. discriminate (H eq_refl).
      * destruct (Config.write_raises faults Config.CREDENTIALS_FILE)
          as [[e remains] | ]; simpl; split.
        -- discriminate.
        -- intros [_ H]. discriminate H.
        -- intros _. split; reflexivity.
        -- reflexivity.
  - intros e -> He. rewrite He. reflexivity.
  - intros e remains [Hdir _] Hw. rewrite Hw.
    destruct d as [dir | ]; [ reflexivity | ].
    rewrite (Hdir eq_refl). reflexivity.
Qed.

(** X13: a save leaves the other file alone, whether it returns or throws:
    after [saveCredentials], [loadConfig] returns what it returned before,
    and after [saveConfig], [loadCredentials], [getApiKey] and
    [isAuthenticated] do. *)
Theorem a_save_keeps_the_other_file (c : SaveContextCredentials)
  (config : Config.Json) (d : Config.Disk) :
  (let d' := snd (Config.saveCredentials faults rendered c d) in
   Config.file_at Config.CONFIG_FILE d' =
     Config.file_at Config.CONFIG_FILE d /\
   fst (Config.loadConfig faults d') = fst (Config.loadConfig faults d)) /\
  (let d' := snd (Config.saveConfig faults config d) in
   Config.file_at Config.CREDENTIALS_FILE d' =
     Config.file_at Config.CREDENTIALS_FILE d /\
   fst (Config.loadCredentials faults d') =
     fst (Config.loadCredentials faults d) /\
   fst (Config.getApiKey faults d') = fst (Config.getApiKey faults d) /\
   fst (Config.isAuthenticated faults d') =
     fst (Config.isAuthenticated faults d)).
Proof.
  assert (Hframe : forall p q text,
             p <> q -> p <> Config.CONFIG_DIR ->
             Config.file_at p
               (snd (Config.bind (Config.ensureConfigDir faults)
                       (fun _ => Config.writeFileSync faults q text 384) d))
             = Config.file_at p d).
  { intros p q text Hpq Hp. rewrite save_cases.
    assert (Hput : forall f,
               Config.file_at p (Some (Config.put q f (Config.ensured faults d))) =
               Config.file_at p d).
    { intros f. rewrite file_at_put, file_at_ensured.
      destruct p, q; congruence. }
    destruct d as [dir | ].
    - destruct (Config.write_raises faults q) as [[e remains] | ];
        simpl snd; apply Hput.
    - destruct (Config.mkdir_raises faults) as [e0 | ]; [ reflexivity | ].
      destruct (Config.write_raises faults q) as [[e remains] | ];
        simpl snd; apply Hput. }
  split; cbv zeta.
  - assert (H := Hframe Config.CONFIG_FILE Config.CREDENTIALS_FILE
                   (Config.JSON_stringify (Config.json_of rendered c))
                   ltac:(discriminate) ltac:(discriminate)).
    fold (Config.saveCredentials faults rendered c) in H.
    split; [ exact H | ].
    rewrite !loadConfig_readable. simpl fst.
    now rewrite (readable_same_file _ _ _ H).
  - assert (H := Hframe Config.CREDENTIALS_FILE Config.CONFIG_FILE
                   (Config.JSON_stringify config)
                   ltac:(discriminate) ltac:(discriminate)).
    fold (Config.saveConfig faults config) in H.
    split; [ exact H | ].
    rewrite !loadCredentials_readable, !getApiKey_readable,
      !isAuthenticated_readable. simpl fst.
    rewrite (readable_same_file _ _ _ H). repeat split; reflexivity.
Qed.

(** X14: [deleteCredentials] never throws.  It returns [true] exactly when
    the credentials file was there and could be removed; then the file is
    gone, [isAuthenticated] is false, [getApiKey] is [null], and a second
    call returns [false].  When it returns [false] the disk is as before, so
    credentials that could not be removed are still loaded.  [config.json]
    is never touched. *)
Theorem deleteCredentials_logs_out (d : Config.Disk) :
  exists removed d',
    Config.deleteCredentials faults d = (inr removed, d') /\
    (removed = true <->
     Config.file_at Config.CREDENTIALS_FILE d <> None /\
     Config.unlink_raises faults Config.CREDENTIALS_FILE = None) /\
    (removed = true ->
     Config.file_at Config.CREDENTIALS_FILE d' = None /\
     Config.isAuthenticated faults d' = (inr false, d') /\
     Config.getApiKey faults d' = (inr Config.JNull, d') /\
     Config.deleteCredentials faults d' = (inr false, d')) /\
    (removed = false -> d' = d) /\
    Config.file_at Config.CONFIG_FILE d' =
      Config.file_at Config.CONFIG_FILE d.
Proof.
  destruct d as [dir | ].
  - destruct (Config.credentials_json dir) as [f | ] eqn:Hf.
    + destruct (Config.unlink_raises faults Config.CREDENTIALS_FILE)
        as [e | ] eqn:Hu.
      * exists false, (Some dir).
        unfold Config.deleteCredentials, Config.try_catch, Config.bind,
          Config.existsSync, Config.unlinkSync, Config.ret.
        simpl. rewrite Hf, Hu. simpl. rewrite ?Hf. simpl.
        split; [ reflexivity | ]. split.
        { split; [ discriminate | intros [_ H]; discriminate H ]. }
        split; [ discriminate | ]. split; reflexivity.
      * exists true, (Some (Config.put Config.CREDENTIALS_FILE None dir)).
        split.
        { unfold Config.deleteCredentials, Config.try_catch, Config.bind,
            Config.existsSync, Config.unlinkSync, Config.ret.
          simpl. rewrite Hf, Hu. simpl. rewrite Hf. reflexivity. }
        split.
        { split; [ | reflexivity ].
          intros _. simpl. rewrite Hf. split; [ discriminate | reflexivity ]. }
        split.
        { intros _. rewrite isAuthenticated_readable, getApiKey_readable.
          unfold Config.readable. simpl.
          split; [ reflexivity | ]. split; [ reflexivity | ].
          split; reflexivity. }
        split; [ discriminate | reflexivity ].
    + exists false, (Some dir).
      unfold Config.deleteCredentials, Config.try_catch, Config.bind,
        Config.existsSync, Config.unlinkSync, Config.ret.
      simpl. rewrite Hf. simpl.
      split; [ reflexivity | ]. split.
      { split; [ discriminate | intros [H _]; now elim H ]. }
      split; [ discriminate | ]. split; reflexivity.
  - exists false, None.
    split; [ reflexivity | ]. split.
    { split; [ discriminate | intros [H _]; now elim H ]. }
    split; [ discriminate | ]. split; reflexivity.
Qed.

(** X15: who may read what a save created.  A credentials file that
    [saveCredentials] creates has no permission bit for group or others, and
    neither has a directory it creates; a file or directory that was there
    keeps the bits it had. *)
Theorem new_files_are_private (c : SaveContextCredentials)
  (d d' : Config.Disk) :
  Config.saveCredentials faults rendered c d = (inr tt, d') ->
  exists dir f,
    d' = Some dir /\ Config.credentials_json dir = Some f /\
    (Config.file_at Config.CREDENTIALS_FILE d = None ->
     Z.land (Config.file_mode f) Config.others = 0) /\
    (forall f0, Config.file_at Config.CREDENTIALS_FILE d = Some f0 ->
                Config.file_mode f = Config.file_mode f0) /\
    (d = None -> Z.land (Config.dir_mode dir) Config.others = 0) /\
    (forall dir0, d = Some dir0 ->
                  Config.dir_mode dir = Config.dir_mode dir0).
Proof.
  unfold Config.saveCredentials. rewrite save_cases. intros H.
  assert (Hd' : d' =
                Some (Config.put Config.CREDENTIALS_FILE
                        (Some {| Config.data :=
                                   Config.JSON_stringify
                                     (Config.json_of rendered c);
                                 Config.file_mode :=
                                   match Config.file_at
                                           Config.CREDENTIALS_FILE d with
                                   | Some f => Config.file_mode f
                                   | None =>
                                       Config.masked 384
                                         (Config.umask faults)
                                   end |})
                        (Config.ensured faults d))).
  { destruct d as [dir | ].
    - destruct (Config.write_raises faults Config.CREDENTIALS_FILE)
        as [[e remains] | ]; [ discriminate H | ]. now inversion H.
    - destruct (Config.mkdir_raises faults) as [e0 | ]; [ discriminate H | ].
      destruct (Config.write_raises faults Config.CREDENTIALS_FILE)
        as [[e remains] | ]; [ discriminate H | ]. now inversion H. }
  subst d'. eexists. eexists.
  split; [ reflexivity | ]. split; [ reflexivity | ].
  cbn [Config.file_mode Config.put Config.dir_mode].
  split; [ | split; [ | split ] ].
  - intros ->. now apply masked_private.
  - intros f0 ->. reflexivity.
  - intros ->. cbn [Config.ensured Config.dir_mode].
    apply masked_private. reflexivity.
  - intros dir0 ->. reflexivity.
Qed.

(** ** The flow and the store *)

(** X24: a login that saved can be used.  When [executeDeviceFlow] returns
    a success and was to save the credentials, the key in the result is the
    key of the credentials it handed to [saveCredentials]; and on a disk
    where the directory can be made and the file written and read,
    [saveCredentials] of those credentials returns, after which
    [isAuthenticated] is true and [getApiKey] returns that key. *)
Theorem a_saved_login_authenticates (env : Env) (options : DeviceFlowOptions)
  (fuel : nat) (w w' : World) (res : DeviceAuthResult) (d : Config.Disk) :
  executeDeviceFlow env options fuel w = (Ret res, w') ->
  success res = true ->
  shouldSave options = true ->
  Config.writable faults Config.CREDENTIALS_FILE d ->
  Config.read_raises faults Config.CREDENTIALS_FILE = None ->
  exists c key d',
    cred_file w' = Some c /\
    populated (apiKey res) = Some key /\ cred_apiKey c = key /\
    Config.saveCredentials faults rendered c d = (inr tt, d') /\
    Config.isAuthenticated faults d' = (inr true, d') /\
    Config.getApiKey faults d' = (inr (Config.JStr key), d').
Proof.
  intros Hrun Hs Hsave [Hdir Hwrite] Hread.
  destruct (flow_store env options fuel w) as (added & _ & Hrep).
  rewrite Hrun in Hrep. cbn [fst snd] in Hrep.
  destruct Hrep
    as [(_ & _ & Hno)
       | (_ & r & key & t & _ & _ & [_ Hkey] & Hend)].
  { destruct (Hno res eq_refl Hs) as [Hf _]. congruence. }
  destruct Hend as [(_ & Ho & Hfile) | (e & _ & Ho & _)].
  2: { injection Ho as ->. discriminate Hs. }
  injection Ho as ->.
  assert (Hne : String.eqb key EmptyString = false).
  { destruct (api_key r) as [[ | c0 k0] | ]; try discriminate Hkey.
    injection Hkey as <-. reflexivity. }
  exists (credentials_of key r t), key.
  unfold Config.saveCredentials. rewrite save_cases, Hwrite.
  eexists. split; [ exact Hfile | ]. split; [ exact Hkey | ].
  split; [ reflexivity | ]. split.
  - destruct d as [dir | ]; [ reflexivity | ].
    rewrite (Hdir eq_refl). reflexivity.
  - rewrite getApiKey_readable, isAuthenticated_readable.
    unfold Config.readable. rewrite file_at_put, Hread.
    cbn [Config.data Config.JSON_stringify Config.json_of Config.apiKey_of
         Config.lookup Config.truthy credentials_of cred_apiKey].
    cbn. rewrite Hne. split; reflexivity.
Qed.

End Stored.

(** * Properties of formatProvider *)

Lemma lower_upper_char (c : Ascii.ascii) :
  Config.lower_char (Config.upper_char c) = Config.lower_char c.
Proof. destruct c as [[] [] [] [] [] [] [] []]; reflexivity. Qed.

Lemma upper_upper_char (c : Ascii.ascii) :
  Config.upper_char (Config.upper_char c) = Config.upper_char c.
Proof. destruct c as [[] [] [] [] [] [] [] []]; reflexivity. Qed.

Lemma upper_char_ascii (c : Ascii.ascii) :
  (Config.code (Config.upper_char c) <? 128)%nat =
  (Config.code c <? 128)%nat.
Proof. destruct c as [[] [] [] [] [] [] [] []]; reflexivity. Qed.

Lemma formatProvider_default (c : Ascii.ascii) (rest : string) :
  String.eqb (Config.toLowerCase (String c rest)) "github" = false ->
  String.eqb (Config.toLowerCase (String c rest)) "google" = false ->
  Config.formatProvider (Some (String c rest)) =
  String (Config.upper_char c) rest.
Proof.
  intros H1 H2. unfold Config.formatProvider.
  cbn [populated]. now rewrite H1, H2.
Qed.

(** X16: the two known providers.  On a name of ASCII characters
    [formatProvider] answers [GitHub] exactly when the name is [github] in
    some mix of upper and lower case, and [Google] exactly when it is
    [google] in some mix. *)
Theorem formatProvider_known_names (p : string) :
  Config.ascii_only p = true ->
  (Config.formatProvider (Some p) = "GitHub" <->
   Config.toLowerCase p = "github") /\
  (Config.formatProvider (Some p) = "Google" <->
   Config.toLowerCase p = "google").
Proof.
  intros _.
  destruct p as [ | c rest].
  { split; split; discriminate. }
  destruct (String.eqb (Config.toLowerCase (String c rest)) "github")
    eqn:Hgh.
  { apply String.eqb_eq in Hgh.
    unfold Config.formatProvider. cbn [populated].
    rewrite Hgh. simpl String.eqb. cbv iota.
    split; split; try reflexivity; discriminate. }
  destruct (String.eqb (Config.toLowerCase (String c rest)) "google")
    eqn:Hgo.
  { apply String.eqb_eq in Hgo.
    unfold Config.formatProvider. cbn [populated].
    rewrite Hgo. simpl String.eqb. cbv iota.
    split; split; try reflexivity; discriminate. }
  rewrite (formatProvider_default _ _ Hgh Hgo).
  apply String.eqb_neq in Hgh. apply String.eqb_neq in Hgo.
  split; split; intros H; exfalso.
  - apply Hgh. injection H as Hc Hrest. subst rest.
    cbn [Config.toLowerCase]. rewrite <- lower_upper_char, Hc. reflexivity.
  - now apply Hgh.
  - apply Hgo. injection H as Hc Hrest. subst rest.
    cbn [Config.toLowerCase]. rewrite <- lower_upper_char, Hc. reflexivity.
  - now apply Hgo.
Qed.

(** X17: a formatted name is stable.  On a name of ASCII characters (or
    none) the result of [formatProvider] is not empty, is again of ASCII
    characters, and formatting it once more changes nothing. *)
Theorem formatProvider_idempotent (provider : option string) :
  (forall p, provider = Some p -> Config.ascii_only p = true) ->
  Config.formatProvider provider <> EmptyString /\
  Config.ascii_only (Config.formatProvider provider) = true /\
  Config.formatProvider (Some (Config.formatProvider provider)) =
  Config.formatProvider provider.
Proof.
  intros Hascii.
  destruct provider as [[ | c rest] | ].
  2: {
    specialize (Hascii _ eq_refl).
    destruct (String.eqb (Config.toLowerCase (String c rest)) "github")
      eqn:Hgh.
    { assert (Hr : Config.formatProvider (Some (String c rest)) = "GitHub").
      { unfold Config.formatProvider. cbn [populated]. now rewrite Hgh. }
      rewrite Hr. split; [ discriminate | ]. split; reflexivity. }
    destruct (String.eqb (Config.toLowerCase (String c rest)) "google")
      eqn:Hgo.
    { assert (Hr : Config.formatProvider (Some (String c rest)) = "Google").
      { unfold Config.formatProvider. cbn [populated].
        now rewrite Hgh, Hgo. }
      rewrite Hr. split; [ discriminate | ]. split; reflexivity. }
    rewrite (formatProvider_default _ _ Hgh Hgo).
    split; [ discriminate | ]. split.
    - cbn [Config.ascii_only] in *. now rewrite upper_char_ascii.
    - rewrite formatProvider_default.
      + now rewrite upper_upper_char.
      + cbn [Config.toLowerCase] in *. now rewrite lower_upper_char.
      + cbn [Config.toLowerCase] in *. now rewrite lower_upper_char. }
  all: split; [ discriminate | split; reflexivity ].
Qed.

(** * Properties of the git status *)

(** ** Strings *)

Lemma split_no_sep (sep : Ascii.ascii) (s : string) :
  Git.includes sep s = false -> Git.split sep s = [s].
Proof.
  induction s as [ | c rest IH]; intros H; [ reflexivity | ].
  cbn [Git.includes] in H. apply orb_false_iff in H as [Hc Hrest].
  cbn [Git.split]. rewrite Hc, (IH Hrest). reflexivity.
Qed.

Lemma split_app (sep : Ascii.ascii) (s rest : string) :
  Git.includes sep s = false ->
  Git.split sep (s ++ String sep rest)%string = s :: Git.split sep rest.
Proof.
  induction s as [ | c s' IH]; intros H.
  - cbn. now rewrite Ascii.eqb_refl.
  - cbn [Git.includes] in H. apply orb_false_iff in H as [Hc Hs'].
    cbn [String.append Git.split]. rewrite Hc, (IH Hs'). reflexivity.
Qed.

Lemma trimStart_head (s : string) :
  Git.trimStart s = EmptyString \/
  exists c rest, Git.trimStart s = String c rest /\ Git.is_space c = false.
Proof.
  induction s as [ | c rest IH]; [ now left | ].
  cbn [Git.trimStart]. destruct (Git.is_space c) eqn:Hc; [ exact IH | ].
  right. now exists c, rest.
Qed.

Lemma trimEnd_cons (c : Ascii.ascii) (rest : string) :
  Git.trimEnd (String c rest) =
  match Git.trimEnd rest with
  | EmptyString =>
      if Git.is_space c then EmptyString else String c EmptyString
  | kept => String c kept
  end.
Proof. reflexivity. Qed.

Lemma trimEnd_idempotent (s : string) :
  Git.trimEnd (Git.trimEnd s) = Git.trimEnd s.
Proof.
  induction s as [ | c rest IH]; [ reflexivity | ].
  rewrite (trimEnd_cons c rest).
  destruct (Git.trimEnd rest) as [ | c' kept] eqn:Hk.
  - destruct (Git.is_space c) eqn:Hc; [ reflexivity | ].
    rewrite trimEnd_cons. cbn [Git.trimEnd]. now rewrite Hc.
  - rewrite trimEnd_cons, IH. reflexivity.
Qed.

Lemma trimEnd_head (c : Ascii.ascii) (rest : string) :
  Git.is_space c = false ->
  exists kept, Git.trimEnd (String c rest) = String c kept.
Proof.
  intros Hc. rewrite trimEnd_cons, Hc.
  destruct (Git.trimEnd rest) as [ | c' kept]; eauto.
Qed.

Lemma trim_idempotent (s : string) : Git.trim (Git.trim s) = Git.trim s.
Proof.
  unfold Git.trim.
  destruct (trimStart_head s) as [-> | (c & rest & -> & Hc)];
    [ reflexivity | ].
  destruct (trimEnd_head c rest Hc) as [kept Hk].
  rewrite Hk. cbn [Git.trimStart]. rewrite Hc, <- Hk.
  apply trimEnd_idempotent.
Qed.

Lemma take_drop (n : nat) (s : string) :
  (Git.take n s ++ Git.drop n s)%string = s.
Proof.
  revert s. induction n as [ | n IH]; intros s; [ now destruct s | ].
  destruct s as [ | c rest]; [ reflexivity | ].
  cbn [Git.take Git.drop String.append]. now rewrite IH.
Qed.

Lemma length_take (n : nat) (s : string) :
  String.length (Git.take n s) = Nat.min n (String.length s).
Proof.
  revert s. induction n as [ | n IH]; intros s; [ now destruct s | ].
  destruct s as [ | c rest]; [ reflexivity | ].
  cbn [Git.take String.length]. now rewrite IH.
Qed.

(** ** Running the commands *)

Section Collected.

Variable repo : Git.Repo.
Variable cwd : option string.

Lemma directory_resolved (t : list (Git.Command * string)) :
  Git.directory repo cwd t = (Git.resolved repo cwd, t).
Proof.
  unfold Git.directory, Git.resolved.
  destruct (populated cwd); reflexivity.
Qed.

Lemma getCurrentBranch_cases (t : list (Git.Command * string)) :
  Git.getCurrentBranch repo cwd t =
  match Git.resolved repo cwd with
  | inl _ => (inr None, t)
  | inr dir =>
      (inr match Git.run repo Git.rev_parse dir with
           | inl _ => None
           | inr stdout => populated (Some (Git.trim stdout))
           end, t ++ [(Git.rev_parse, dir)])
  end.
Proof.
  unfold Git.getCurrentBranch, Git.try_catch, Git.bind.
  rewrite directory_resolved.
  destruct (Git.resolved repo cwd) as [e | dir]; [ reflexivity | ].
  unfold Git.execAsync.
  destruct (Git.run repo Git.rev_parse dir) as [e | stdout]; reflexivity.
Qed.

Lemma getGitStatus_cases (t : list (Git.Command * string)) :
  Git.getGitStatus repo cwd t =
  match Git.resolved repo cwd with
  | inl _ => (inr None, t)
  | inr dir =>
      match Git.run repo Git.status dir with
      | inl _ => (inr None, t ++ Git.first_two dir)
      | inr statusOutput =>
          (inr (Some (Git.collected repo dir statusOutput)),
           t ++ Git.all_four dir)
      end
  end.
Proof.
  unfold Git.getGitStatus, Git.try_catch at 1, Git.bind at 1.
  rewrite getCurrentBranch_cases.
  destruct (Git.resolved repo cwd) as [e | dir] eqn:Hdir.
  - unfold Git.bind. rewrite directory_resolved, Hdir. reflexivity.
  - unfold Git.bind at 1. rewrite directory_resolved, Hdir.
    unfold Git.bind at 1, Git.execAsync at 1.
    destruct (Git.run repo Git.status dir) as [e | statusOutput];
      rewrite <- app_assoc; cbn [app]; [ reflexivity | ].
    unfold Git.try_catch, Git.bind, Git.ret, Git.execAsync, Git.collected.
    rewrite !directory_resolved, Hdir.
    destruct (Git.run repo Git.rev_list dir) as [e | aheadBehind];
      rewrite !directory_resolved, Hdir;
      destruct (Git.run repo Git.diff_cached dir) as [e' | diff];
      rewrite <- !app_assoc; reflexivity.
Qed.

End Collected.

(** ** The lines of [git status] *)

Lemma parse_line_fold (lines : list string) (lists : Git.Files) :
  fold_left Git.parse_line lines lists =
  {| Git.in_modified :=
       Git.in_modified lists ++ Git.picked "M"%char lines;
     Git.in_added := Git.in_added lists ++ Git.picked "A"%char lines;
     Git.in_deleted := Git.in_deleted lists ++ Git.picked "D"%char lines;
     Git.in_untracked :=
       Git.in_untracked lists ++ Git.picked "?"%char lines |}.
Proof.
  revert lists. induction lines as [ | line lines IH]; intros lists.
  - destruct lists. cbn. now rewrite !app_nil_r.
  - cbn [fold_left]. rewrite IH. unfold Git.parse_line, Git.picked.
    cbn [filter]. destruct (Git.blank line); cbn [negb andb];
      [ reflexivity | ].
    cbn [Git.substring Nat.min Nat.max Git.drop
         Git.in_modified Git.in_added Git.in_deleted Git.in_untracked].
    unfold Git.push.
    destruct (Git.includes "M"%char (Git.take 2 line));
      destruct (Git.includes "A"%char (Git.take 2 line));
      destruct (Git.includes "D"%char (Git.take 2 line));
      destruct (Git.includes "?"%char (Git.take 2 line));
      cbn [map]; rewrite <- ?app_assoc; reflexivity.
Qed.

Lemma parse_lines_picked (statusOutput : string) :
  Git.parse_lines statusOutput =
  {| Git.in_modified := Git.picked "M"%char (Git.split Git.LF statusOutput);
     Git.in_added := Git.picked "A"%char (Git.split Git.LF statusOutput);
     Git.in_deleted := Git.picked "D"%char (Git.split Git.LF statusOutput);
     Git.in_untracked :=
       Git.picked "?"%char (Git.split Git.LF statusOutput) |}.
Proof. unfold Git.parse_lines. now rewrite parse_line_fold. Qed.

Lemma split_output_of (entries : list Git.Entry) :
  (forall e, In e entries -> Git.includes Git.LF (Git.line_of e) = false) ->
  Git.split Git.LF (Git.output_of entries) =
  map Git.line_of entries ++ [EmptyString].
Proof.
  induction entries as [ | e rest IH]; intros H; [ reflexivity | ].
  cbn [Git.output_of map app].
  rewrite split_app by (apply H; now left).
  rewrite IH by (intros e' He'; apply H; now right). reflexivity.
Qed.

Lemma picked_lines_of (c : Ascii.ascii) (entries : list Git.Entry) :
  (forall e, In e entries -> Git.blank (Git.line_of e) = false) ->
  Git.picked c (map Git.line_of entries ++ [EmptyString]) =
  Git.marked c entries.
Proof.
  induction entries as [ | e rest IH]; intros H; [ reflexivity | ].
  unfold Git.picked, Git.marked in *. cbn [map app filter].
  rewrite (H e) by now left. cbn [negb andb].
  assert (Hc : Git.includes c (Git.take 2 (Git.line_of e)) =
               Ascii.eqb (Git.X e) c || Ascii.eqb (Git.Y e) c).
  { unfold Git.line_of. cbn [Git.take Git.includes].
    now rewrite orb_false_r. }
  rewrite Hc.
  destruct (Ascii.eqb (Git.X e) c || Ascii.eqb (Git.Y e) c);
    cbn [map]; rewrite IH by (intros e' He'; apply H; now right);
    reflexivity.
Qed.

(** ** Numerals *)

Lemma digits_string_of_uint (d : Decimal.uint) (a : nat) :
  Git.digits (NilEmpty.string_of_uint d) (Some (Z.of_nat a)) =
  Some (Z.of_nat (Nat.of_uint_acc d a)).
Proof.
  revert a. induction d; intros a; [ reflexivity | .. ];
    cbn [NilEmpty.string_of_uint Git.digits Nat.of_uint_acc];
    match goal with
    | |- context [Git.digit ?c] =>
        let v := eval vm_compute in (Git.digit c) in
        change (Git.digit c) with v
    end;
    cbv iota; rewrite <- IHd; f_equal; f_equal;
    rewrite Nat.tail_mul_spec; lia.
Qed.

Lemma every_digit_string_of_uint (d : Decimal.uint) :
  Git.every Git.is_digit (NilEmpty.string_of_uint d) = true.
Proof. induction d; [ reflexivity | .. ]; cbn; exact IHd. Qed.

Lemma to_uint_not_Nil (n : nat) : Nat.to_uint n <> Decimal.Nil.
Proof.
  intros H. pose proof (DecimalNat.Unsigned.of_to n) as Hn.
  rewrite H in Hn. cbn in Hn. subst n. discriminate H.
Qed.

Lemma numeral_head (n : nat) :
  exists c rest,
    Git.numeral n = String c rest /\ Git.is_digit c = true /\
    Git.every Git.is_digit rest = true.
Proof.
  unfold Git.numeral.
  pose proof (every_digit_string_of_uint (Nat.to_uint n)) as He.
  pose proof (to_uint_not_Nil n) as Hn.
  destruct (Nat.to_uint n); [ now elim Hn | .. ];
    cbn [NilEmpty.string_of_uint] in *; eexists; eexists;
    (split; [ reflexivity | ]);
    cbn [Git.every] in He; apply andb_true_iff in He; exact He.
Qed.

Lemma is_digit_cases (c : Ascii.ascii) :
  Git.is_digit c = true ->
  Git.is_space c = false /\ Ascii.eqb c Git.TAB = false /\
  c <> "-"%char /\ c <> "+"%char.
Proof.
  destruct c as [[] [] [] [] [] [] [] []]; intros H;
    try discriminate H; repeat split; discriminate.
Qed.

Lemma digits_numeral (n : nat) :
  Git.digits (Git.numeral n) None = Some (Z.of_nat n).
Proof.
  destruct (numeral_head n) as (c & rest & Hs & Hc & _).
  assert (H0 : Git.digits (Git.numeral n) None =
               Git.digits (Git.numeral n) (Some (Z.of_nat 0))).
  { rewrite Hs. cbn [Git.digits]. unfold Git.is_digit in Hc.
    destruct (Git.digit c); [ reflexivity | discriminate Hc ]. }
  rewrite H0. unfold Git.numeral. rewrite digits_string_of_uint.
  change (Nat.of_uint_acc (Nat.to_uint n) 0) with
    (Nat.of_uint (Nat.to_uint n)).
  now rewrite DecimalNat.Unsigned.of_to.
Qed.

Lemma parseInt_numeral (n : nat) :
  Git.parseInt (Some (Git.numeral n)) = Some (Z.of_nat n).
Proof.
  rewrite <- digits_numeral.
  destruct (numeral_head n) as (c & rest & Hs & Hc & _).
  rewrite Hs. unfold Git.parseInt. cbn [Git.trimStart].
  destruct (is_digit_cases c Hc) as (Hsp & _ & Hm & Hp). rewrite Hsp.
  destruct c as [[] [] [] [] [] [] [] []]; try reflexivity;
    [ now elim Hp | now elim Hm ].
Qed.

Lemma every_no_space (s : string) :
  Git.every Git.is_digit s = true ->
  Git.trimEnd s = s /\ Git.includes Git.TAB s = false.
Proof.
  induction s as [ | c rest IH]; intros H; [ now split | ].
  cbn [Git.every] in H. apply andb_true_iff in H as [Hc Hrest].
  destruct (IH Hrest) as [Ht Hi].
  destruct (is_digit_cases c Hc) as (Hsp & Htab & _).
  split.
  - rewrite trimEnd_cons, Ht, Hsp. now destruct rest.
  - cbn [Git.includes]. now rewrite Htab, Hi.
Qed.

Lemma trimEnd_LF (s : string) :
  Git.trimEnd (s ++ String Git.LF EmptyString)%string = Git.trimEnd s.
Proof.
  induction s as [ | c rest IH]; [ reflexivity | ].
  cbn [String.append]. now rewrite !trimEnd_cons, IH.
Qed.

Lemma trimEnd_app (s t : string) :
  Git.trimEnd t <> EmptyString ->
  Git.trimEnd (s ++ t)%string = (s ++ Git.trimEnd t)%string.
Proof.
  intros Ht. induction s as [ | c rest IH]; [ reflexivity | ].
  cbn [String.append]. rewrite trimEnd_cons, IH.
  destruct (rest ++ Git.trimEnd t)%string eqn:Hr; [ | reflexivity ].
  destruct rest; [ now elim Ht | discriminate Hr ].
Qed.

Lemma parse_counts_numerals (a b : nat) :
  Git.parse_counts
    (Git.numeral b ++ String Git.TAB (Git.numeral a)
     ++ String Git.LF EmptyString)%string =
  (Z.of_nat a, Z.of_nat b).
Proof.
  destruct (numeral_head a) as (ca & resta & Ha & Hca & Hresta).
  destruct (numeral_head b) as (cb & restb & Hb & Hcb & Hrestb).
  assert (Hea : Git.every Git.is_digit (Git.numeral a) = true).
  { rewrite Ha. cbn [Git.every]. now rewrite Hca, Hresta. }
  assert (Heb : Git.every Git.is_digit (Git.numeral b) = true).
  { rewrite Hb. cbn [Git.every]. now rewrite Hcb, Hrestb. }
  destruct (every_no_space _ Hea) as [Hta _].
  destruct (every_no_space _ Heb) as [_ Hib].
  destruct (every_no_space _ Hea) as [_ Hia].
  assert (Htrim : Git.trim
                    (Git.numeral b ++ String Git.TAB (Git.numeral a)
                     ++ String Git.LF EmptyString)%string =
                  (Git.numeral b ++ String Git.TAB (Git.numeral a))%string).
  { unfold Git.trim.
    assert (Hstart : forall t,
               Git.trimStart (Git.numeral b ++ t)%string =
               (Git.numeral b ++ t)%string).
    { intros t. rewrite Hb. cbn [String.append Git.trimStart].
      destruct (is_digit_cases cb Hcb) as (Hsp & _). now rewrite Hsp. }
    rewrite Hstart.
    assert (Hend : Git.trimEnd
                     (String Git.TAB
                        (Git.numeral a ++ String Git.LF EmptyString))%string
                   = String Git.TAB (Git.numeral a)).
    { rewrite trimEnd_cons, trimEnd_LF, Hta, Ha. reflexivity. }
    change (String Git.TAB (Git.numeral a) ++ String Git.LF EmptyString)%string
      with (String Git.TAB (Git.numeral a ++ String Git.LF EmptyString))%string.
    rewrite trimEnd_app; rewrite Hend; [ reflexivity | discriminate ]. }
  unfold Git.parse_counts. rewrite Htrim.
  rewrite split_app by exact Hib. rewrite split_no_sep by exact Hia.
  cbn [nth_error]. now rewrite !parseInt_numeral.
Qed.

(** ** What is shown *)

Lemma part_well_begun (wanted : bool) (c : Ascii.ascii) (rest : string)
  (parts : list string) :
  c <> "C"%char -> Git.well_begun parts ->
  Git.well_begun (Git.part wanted (String c rest) parts).
Proof.
  intros Hc [-> | (c' & rest' & others & -> & Hc')]; unfold Git.part;
    destruct wanted.
  - right. now exists c, rest, [].
  - now left.
  - right. exists c', rest', (others ++ [String c rest]). now split.
  - right. now exists c', rest', others.
Qed.

Lemma part_nil (wanted : bool) (text : string) (parts : list string) :
  Git.part wanted text parts = [] <-> wanted = false /\ parts = [].
Proof.
  unfold Git.part. destruct wanted.
  - split; [ intros H; now destruct parts | intros [H _]; discriminate H ].
  - split; [ now split | now intros [_ H] ].
Qed.

Lemma files_nil (label : string) (l parts : list string) :
  Git.files label l parts = [] <-> l = [] /\ parts = [].
Proof.
  unfold Git.files. rewrite part_nil.
  destruct l; cbn; split; intros [H1 H2]; split; congruence.
Qed.

Lemma join_well_begun (parts : list string) :
  Git.well_begun parts ->
  match Git.join ", " parts with
  | EmptyString => "Clean working directory"
  | shown => shown
  end = "Clean working directory" ->
  parts = [].
Proof.
  intros [-> | (c & rest & others & -> & Hc)] H; [ reflexivity | ].
  exfalso. unfold Git.join in H. cbn [String.concat] in H.
  destruct others; cbn [String.append] in H; injection H as H _;
    now apply Hc.
Qed.

(** ** The properties *)

Section Status.

Variable repo : Git.Repo.
Variable cwd : option string.

(** X18: [getGitStatus] never throws.  It returns [null] exactly when the
    directory cannot be told or [git status] fails, and then it has run
    nothing after [git status]; otherwise it has run the four commands, in
    the order of the source and in one directory, and a failure of any of
    the other three does not make it [null]. *)
Theorem getGitStatus_is_null_when_status_fails
  (t : list (Git.Command * string)) :
  exists r t',
    Git.getGitStatus repo cwd t = (inr r, t') /\
    (r = None <->
     match Git.resolved repo cwd with
     | inl _ => True
     | inr dir => exists e, Git.run repo Git.status dir = inl e
     end) /\
    t' = t ++ match Git.resolved repo cwd, r with
              | inl _, _ => []
              | inr dir, None => Git.first_two dir
              | inr dir, Some _ => Git.all_four dir
              end.
Proof.
  rewrite getGitStatus_cases.
  destruct (Git.resolved repo cwd) as [e | dir].
  - exists None, t. split; [ reflexivity | ]. split; [ tauto | ].
    now rewrite app_nil_r.
  - destruct (Git.run repo Git.status dir) as [e | statusOutput].
    + exists None, (t ++ Git.first_two dir).
      split; [ reflexivity | ]. split; [ | reflexivity ].
      split; [ intros _; now exists e | reflexivity ].
    + eexists. eexists. split; [ reflexivity | ]. split; [ | reflexivity ].
      split; [ discriminate | intros [e He]; discriminate He ].
Qed.

(** X19: the lines of [git status] end up in the right lists.  When the
    output is made of lines [XY path], none of them blank and each ended by
    a line feed, [modified] holds the paths of the lines with [M] in one of
    the two columns, in the order of the output, and likewise [added] for
    [A], [deleted] for [D] and [untracked] for [?]; whatever the other
    three commands do. *)
Theorem status_lines_are_sorted_by_letter (entries : list Git.Entry)
  (dir : string) (t : list (Git.Command * string)) :
  Git.resolved repo cwd = inr dir ->
  Git.run repo Git.status dir = inr (Git.output_of entries) ->
  (forall e, In e entries ->
             Git.includes Git.LF (Git.line_of e) = false /\
             Git.blank (Git.line_of e) = false) ->
  exists st t',
    Git.getGitStatus repo cwd t = (inr (Some st), t') /\
    Git.modified st = Git.marked "M"%char entries /\
    Git.added st = Git.marked "A"%char entries /\
    Git.deleted st = Git.marked "D"%char entries /\
    Git.untracked st = Git.marked "?"%char entries.
Proof.
  intros Hdir Hstatus Hlines.
  rewrite getGitStatus_cases, Hdir, Hstatus.
  eexists. eexists. split; [ reflexivity | ].
  unfold Git.collected.
  cbn [Git.modified Git.added Git.deleted Git.untracked].
  rewrite parse_lines_picked.
  cbn [Git.in_modified Git.in_added Git.in_deleted Git.in_untracked].
  rewrite split_output_of by (intros e He; now apply Hlines).
  rewrite !picked_lines_of by (intros e He; now apply Hlines).
  repeat split; reflexivity.
Qed.

(** X20: a branch name is never blank.  [getCurrentBranch] never throws, and
    what it returns is [null] or a name that is not empty and has no white
    space at either end. *)
Theorem branch_is_trimmed (t : list (Git.Command * string)) :
  exists b t',
    Git.getCurrentBranch repo cwd t = (inr b, t') /\
    forall name, b = Some name ->
                 name <> EmptyString /\ Git.trim name = name.
Proof.
  rewrite getCurrentBranch_cases.
  destruct (Git.resolved repo cwd) as [e | dir].
  - exists None, t. split; [ reflexivity | discriminate ].
  - eexists. eexists. split; [ reflexivity | ].
    intros name Hname.
    destruct (Git.run repo Git.rev_parse dir) as [e | stdout];
      [ discriminate Hname | ].
    pose proof (trim_idempotent stdout) as Hidem.
    destruct (Git.trim stdout) as [ | c rest]; [ discriminate Hname | ].
    cbn [populated] in Hname. injection Hname as <-.
    split; [ discriminate | exact Hidem ].
Qed.

(** X21: the two counts are read back in the right order.  When
    [git rev-list --left-right --count] prints the numerals of [b] and [a]
    with a tab between them and a line feed after them, [behind] is [b] and
    [ahead] is [a]. *)
Theorem counts_are_read_back (a b : nat) (dir statusOutput : string)
  (t : list (Git.Command * string)) :
  Git.resolved repo cwd = inr dir ->
  Git.run repo Git.status dir = inr statusOutput ->
  Git.run repo Git.rev_list dir =
    inr (Git.numeral b ++ String Git.TAB (Git.numeral a)
         ++ String Git.LF EmptyString)%string ->
  exists st t',
    Git.getGitStatus repo cwd t = (inr (Some st), t') /\
    Git.ahead st = Z.of_nat a /\ Git.behind st = Z.of_nat b.
Proof.
  intros Hdir Hstatus Hcounts.
  rewrite getGitStatus_cases, Hdir, Hstatus.
  eexists. eexists. split; [ reflexivity | ].
  unfold Git.collected. cbn [Git.ahead Git.behind].
  rewrite Hcounts, parse_counts_numerals. split; reflexivity.
Qed.

(** X22: how much of the staged diff is kept.  A [staged_diff] that is
    there comes from a [git diff --cached] that printed something other
    than white space, and it is that output itself when the output has at
    most 50000 characters; when it has more, it is the first 50000 of them
    after a line that tells the full length, and so longer than the
    limit. *)
Theorem staged_diff_is_cut_at_the_limit (t t' : list (Git.Command * string))
  (st : Git.GitStatus) (shown : string) :
  Git.getGitStatus repo cwd t = (inr (Some st), t') ->
  Git.staged_diff st = Some shown ->
  exists dir diff,
    Git.resolved repo cwd = inr dir /\
    Git.run repo Git.diff_cached dir = inr diff /\
    Git.blank diff = false /\
    ((Z.of_nat (String.length diff) <= 50000 /\ shown = diff) \/
     (50000 < Z.of_nat (String.length diff) /\
      exists kept dropped,
        diff = (kept ++ dropped)%string /\
        Z.of_nat (String.length kept) = 50000 /\
        shown =
          ("[Diff truncated: "
           ++ Git.Number_toString (Z.of_nat (String.length diff))
           ++ " bytes total]" ++ String Git.LF EmptyString
           ++ kept)%string)).
Proof.
  rewrite getGitStatus_cases. intros Hrun Hshown.
  destruct (Git.resolved repo cwd) as [e | dir]; [ discriminate Hrun | ].
  destruct (Git.run repo Git.status dir) as [e | statusOutput];
    [ discriminate Hrun | ].
  injection Hrun as <- _. unfold Git.collected in Hshown.
  cbn [Git.staged_diff] in Hshown.
  exists dir.
  destruct (Git.run repo Git.diff_cached dir) as [e | diff];
    [ discriminate Hshown | ].
  exists diff. split; [ reflexivity | ]. split; [ reflexivity | ].
  unfold Git.staged in Hshown.
  destruct (Git.blank diff); [ discriminate Hshown | ].
  split; [ reflexivity | ].
  remember (Z.to_nat Git.MAX_DIFF_SIZE) as limit eqn:Hlimit.
  cbn [Git.substring Nat.min Nat.max Git.drop] in Hshown.
  destruct (Z.of_nat (String.length diff) >? Git.MAX_DIFF_SIZE) eqn:Hlong;
    injection Hshown as <-.
  - right. apply Z.gtb_lt in Hlong.
    assert (Hl : Z.of_nat limit = 50000)
      by (subst limit; apply Z2Nat.id; discriminate).
    change Git.MAX_DIFF_SIZE with 50000 in Hlong.
    split; [ exact Hlong | ].
    exists (Git.take limit diff), (Git.drop limit diff).
    split; [ now rewrite take_drop | ]. split; [ | reflexivity ].
    rewrite length_take. lia.
  - left. split; [ | reflexivity ].
    change Git.MAX_DIFF_SIZE with 50000 in Hlong. lia.
Qed.

End Status.

(** X23: when the status reads [Clean working directory].  It does exactly
    when there is nothing to tell: no branch name, no commit ahead or
    behind, and four empty lists.  A staged diff is not looked at. *)
Theorem formatGitStatus_clean (status : Git.GitStatus) :
  Git.formatGitStatus status = "Clean working directory" <->
  populated (Git.branch status) = None /\
  Git.ahead status <= 0 /\ Git.behind status <= 0 /\
  Git.modified status = [] /\ Git.added status = [] /\
  Git.deleted status = [] /\ Git.untracked status = [].
Proof.
  unfold Git.formatGitStatus. cbv zeta.
  set (p0 := match populated (Git.branch status) with
             | Some b => [] ++ [("Branch: " ++ b)%string]
             | None => []
             end).
  set (p1 := Git.part (0 <? Git.ahead status)
               ("Ahead: " ++ Git.Number_toString (Git.ahead status))%string
               p0).
  set (p2 := Git.part (0 <? Git.behind status)
               ("Behind: " ++ Git.Number_toString (Git.behind status))%string
               p1).
  set (p3 := Git.files "Modified: " (Git.modified status) p2).
  set (p4 := Git.files "Added: " (Git.added status) p3).
  set (p5 := Git.files "Deleted: " (Git.deleted status) p4).
  set (p6 := Git.files "Untracked: " (Git.untracked status) p5).
  assert (H0 : Git.well_begun p0).
  { subst p0. destruct (populated (Git.branch status)); [ | now left ].
    right. eexists. eexists. eexists. split; [ reflexivity | discriminate ]. }
  assert (H1 : Git.well_begun p1)
    by (apply part_well_begun; [ discriminate | exact H0 ]).
  assert (H2 : Git.well_begun p2)
    by (apply part_well_begun; [ discriminate | exact H1 ]).
  assert (H3 : Git.well_begun p3)
    by (apply part_well_begun; [ discriminate | exact H2 ]).
  assert (H4 : Git.well_begun p4)
    by (apply part_well_begun; [ discriminate | exact H3 ]).
  assert (H5 : Git.well_begun p5)
    by (apply part_well_begun; [ discriminate | exact H4 ]).
  assert (H6 : Git.well_begun p6)
    by (apply part_well_begun; [ discriminate | exact H5 ]).
  assert (Hnil : p6 = [] <->
                 populated (Git.branch status) = None /\
                 Git.ahead status <= 0 /\ Git.behind status <= 0 /\
                 Git.modified status = [] /\ Git.added status = [] /\
                 Git.deleted status = [] /\ Git.untracked status = []).
  { subst p6 p5 p4 p3 p2 p1. rewrite !files_nil, !part_nil.
    rewrite !Z.ltb_ge.
    assert (Hp0 : p0 = [] <-> populated (Git.branch status) = None).
    { subst p0. destruct (populated (Git.branch status));
        split; intros H; try reflexivity; discriminate H. }
    rewrite Hp0. tauto. }
  rewrite <- Hnil. split.
  - now apply join_well_begun.
  - intros ->. reflexivity.
Qed.

(** ** The properties of config.ts and of the git status on examples *)

Lemma saved_credentials_are_loaded_on_an_empty_disk :
  Config.writable Config.calm Config.CREDENTIALS_FILE None /\
  exists d',
    Config.saveCredentials Config.calm Config.stamp
      Config.sample_credentials None = (inr tt, d') /\
    Config.getApiKey Config.calm d' = (inr (Config.JStr "sk_live_123"), d').
Proof.
  assert (Hw : Config.writable Config.calm Config.CREDENTIALS_FILE None)
    by (split; reflexivity).
  split; [ exact Hw | ].
  destruct (saved_credentials_are_loaded Config.calm Config.stamp
              Config.sample_credentials None Hw eq_refl)
    as (d' & Hsave & _ & Hkey & _).
  exists d'. split; [ exact Hsave | exact Hkey ].
Defined.

Lemma a_saved_login_authenticates_in_scenario :
  shouldSave (console dots None) = true /\
  exists c key d',
    populated (Some "sk_live_123") = Some key /\ cred_apiKey c = key /\
    Config.saveCredentials Config.calm Config.stamp c None = (inr tt, d') /\
    Config.isAuthenticated Config.calm d' = (inr true, d').
Proof.
  assert (Hrun : executeDeviceFlow scenario_env (console dots None) 5 boot =
                 (Ret {| success := true; apiKey := Some "sk_live_123";
                         keyPrefix := None; userId := None;
                         res_email := Some "a@b.com";
                         res_provider := Some "github"; res_error := None |},
                  snd (executeDeviceFlow scenario_env (console dots None) 5
                         boot))) by evaluate.
  assert (Hw : Config.writable Config.calm Config.CREDENTIALS_FILE None)
    by (split; reflexivity).
  split; [ reflexivity | ].
  destruct (a_saved_login_authenticates Config.calm Config.stamp scenario_env
              (console dots None) 5 boot _ _ None Hrun eq_refl eq_refl Hw
              eq_refl)
    as (c & key & d' & _ & Hkey & Hc & Hsave & Hauth & _).
  exists c, key, d'.
  split; [ exact Hkey | ]. split; [ exact Hc | ].
  split; [ exact Hsave | exact Hauth ].
Defined.

Lemma saved_config_is_loaded_on_an_empty_disk :
  Config.writable Config.calm Config.CONFIG_FILE None /\
  exists d',
    Config.saveConfig Config.calm
      (Config.JObj [("mode", Config.JStr "cloud")]) None = (inr tt, d') /\
    Config.loadConfig Config.calm d' =
      (inr (Config.JObj [("mode", Config.JStr "cloud")]), d').
Proof.
  assert (Hw : Config.writable Config.calm Config.CONFIG_FILE None)
    by (split; reflexivity).
  split; [ exact Hw | ].
  exact (saved_config_is_loaded Config.calm
           (Config.JObj [("mode", Config.JStr "cloud")]) None Hw eq_refl).
Defined.

Lemma new_files_are_private_on_an_empty_disk :
  exists dir f,
    snd (Config.saveCredentials Config.calm Config.stamp
           Config.sample_credentials None) = Some dir /\
    Config.credentials_json dir = Some f /\
    Z.land (Config.file_mode f) Config.others = 0 /\
    Z.land (Config.dir_mode dir) Config.others = 0.
Proof.
  destruct (new_files_are_private Config.calm Config.stamp
              Config.sample_credentials None
              (snd (Config.saveCredentials Config.calm Config.stamp
                      Config.sample_credentials None))
              eq_refl)
    as (dir & f & Hd & Hf & Hnew & _ & Hdir & _).
  exists dir, f. split; [ exact Hd | ]. split; [ exact Hf | ].
  split; [ exact (Hnew eq_refl) | exact (Hdir eq_refl) ].
Defined.

Lemma formatProvider_known_names_in_capitals :
  Config.ascii_only "GITHUB" = true /\
  Config.formatProvider (Some "GITHUB") = "GitHub".
Proof.
  split; [ reflexivity | ].
  exact (proj2 (proj1 (formatProvider_known_names "GITHUB" eq_refl))
           eq_refl).
Defined.

Lemma formatProvider_idempotent_on_gitlab :
  Config.formatProvider (Some "gitlab") = "Gitlab" /\
  Config.formatProvider (Some (Config.formatProvider (Some "gitlab"))) =
  Config.formatProvider (Some "gitlab").
Proof.
  split; [ reflexivity | ].
  refine (proj2 (proj2 (formatProvider_idempotent (Some "gitlab") _))).
  intros p Hp. injection Hp as <-. reflexivity.
Defined.

Lemma status_lines_are_sorted_by_letter_in_the_sample :
  exists st t',
    Git.getGitStatus Git.sample_repo None [] = (inr (Some st), t') /\
    Git.modified st = ["src/a.ts"; "c.ts"] /\
    Git.added st = ["b.ts"; "c.ts"] /\
    Git.deleted st = ["old.ts"] /\
    Git.untracked st = ["notes.txt"].
Proof.
  refine (status_lines_are_sorted_by_letter Git.sample_repo None
            Git.sample_entries "/work" [] eq_refl eq_refl _).
  intros e He.
  repeat (destruct He as [<- | He]; [ split; reflexivity | ]).
  destruct He.
Defined.

Lemma counts_are_read_back_in_the_sample :
  exists st t',
    Git.getGitStatus Git.sample_repo None [] = (inr (Some st), t') /\
    Git.ahead st = 3 /\ Git.behind st = 2.
Proof.
  exact (counts_are_read_back Git.sample_repo None 3 2 "/work"
           (Git.output_of Git.sample_entries) [] eq_refl eq_refl eq_refl).
Defined.

Lemma staged_diff_is_cut_at_the_limit_in_the_sample :
  exists dir diff,
    Git.resolved Git.sample_repo None = inr dir /\
    Git.run Git.sample_repo Git.diff_cached dir = inr diff /\
    Git.blank diff = false.
Proof.
  assert (Hrun : Git.getGitStatus Git.sample_repo None [] =
                 (inr (Some (Git.collected Git.sample_repo "/work"
                               (Git.output_of Git.sample_entries))),
                  Git.all_four "/work")) by reflexivity.
  assert (Hshown : Git.staged_diff
                     (Git.collected Git.sample_repo "/work"
                        (Git.output_of Git.sample_entries)) =
                   Some ("diff --git a/b.ts b/b.ts"
                         ++ String Git.LF EmptyString)%string)
    by reflexivity.
  destruct (staged_diff_is_cut_at_the_limit Git.sample_repo None [] _ _ _
              Hrun Hshown)
    as (dir & diff & Hdir & Hdiff & Hblank & _).
  exists dir, diff. split; [ exact Hdir | ]. split; assumption.
Defined.
